(** * LanceDB query layer: hybrid search, score normalisation, query resolution

    A shallow embedding of [python/lancedb/query.py]: the query-type
    resolver, the builders' [limit], the vector, full-text and hybrid
    executors, and the score normaliser ([_rank], [_normalize_scores]).

    Scores are IEEE-754 binary floating-point numbers, modelled with the
    standard library's [SpecFloat] (round to nearest, ties to even), in the
    format of the Arrow column that carries them.  Python exceptions are an
    explicit error type; the storage engine, the indices, the embedding
    functions, the reranker and [np.argsort] are parameters.

    The file has three parts: the model of the code, the definitions the
    properties are stated with (among them a relational account of
    rounding), and the properties with their proofs. *)

From Stdlib Require Import ZArith String Bool Lia Arith List Permutation.
From Stdlib Require Import Floats.SpecFloat QArith Qpower Lqa.
Import ListNotations.
Open Scope string_scope.

(** ** Python exceptions and results *)

Inductive exception : Type :=
| ValueError (msg : string)
| TypeError (msg : string)
| KeyError (msg : string)
| IndexError (msg : string)
| ImportError (msg : string)
| FileNotFoundError (msg : string)
| UpstreamError (msg : string).

Inductive result (A : Type) : Type :=
| Ok (a : A)
| Raise (e : exception).
Arguments Ok {A} a.
Arguments Raise {A} e.

Definition bind {A B : Type} (r : result A) (k : A -> result B) : result B :=
  match r with
  | Ok a => k a
  | Raise e => Raise e
  end.

Notation "x <- r ;; k" := (bind r (fun x => k))
  (at level 61, r at next level, right associativity).
Notation "' p <- r ;; k" := (bind r (fun p => k))
  (at level 61, p pattern, r at next level, right associativity).

(** ** Floating-point formats and numpy's scalar operations *)

Module Float.

(** The floating types of an Arrow column / numpy array. *)
Inductive format : Type := binary32 | binary64.

Definition prec (f : format) : Z :=
  match f with binary32 => 24 | binary64 => 53 end.

Definition emax (f : format) : Z :=
  match f with binary32 => 128 | binary64 => 1024 end.

Definition format_eqb (f g : format) : bool :=
  match f, g with
  | binary32, binary32 | binary64, binary64 => true
  | _, _ => false
  end.

Definition add (f : format) := SFadd (prec f) (emax f).
Definition sub (f : format) := SFsub (prec f) (emax f).
Definition mul (f : format) := SFmul (prec f) (emax f).
Definition div (f : format) := SFdiv (prec f) (emax f).

Definition of_Z (f : format) (z : Z) : spec_float :=
  binary_normalize (prec f) (emax f) z 0 false.

Definition zero : spec_float := S754_zero false.
Definition one (f : format) : spec_float := of_Z f 1.

Definition is_nan (x : spec_float) : bool :=
  match x with S754_nan => true | _ => false end.

Definition is_finite (x : spec_float) : bool :=
  match x with
  | S754_zero _ | S754_finite _ _ _ => true
  | _ => false
  end.

Definition is_zero (x : spec_float) : bool :=
  match x with S754_zero _ => true | _ => false end.

(** A value of the format: canonical mantissa and exponent in range. *)
Definition valid (f : format) (x : spec_float) : bool :=
  valid_binary (prec f) (emax f) x.

(** Conversion between formats (the cast of [pa.array(..., type=...)]):
    the value is rounded to the target format. *)
Definition cast (tgt : format) (x : spec_float) : spec_float :=
  match x with
  | S754_finite s m e => binary_round (prec tgt) (emax tgt) s m e
  | _ => x
  end.

(** [np.maximum] and [np.minimum] on two scalars: a NaN wins. *)
Definition maximum (a b : spec_float) : spec_float :=
  if is_nan a || SFleb b a then a else b.

Definition minimum (a b : spec_float) : spec_float :=
  if is_nan a || SFleb a b then a else b.

(** [np.max] and [np.min] of a non-empty array. *)
Definition max (l : list spec_float) : spec_float :=
  match l with
  | [] => S754_nan
  | x :: l' => fold_left maximum l' x
  end.

Definition min (l : list spec_float) : spec_float :=
  match l with
  | [] => S754_nan
  | x :: l' => fold_left minimum l' x
  end.

(** The order numpy sorts floating arrays by: [a < b], NaNs last. *)
Definition less (a b : spec_float) : bool :=
  SFltb a b || (is_nan b && negb (is_nan a)).

(** The default tolerances of [np.isclose], rounded to the format. *)
Definition rtol (f : format) : spec_float := div f (of_Z f 1) (of_Z f 100000).
Definition atol (f : format) : spec_float := div f (of_Z f 1) (of_Z f 100000000).

(** [np.isclose(a, b)] with its default arguments: for finite operands
    [abs(a - b) <= atol + rtol * abs(b)], otherwise [a == b]. *)
Definition isclose (f : format) (a b : spec_float) : bool :=
  if is_finite a && is_finite b
  then SFleb (SFabs (sub f a b)) (add f (atol f) (mul f (rtol f) (SFabs b)))
  else SFeqb a b.

End Float.

(** ** Arrow tables *)

(** The column types the query layer meets. *)
Inductive DataType : Type :=
| float32
| float64
| uint64
| int64
| utf8.

Definition DataType_eqb (a b : DataType) : bool :=
  match a, b with
  | float32, float32 | float64, float64 | uint64, uint64
  | int64, int64 | utf8, utf8 => true
  | _, _ => false
  end.

(** A column: its values, typed as the Arrow array is. *)
Inductive Array : Type :=
| FloatArray (f : Float.format) (data : list spec_float)
| UInt64Array (data : list N)
| Int64Array (data : list Z)
| StringArray (data : list string).

Definition array_type (a : Array) : DataType :=
  match a with
  | FloatArray Float.binary32 _ => float32
  | FloatArray Float.binary64 _ => float64
  | UInt64Array _ => uint64
  | Int64Array _ => int64
  | StringArray _ => utf8
  end.

Definition array_length (a : Array) : nat :=
  match a with
  | FloatArray _ d => length d
  | UInt64Array d => length d
  | Int64Array d => length d
  | StringArray d => length d
  end.

(** [pa.Table]: named columns in schema order and the row count (kept
    apart from the columns, as a table may have none). *)
Record Table : Type := mkTable {
  columns : list (string * Array);
  num_rows : nat
}.

(** Every column of a table has [num_rows] entries. *)
Definition table_wf (t : Table) : Prop :=
  Forall (fun c => array_length (snd c) = num_rows t) (columns t).

Definition column_names (t : Table) : list string := map fst (columns t).

Definition schema (t : Table) : list (string * DataType) :=
  map (fun c => (fst c, array_type (snd c))) (columns t).

(** [len(table)] *)
Definition len (t : Table) : nat := num_rows t.

(** [Table.column(name)]: the name must denote exactly one column. *)
Definition column (t : Table) (name : string) : result Array :=
  match filter (fun c => String.eqb (fst c) name) (columns t) with
  | [c] => Ok (snd c)
  | [] => Raise (KeyError name)
  | _ => Raise (KeyError name)
  end.

(** [list.index(x)]: position of the first occurrence. *)
Fixpoint index (l : list string) (x : string) : result nat :=
  match l with
  | [] => Raise (ValueError x)
  | y :: l' => if String.eqb y x then Ok 0%nat
               else i <- index l' x ;; Ok (S i)
  end.

Fixpoint replace_nth {A : Type} (i : nat) (x : A) (l : list A) : list A :=
  match l, i with
  | [], _ => []
  | _ :: l', O => x :: l'
  | y :: l', S i' => y :: replace_nth i' x l'
  end.

(** [Table.set_column(i, name, array)]: a new table whose [i]-th column is
    replaced; the array must have as many entries as the table has rows. *)
Definition set_column (t : Table) (i : nat) (name : string) (a : Array)
  : result Table :=
  if negb (i <? length (columns t))%nat then Raise (IndexError name)
  else if negb (array_length a =? num_rows t)%nat then Raise (ValueError name)
  else Ok (mkTable (replace_nth i (name, a) (columns t)) (num_rows t)).

(** [Table.slice(offset=0, length)]: without a length every row is kept;
    with one, the first [length] rows (none when it is not positive). *)
Definition slice_array (n : nat) (a : Array) : Array :=
  match a with
  | FloatArray f d => FloatArray f (firstn n d)
  | UInt64Array d => UInt64Array (firstn n d)
  | Int64Array d => Int64Array (firstn n d)
  | StringArray d => StringArray (firstn n d)
  end.

Definition slice (t : Table) (length : option Z) : Table :=
  match length with
  | None => t
  | Some z =>
      let n := Z.to_nat z in
      mkTable (map (fun c => (fst c, slice_array n (snd c))) (columns t))
              (Nat.min n (num_rows t))
  end.

(** [Table.drop(names)]: every name must be a column of the table. *)
Definition drop (t : Table) (names : list string) : result Table :=
  match filter (fun n => negb (existsb (String.eqb n) (column_names t))) names with
  | [] => Ok (mkTable
                (filter (fun c => negb (existsb (String.eqb (fst c)) names))
                        (columns t))
                (num_rows t))
  | n :: _ => Raise (KeyError n)
  end.

(** [ChunkedArray.to_numpy()] of a score column: a floating array in the
    column's format.  Columns of other types are not score columns. *)
Definition to_numpy (a : Array) : result (Float.format * list spec_float) :=
  match a with
  | FloatArray f d => Ok (f, d)
  | _ => Raise (TypeError "score column is not a floating-point column")
  end.

(** ** Score normaliser: [LanceHybridQueryBuilder._rank] and
    [LanceHybridQueryBuilder._normalize_scores] *)

(** [pa.array(values, type=pa.float32())] on a floating numpy array: the
    values are kept when the array is already binary32, rounded otherwise. *)
Definition astype (src tgt : Float.format) (x : spec_float) : spec_float :=
  if Float.format_eqb src tgt then x else Float.cast tgt x.

(** [ranks[sort_indices] = values]: entry [sort_indices[j]] receives
    [values[j]], in order; the shapes must agree and the indices be in
    range. *)
Fixpoint scatter (ranks : list Z) (sort_indices : list nat) (values : list Z)
  : result (list Z) :=
  match sort_indices, values with
  | [], [] => Ok ranks
  | i :: idx', v :: values' =>
      if (i <? length ranks)%nat
      then scatter (replace_nth i v ranks) idx' values'
      else Raise (IndexError "index out of bounds")
  | _, _ => Raise (ValueError "shape mismatch")
  end.

(** [np.arange(n) + 1] *)
Definition arange_plus_1 (n : nat) : list Z :=
  map (fun j => Z.of_nat j + 1)%Z (seq 0 n).

Section Normalizer.

(** [np.argsort] with its default [kind]: numpy documents the result as
    indices that sort the array; the default sort is not stable. *)
Variable np_argsort : list spec_float -> list nat.

(** The ranks are integers stored as [float32], here through
    [Float.of_Z]: exactly, as long as they stay below 2^24. *)
Definition _rank (results : Table) (column_ : string) (ascending : bool)
  : result Table :=
  if (len results =? 0)%nat then Ok results
  else
    a <- column results column_ ;;
    ' (f, scores) <- to_numpy a ;;
    let sort_indices := np_argsort scores in
    let sort_indices := if negb ascending then rev sort_indices
                        else sort_indices in
    (* np.empty_like: the initial contents are never read *)
    let ranks := repeat 0%Z (length sort_indices) in
    ranks <- scatter ranks sort_indices (arange_plus_1 (length scores)) ;;
    _score_idx <- index (column_names results) column_ ;;
    set_column results _score_idx column_
      (FloatArray Float.binary32 (map (Float.of_Z Float.binary32) ranks)).

Definition _normalize_scores (results : Table) (column_ : string)
    (invert : bool) : result Table :=
  if (len results =? 0)%nat then Ok results
  else
    a <- column results column_ ;;
    ' (f, scores) <- to_numpy a ;;
    let max := Float.max scores in
    let min := Float.min scores in
    let rng := if Float.isclose f max min then max
               else Float.sub f max min in
    let scores := map (fun x => Float.div f (Float.sub f x min) rng) scores in
    let scores := if invert
                  then map (fun x => Float.sub f (Float.one f) x) scores
                  else scores in
    _score_idx <- index (column_names results) column_ ;;
    set_column results _score_idx column_
      (FloatArray Float.binary32 (map (astype f Float.binary32) scores)).

End Normalizer.

(** ** Queries, tables and rerankers as the builders see them *)

(** A raw query value, by its Python type. *)
#[warnings="-register-all"]
Inductive PyQuery : Type :=
| QStr (s : string)
| QList (v : list spec_float)
| QNdarray (v : list spec_float)
| QArrowArray (v : list spec_float)
| QChunkedArray (v : list spec_float)
| QTuple (items : list PyQuery)
| QOther (repr : string).

Definition is_str (q : PyQuery) : bool :=
  match q with QStr _ => true | _ => false end.

(** [isinstance(q, (list, np.ndarray))] *)
Definition is_list_or_ndarray (q : PyQuery) : bool :=
  match q with QList _ | QNdarray _ => true | _ => false end.

(** [isinstance(q, (list, np.ndarray, pa.Array, pa.ChunkedArray))] *)
Definition is_vec (q : PyQuery) : bool :=
  match q with
  | QList _ | QNdarray _ | QArrowArray _ | QChunkedArray _ => true
  | _ => false
  end.

(** The value a reranker hands back: a [pa.Table] or something else. *)
Inductive PyObject : Type :=
| PyTable (t : Table)
| PyNotATable (repr : string).

(** [rerankers.base.Reranker] *)
Record Reranker : Type := mkReranker {
  rerank_vector : option string -> Table -> result Table;
  rerank_fts : string -> Table -> result Table;
  rerank_hybrid : string -> Table -> Table -> result PyObject
}.

(** A column projection: a list of names or a name-to-expression dict. *)
Inductive Columns : Type :=
| ColumnList (names : list string)
| ColumnDict (exprs : list (string * string)).

(** [Query]: the pydantic model handed to the table; [k] is an [int]. *)
Record Query : Type := mkQuery {
  vector_column : option string;
  vector : PyQuery;
  filter_ : option string;
  prefilter : bool;
  k : Z;
  metric : string;
  columns_ : option Columns;
  nprobes : Z;
  refine_factor : option Z;
  with_row_id : bool
}.

(** An embedding function bound to a column. *)
Record EmbeddingFunctionConfig : Type := mkEmbeddingFunctionConfig {
  compute_query_embeddings_with_retry : PyQuery -> result (list PyQuery)
}.

(** The table a builder queries: the members of [lancedb.table.Table] that
    [query.py] calls. *)
Record LanceTable : Type := mkLanceTable {
  embedding_functions : list (string * EmbeddingFunctionConfig);
  _get_fts_index_path : option string;
  _execute_query : Query -> result Table;
  (* to_lance().take(row_ids, columns=...) *)
  to_lance_take : list N -> option Columns -> result Table;
  (* to_lance().to_table(columns=..., filter=..., limit=...) *)
  to_lance_to_table : option Columns -> option string -> option Z -> result Table
}.

(** [dict.get(key)] *)
Fixpoint get {V : Type} (d : list (string * V)) (key : string) : option V :=
  match d with
  | [] => None
  | (k', v) :: d' => if String.eqb k' key then Some v else get d' key
  end.

(** [seq[0]] *)
Definition first {A : Type} (l : list A) : result A :=
  match l with
  | x :: _ => Ok x
  | [] => Raise (IndexError "list index out of range")
  end.

(** The concrete query type [_resolve_query] settles on. *)
Inductive QueryType : Type := qt_vector | qt_fts | qt_hybrid | qt_auto
                            | qt_other (name : string).

(** ** [LanceQueryBuilder] *)

(** The state every builder inherits. *)
Record LanceQueryBuilder : Type := mkLanceQueryBuilder {
  _table : LanceTable;
  _limit : option Z;
  _columns : option Columns;
  _where : option string;
  _with_row_id : bool
}.

Module LanceQueryBuilder_.

Definition __init__ (table : LanceTable) : LanceQueryBuilder :=
  mkLanceQueryBuilder table (Some 10%Z) None None false.

Definition limit (self : LanceQueryBuilder) (limit : option Z)
  : LanceQueryBuilder :=
  match limit with
  | None => mkLanceQueryBuilder (_table self) None (_columns self)
              (_where self) (_with_row_id self)
  | Some l =>
      if (l <=? 0)%Z
      then mkLanceQueryBuilder (_table self) None (_columns self)
             (_where self) (_with_row_id self)
      else mkLanceQueryBuilder (_table self) (Some l) (_columns self)
             (_where self) (_with_row_id self)
  end.

Definition select (self : LanceQueryBuilder) (columns : Columns)
  : LanceQueryBuilder :=
  mkLanceQueryBuilder (_table self) (_limit self) (Some columns)
    (_where self) (_with_row_id self).

Definition with_row_id (self : LanceQueryBuilder) (with_row_id : bool)
  : LanceQueryBuilder :=
  mkLanceQueryBuilder (_table self) (_limit self) (_columns self)
    (_where self) with_row_id.

Definition _query_to_vector (table : LanceTable) (query : PyQuery)
    (vector_column_name : string) : result PyQuery :=
  if is_list_or_ndarray query then Ok query
  else
    match get (embedding_functions table) vector_column_name with
    | Some conf =>
        embs <- compute_query_embeddings_with_retry conf query ;;
        first embs
    | None =>
        Raise (ValueError ("No embedding function for " ++ vector_column_name))
    end.

Definition _resolve_query (table : LanceTable) (query : PyQuery)
    (query_type : QueryType) (vector_column_name : string)
  : result (PyQuery * QueryType) :=
  match query_type with
  | qt_fts =>
      if negb (is_str query)
      then Raise (TypeError "'fts' queries must be a string")
      else Ok (query, query_type)
  | qt_vector =>
      query <- _query_to_vector table query vector_column_name ;;
      Ok (query, query_type)
  | qt_auto =>
      if is_list_or_ndarray query then Ok (query, qt_vector)
      else
        match query with
        | QTuple _ => Ok (query, qt_hybrid)
        | _ =>
            match get (embedding_functions table) vector_column_name with
            | Some conf =>
                embs <- compute_query_embeddings_with_retry conf query ;;
                query <- first embs ;;
                Ok (query, qt_vector)
            | None => Ok (query, qt_fts)
            end
        end
  | _ =>
      Raise (ValueError "Invalid query_type, must be 'vector', 'fts', or 'auto'")
  end.

(** [where]: the clause is stored.  The method also sets an attribute
    [_prefilter]; only the vector builder, which overrides [where], has an
    executor that reads it. *)
Definition where_ (self : LanceQueryBuilder) (clause : string)
    (prefilter : bool) : LanceQueryBuilder :=
  mkLanceQueryBuilder (_table self) (_limit self) (_columns self)
    (Some clause) (_with_row_id self).

End LanceQueryBuilder_.

(** ** [LanceVectorQueryBuilder] *)

Record LanceVectorQueryBuilder : Type := mkLanceVectorQueryBuilder {
  vq_base : LanceQueryBuilder;
  vq_query : PyQuery;
  vq_metric : string;
  vq_nprobes : Z;
  vq_refine_factor : option Z;
  vq_vector_column : string;
  vq_prefilter : bool;
  vq_reranker : option Reranker;
  vq_str_query : option string
}.

Module LanceVectorQueryBuilder_.

Definition __init__ (table : LanceTable) (query : PyQuery)
    (vector_column : string) (str_query : option string)
  : LanceVectorQueryBuilder :=
  mkLanceVectorQueryBuilder (LanceQueryBuilder_.__init__ table) query
    "L2" 20 None vector_column false None str_query.

Definition with_base (self : LanceVectorQueryBuilder)
    (b : LanceQueryBuilder) : LanceVectorQueryBuilder :=
  mkLanceVectorQueryBuilder b (vq_query self) (vq_metric self)
    (vq_nprobes self) (vq_refine_factor self) (vq_vector_column self)
    (vq_prefilter self) (vq_reranker self) (vq_str_query self).

Definition limit (self : LanceVectorQueryBuilder) (l : option Z) :=
  with_base self (LanceQueryBuilder_.limit (vq_base self) l).

Definition with_row_id (self : LanceVectorQueryBuilder) (b : bool) :=
  with_base self (LanceQueryBuilder_.with_row_id (vq_base self) b).

(** [Query(..., k=self._limit, ...)]: pydantic rejects [None] for the
    [int] field [k].  The executor reads [vector[0]] before it builds the
    [Query]; what follows is the execution for a query vector that has a
    first entry. *)
Definition make_query (self : LanceVectorQueryBuilder) : result Query :=
  match _limit (vq_base self) with
  | None => Raise (ValueError "k: value is not a valid integer")
  | Some k =>
      Ok (mkQuery (Some (vq_vector_column self)) (vq_query self)
            (_where (vq_base self)) (vq_prefilter self) k (vq_metric self)
            (_columns (vq_base self)) (vq_nprobes self)
            (vq_refine_factor self) (_with_row_id (vq_base self)))
  end.

Definition to_arrow (self : LanceVectorQueryBuilder) : result Table :=
  query <- make_query self ;;
  result_set <- _execute_query (_table (vq_base self)) query ;;
  match vq_reranker self with
  | Some r => rerank_vector r (vq_str_query self) result_set
  | None => Ok result_set
  end.

Definition select (self : LanceVectorQueryBuilder) (columns : Columns) :=
  with_base self (LanceQueryBuilder_.select (vq_base self) columns).

Definition where_ (self : LanceVectorQueryBuilder) (clause : string)
    (prefilter : bool) : LanceVectorQueryBuilder :=
  mkLanceVectorQueryBuilder
    (LanceQueryBuilder_.where_ (vq_base self) clause prefilter)
    (vq_query self) (vq_metric self) (vq_nprobes self)
    (vq_refine_factor self) (vq_vector_column self) prefilter
    (vq_reranker self) (vq_str_query self).

Definition metric (self : LanceVectorQueryBuilder) (metric : string)
  : LanceVectorQueryBuilder :=
  mkLanceVectorQueryBuilder (vq_base self) (vq_query self) metric
    (vq_nprobes self) (vq_refine_factor self) (vq_vector_column self)
    (vq_prefilter self) (vq_reranker self) (vq_str_query self).

Definition nprobes (self : LanceVectorQueryBuilder) (nprobes : Z)
  : LanceVectorQueryBuilder :=
  mkLanceVectorQueryBuilder (vq_base self) (vq_query self) (vq_metric self)
    nprobes (vq_refine_factor self) (vq_vector_column self)
    (vq_prefilter self) (vq_reranker self) (vq_str_query self).

Definition refine_factor (self : LanceVectorQueryBuilder)
    (refine_factor : Z) : LanceVectorQueryBuilder :=
  mkLanceVectorQueryBuilder (vq_base self) (vq_query self) (vq_metric self)
    (vq_nprobes self) (Some refine_factor) (vq_vector_column self)
    (vq_prefilter self) (vq_reranker self) (vq_str_query self).

Definition with_reranker (self : LanceVectorQueryBuilder)
    (reranker : option Reranker) : LanceVectorQueryBuilder :=
  mkLanceVectorQueryBuilder (vq_base self) (vq_query self) (vq_metric self)
    (vq_nprobes self) (vq_refine_factor self) (vq_vector_column self)
    (vq_prefilter self) reranker (vq_str_query self).

Definition with_str_query (self : LanceVectorQueryBuilder)
    (str_query : option string) : LanceVectorQueryBuilder :=
  mkLanceVectorQueryBuilder (vq_base self) (vq_query self) (vq_metric self)
    (vq_nprobes self) (vq_refine_factor self) (vq_vector_column self)
    (vq_prefilter self) (vq_reranker self) str_query.

(** [rerank(reranker, query_string=None)].  The builder is updated in
    place and the reranker is stored before the arguments are checked, so
    the builder is returned together with the outcome: it is the object
    the caller still holds when the method raises. *)
Definition rerank (self : LanceVectorQueryBuilder) (reranker : Reranker)
    (query_string : option PyQuery)
  : LanceVectorQueryBuilder * result unit :=
  let self := with_reranker self (Some reranker) in
  match vq_str_query self, query_string with
  | None, None =>
      (self, Raise (ValueError
         "The query used for vector search is not a string."))
  | _, _ =>
      match query_string with
      | Some (QStr s) => (with_str_query self (Some s), Ok tt)
      | Some _ =>
          (self, Raise (ValueError
             "Reranking currently only supports string queries"))
      | None => (self, Ok tt)
      end
  end.

End LanceVectorQueryBuilder_.

(** ** [LanceEmptyQueryBuilder] *)

Module LanceEmptyQueryBuilder_.

Definition to_arrow (self : LanceQueryBuilder) : result Table :=
  to_lance_to_table (_table self) (_columns self) (_where self)
    (_limit self).

End LanceEmptyQueryBuilder_.

(** ** More of [pa.Table] and [str], as the full-text executor uses them *)

(** [Table.append_column(name, array)] *)
Definition append_column (t : Table) (name : string) (a : Array)
  : result Table :=
  if negb (array_length a =? num_rows t)%nat then Raise (ValueError name)
  else Ok (mkTable (columns t ++ [(name, a)]) (num_rows t)).

(** Gathering the entries at the given positions. *)
Fixpoint take_list {A : Type} (l : list A) (indexer : list nat)
  : result (list A) :=
  match indexer with
  | [] => Ok []
  | i :: indexer' =>
      match nth_error l i with
      | Some x => r <- take_list l indexer' ;; Ok (x :: r)
      | None => Raise (IndexError "index out of bounds")
      end
  end.

Definition take_array (a : Array) (indexer : list nat) : result Array :=
  match a with
  | FloatArray f d => r <- take_list d indexer ;; Ok (FloatArray f r)
  | UInt64Array d => r <- take_list d indexer ;; Ok (UInt64Array r)
  | Int64Array d => r <- take_list d indexer ;; Ok (Int64Array r)
  | StringArray d => r <- take_list d indexer ;; Ok (StringArray r)
  end.

Fixpoint take_columns (cs : list (string * Array)) (indexer : list nat)
  : result (list (string * Array)) :=
  match cs with
  | [] => Ok []
  | (n, a) :: cs' =>
      a' <- take_array a indexer ;;
      r <- take_columns cs' indexer ;;
      Ok ((n, a') :: r)
  end.

(** [Table.take(indexer)] *)
Definition take (t : Table) (indexer : list nat) : result Table :=
  cs <- take_columns (columns t) indexer ;;
  Ok (mkTable cs (length indexer)).

(** The positions held by an integer column. *)
Definition as_indexer (a : Array) : result (list nat) :=
  match a with
  | Int64Array d => Ok (map Z.to_nat d)
  | UInt64Array d => Ok (map N.to_nat d)
  | _ => Raise (TypeError "indexer must be an integer array")
  end.

Definition double_quote : Ascii.ascii := Ascii.ascii_of_nat 34.
Definition single_quote : Ascii.ascii := Ascii.ascii_of_nat 39.

(** [s.replace(old, new)] on single characters *)
Fixpoint replace_char (old new : Ascii.ascii) (s : string) : string :=
  match s with
  | EmptyString => EmptyString
  | String c s' =>
      String (if Ascii.eqb c old then new else c) (replace_char old new s')
  end.

(** ** [LanceFtsQueryBuilder] *)

Record LanceFtsQueryBuilder : Type := mkLanceFtsQueryBuilder {
  fq_base : LanceQueryBuilder;
  fq_query : string;
  fq_phrase_query : bool;
  fq_reranker : option Reranker
}.

(** What lies outside the process: installed packages, the file system,
    the tantivy index and the SQL engines. *)
Record Environment : Type := mkEnvironment {
  tantivy_installed : bool;
  duckdb_installed : bool;
  path_exists : string -> bool;
  (* tantivy.Index.open(index_path) followed by fts.search_index *)
  search_index : string -> string -> option Z
                 -> result (list N * list spec_float);
  (* duckdb: SELECT tmp FROM output_tbl WHERE where *)
  duckdb_select_where : string -> string -> Table -> result (list nat);
  (* lance.write_dataset(output_tbl, tmp).to_table(filter=where) *)
  lance_filter : string -> Table -> result Table
}.

Module LanceFtsQueryBuilder_.

Definition __init__ (table : LanceTable) (query : string)
  : LanceFtsQueryBuilder :=
  mkLanceFtsQueryBuilder (LanceQueryBuilder_.__init__ table) query false None.

Definition with_base (self : LanceFtsQueryBuilder) (b : LanceQueryBuilder)
  : LanceFtsQueryBuilder :=
  mkLanceFtsQueryBuilder b (fq_query self) (fq_phrase_query self)
    (fq_reranker self).

Definition limit (self : LanceFtsQueryBuilder) (l : option Z) :=
  with_base self (LanceQueryBuilder_.limit (fq_base self) l).

Definition with_row_id (self : LanceFtsQueryBuilder) (b : bool) :=
  with_base self (LanceQueryBuilder_.with_row_id (fq_base self) b).

Definition tmp_name : string := "__lancedb__duckdb__indexer__".

(** The [if self._where is not None] block: rows are kept by position,
    through duckdb or, without it, through a temporary lance dataset. *)
Definition apply_where (env : Environment) (where_ : string)
    (output_tbl : Table) (row_ids : list N) : result (Table * list N) :=
  output_tbl <- append_column output_tbl tmp_name
                  (Int64Array (map Z.of_nat (seq 0 (len output_tbl)))) ;;
  if duckdb_installed env then
    indexer <- duckdb_select_where env tmp_name where_ output_tbl ;;
    output_tbl <- take output_tbl indexer ;;
    output_tbl <- drop output_tbl [tmp_name] ;;
    row_ids <- take_list row_ids indexer ;;
    Ok (output_tbl, row_ids)
  else
    output_tbl <- lance_filter env where_ output_tbl ;;
    a <- column output_tbl tmp_name ;;
    indexer <- as_indexer a ;;
    row_ids <- take_list row_ids indexer ;;
    output_tbl <- drop output_tbl [tmp_name] ;;
    Ok (output_tbl, row_ids).

(** The text handed to the index: a phrase query is wrapped in double
    quotes, its own double quotes turned into single ones. *)
Definition search_text (self : LanceFtsQueryBuilder) : string :=
  let query := fq_query self in
  if fq_phrase_query self
  then String double_quote
         (replace_char double_quote single_quote query
          ++ String double_quote EmptyString)
  else query.

Definition to_arrow (env : Environment) (self : LanceFtsQueryBuilder)
  : result Table :=
  if negb (tantivy_installed env)
  then Raise (ImportError "Please install tantivy-py")
  else
    match _get_fts_index_path (_table (fq_base self)) with
    | None => Raise (TypeError "expected str, bytes or os.PathLike object")
    | Some index_path =>
        if negb (path_exists env index_path)
        then Raise (FileNotFoundError "Fts index does not exist.")
        else
          let query := search_text self in
          ' (row_ids, scores) <-
              search_index env index_path query (_limit (fq_base self)) ;;
          if (length row_ids =? 0)%nat
          then Ok (mkTable [("score", FloatArray Float.binary32 [])] 0)
          else
            let scores := FloatArray Float.binary64 scores in
            output_tbl <- to_lance_take (_table (fq_base self)) row_ids
                            (_columns (fq_base self)) ;;
            output_tbl <- append_column output_tbl "score" scores ;;
            ' (output_tbl, row_ids) <-
                match _where (fq_base self) with
                | Some w => apply_where env w output_tbl row_ids
                | None => Ok (output_tbl, row_ids)
                end ;;
            output_tbl <-
              (if _with_row_id (fq_base self)
               then append_column output_tbl "_rowid" (UInt64Array row_ids)
               else Ok output_tbl) ;;
            match fq_reranker self with
            | Some r => rerank_fts r (fq_query self) output_tbl
            | None => Ok output_tbl
            end
    end.

Definition select (self : LanceFtsQueryBuilder) (columns : Columns) :=
  with_base self (LanceQueryBuilder_.select (fq_base self) columns).

Definition where_ (self : LanceFtsQueryBuilder) (clause : string)
    (prefilter : bool) :=
  with_base self (LanceQueryBuilder_.where_ (fq_base self) clause prefilter).

Definition phrase_query (self : LanceFtsQueryBuilder) (phrase_query : bool)
  : LanceFtsQueryBuilder :=
  mkLanceFtsQueryBuilder (fq_base self) (fq_query self) phrase_query
    (fq_reranker self).

Definition rerank (self : LanceFtsQueryBuilder) (reranker : Reranker)
  : LanceFtsQueryBuilder :=
  mkLanceFtsQueryBuilder (fq_base self) (fq_query self)
    (fq_phrase_query self) (Some reranker).

End LanceFtsQueryBuilder_.

(** ** [LanceHybridQueryBuilder] *)

Record LanceHybridQueryBuilder : Type := mkLanceHybridQueryBuilder {
  hq_base : LanceQueryBuilder;
  _fts_query : LanceFtsQueryBuilder;
  _vector_query : LanceVectorQueryBuilder;
  _norm : string;
  _reranker : Reranker
}.

Module LanceHybridQueryBuilder_.

Definition _validate_fts_index (table : LanceTable) : result unit :=
  match _get_fts_index_path table with
  | None =>
      Raise (ValueError
        "Please create a full-text search index to perform hybrid search.")
  | Some _ => Ok tt
  end.

Definition _validate_query (query : PyQuery) : result (PyQuery * PyQuery) :=
  match query with
  | QStr _ => Ok (query, query)
  | QTuple items =>
      if negb (length items =? 2)%nat
      then Raise (ValueError
             "The query must be a tuple of (vector_query, fts_query).")
      else
        match items with
        | [q0; q1] =>
            if negb (is_vec q0)
            then Raise (ValueError "The vector query must be one of VEC.")
            else if negb (is_str q1)
            then Raise (ValueError "The fts query must be a string.")
            else Ok (q0, q1)
        | _ => Raise (ValueError
                 "The query must be a tuple of (vector_query, fts_query).")
        end
  | _ => Raise (ValueError
           "The query must be either a string or a tuple of (vector, string).")
  end.

(** The text of a validated full-text sub-query. *)
Definition str_of (q : PyQuery) : string :=
  match q with QStr s => s | _ => EmptyString end.

(** [LinearCombinationReranker(weight=0.7, fill=1.0)] is the default
    reranker; it is a parameter here. *)
Definition __init__ (default_reranker : Reranker) (table : LanceTable)
    (query : PyQuery) (vector_column : string)
  : result LanceHybridQueryBuilder :=
  let base := LanceQueryBuilder_.__init__ table in
  _ <- _validate_fts_index table ;;
  ' (vector_query, fts_query) <- _validate_query query ;;
  let fts := LanceFtsQueryBuilder_.__init__ table (str_of fts_query) in
  vector_query <-
    LanceQueryBuilder_._query_to_vector table vector_query vector_column ;;
  let vec :=
    LanceVectorQueryBuilder_.__init__ table vector_query vector_column None in
  Ok (mkLanceHybridQueryBuilder base fts vec "score" default_reranker).

Definition rerank (self : LanceHybridQueryBuilder) (normalize : string)
    (reranker : Reranker) : result LanceHybridQueryBuilder :=
  if negb (String.eqb normalize "rank" || String.eqb normalize "score")
  then Raise (ValueError "normalize must be 'rank' or 'score'.")
  else Ok (mkLanceHybridQueryBuilder (hq_base self) (_fts_query self)
             (_vector_query self) normalize reranker).

Definition limit (self : LanceHybridQueryBuilder) (limit : option Z)
  : LanceHybridQueryBuilder :=
  let vec := LanceVectorQueryBuilder_.limit (_vector_query self) limit in
  let fts := LanceFtsQueryBuilder_.limit (_fts_query self) limit in
  let base := mkLanceQueryBuilder (_table (hq_base self)) limit
                (_columns (hq_base self)) (_where (hq_base self))
                (_with_row_id (hq_base self)) in
  mkLanceHybridQueryBuilder base fts vec (_norm self) (_reranker self).

Definition with_row_id (self : LanceHybridQueryBuilder) (b : bool)
  : LanceHybridQueryBuilder :=
  mkLanceHybridQueryBuilder
    (LanceQueryBuilder_.with_row_id (hq_base self) b)
    (_fts_query self) (_vector_query self) (_norm self) (_reranker self).

(** Both sub-queries are submitted to the pool, each asked for row ids;
    the full-text future is awaited first. *)
Definition dispatch (env : Environment) (self : LanceHybridQueryBuilder)
  : result (Table * Table) :=
  fts_results <-
    LanceFtsQueryBuilder_.to_arrow env
      (LanceFtsQueryBuilder_.with_row_id (_fts_query self) true) ;;
  vector_results <-
    LanceVectorQueryBuilder_.to_arrow
      (LanceVectorQueryBuilder_.with_row_id (_vector_query self) true) ;;
  Ok (fts_results, vector_results).

Definition to_arrow (np_argsort : list spec_float -> list nat)
    (env : Environment) (self : LanceHybridQueryBuilder) : result Table :=
  ' (fts_results, vector_results) <- dispatch env self ;;
  ' (vector_results, fts_results) <-
      (if String.eqb (_norm self) "rank"
       then
         vector_results <- _rank np_argsort vector_results "_distance" true ;;
         fts_results <- _rank np_argsort fts_results "score" true ;;
         Ok (vector_results, fts_results)
       else Ok (vector_results, fts_results)) ;;
  vector_results <- _normalize_scores vector_results "_distance" false ;;
  fts_results <- _normalize_scores fts_results "score" false ;;
  results <- rerank_hybrid (_reranker self)
               (fq_query (_fts_query self)) vector_results fts_results ;;
  match results with
  | PyNotATable _ =>
      Raise (TypeError "rerank_hybrid must return a pyarrow.Table")
  | PyTable results =>
      let results := slice results (_limit (hq_base self)) in
      if negb (_with_row_id (hq_base self))
      then drop results ["_rowid"]
      else Ok results
  end.

(** The setters below reach the sub-queries only; the hybrid builder's
    own state is left as it is. *)
Definition with_queries (self : LanceHybridQueryBuilder)
    (fts : LanceFtsQueryBuilder) (vec : LanceVectorQueryBuilder)
  : LanceHybridQueryBuilder :=
  mkLanceHybridQueryBuilder (hq_base self) fts vec (_norm self)
    (_reranker self).

Definition select (self : LanceHybridQueryBuilder) (columns : Columns)
  : LanceHybridQueryBuilder :=
  let vec := LanceVectorQueryBuilder_.select (_vector_query self) columns in
  let fts := LanceFtsQueryBuilder_.select (_fts_query self) columns in
  with_queries self fts vec.

Definition where_ (self : LanceHybridQueryBuilder) (clause : string)
    (prefilter : bool) : LanceHybridQueryBuilder :=
  let vec :=
    LanceVectorQueryBuilder_.where_ (_vector_query self) clause prefilter in
  let fts := LanceFtsQueryBuilder_.where_ (_fts_query self) clause false in
  with_queries self fts vec.

Definition metric (self : LanceHybridQueryBuilder) (metric : string)
  : LanceHybridQueryBuilder :=
  with_queries self (_fts_query self)
    (LanceVectorQueryBuilder_.metric (_vector_query self) metric).

Definition nprobes (self : LanceHybridQueryBuilder) (nprobes : Z)
  : LanceHybridQueryBuilder :=
  with_queries self (_fts_query self)
    (LanceVectorQueryBuilder_.nprobes (_vector_query self) nprobes).

Definition refine_factor (self : LanceHybridQueryBuilder)
    (refine_factor : Z) : LanceHybridQueryBuilder :=
  with_queries self (_fts_query self)
    (LanceVectorQueryBuilder_.refine_factor (_vector_query self)
       refine_factor).

End LanceHybridQueryBuilder_.

(** ** [LanceQueryBuilder.create] *)

(** The builder [create] hands back, by its class. *)
Inductive Builder : Type :=
| EmptyBuilder (b : LanceQueryBuilder)
| HybridBuilder (b : LanceHybridQueryBuilder)
| FtsBuilder (b : LanceFtsQueryBuilder)
| VectorBuilder (b : LanceVectorQueryBuilder).

(** The [query_type] string, as the resolver tells its values apart. *)
Definition query_type_of (query_type : string) : QueryType :=
  if String.eqb query_type "hybrid" then qt_hybrid
  else if String.eqb query_type "fts" then qt_fts
  else if String.eqb query_type "vector" then qt_vector
  else if String.eqb query_type "auto" then qt_auto
  else qt_other query_type.

(** [np.array(query, dtype=np.float32)] and [query.astype(np.float32)]:
    every entry is rounded to binary32. *)
Definition to_float32 (v : list spec_float) : list spec_float :=
  map (Float.cast Float.binary32) v.

(** [query = None] is [None]; [default_reranker] is the reranker the
    hybrid constructor installs. *)
Definition create (default_reranker : Reranker) (table : LanceTable)
    (query : option PyQuery) (query_type : string)
    (vector_column_name : string) : result Builder :=
  match query with
  | None => Ok (EmptyBuilder (LanceQueryBuilder_.__init__ table))
  | Some query =>
      match query_type_of query_type with
      | qt_hybrid =>
          b <- LanceHybridQueryBuilder_.__init__ default_reranker table query
                 vector_column_name ;;
          Ok (HybridBuilder b)
      | query_type =>
          let str_query := match query with
                           | QStr s => Some s
                           | _ => None
                           end in
          ' (query, query_type) <-
              LanceQueryBuilder_._resolve_query table query query_type
                vector_column_name ;;
          match query_type with
          | qt_hybrid =>
              b <- LanceHybridQueryBuilder_.__init__ default_reranker table
                     query vector_column_name ;;
              Ok (HybridBuilder b)
          | _ =>
              match query with
              | QStr s => Ok (FtsBuilder (LanceFtsQueryBuilder_.__init__ table s))
              | QList v | QNdarray v =>
                  Ok (VectorBuilder
                        (LanceVectorQueryBuilder_.__init__ table
                           (QNdarray (to_float32 v)) vector_column_name
                           str_query))
              | _ => Raise (TypeError "Unsupported query type")
              end
          end
      end
  end.

(** ** Struct columns and [LanceQueryBuilder.to_pandas] *)

(** A column that may be a struct of named child columns. *)
#[warnings="-register-all"]
Inductive Column : Type :=
| Flat (a : Array)
| Struct (children : list (string * Column)).

(** A [pa.Table] whose columns may be structs. *)
Definition StructTable : Type := list (string * Column).

(** [pa.types.is_struct(col.type)] *)
Definition is_struct (c : Column) : bool :=
  match c with Struct _ => true | Flat _ => false end.

(** [Table.flatten()]: each struct column gives way to one column per
    child, named [parent.child]; other columns are left unchanged. *)
Definition flatten_column (c : string * Column) : list (string * Column) :=
  match snd c with
  | Flat _ => [c]
  | Struct children =>
      map (fun child => (fst c ++ "." ++ fst child, snd child)) children
  end.

Definition flatten (tbl : StructTable) : StructTable :=
  flat_map flatten_column tbl.

(** A plain table seen as a table without struct columns. *)
Definition of_table (t : Table) : StructTable :=
  map (fun c => (fst c, Flat (snd c))) (columns t).

(** The [flatten] argument of [to_pandas]. *)
Inductive FlattenArg : Type :=
| FlattenNone
| FlattenBool (b : bool)
| FlattenInt (n : Z).

(** The [while True] loop of [flatten is True]: flatten, and again while a
    struct column is left.  [None] when the fuel runs out first. *)
Fixpoint flatten_while (fuel : nat) (tbl : StructTable) : option StructTable :=
  match fuel with
  | O => None
  | S fuel' =>
      let tbl := flatten tbl in
      if existsb (fun c => is_struct (snd c)) tbl
      then flatten_while fuel' tbl
      else Some tbl
  end.

(** [to_pandas(flatten)], given the outcome of [self.to_arrow()]; the
    data frame has the columns of the table it is made from.  [False] is
    an [int] that is not positive. *)
Definition to_pandas (fuel : nat) (to_arrow : result StructTable)
    (flatten_ : FlattenArg) : option (result StructTable) :=
  match to_arrow with
  | Raise e => Some (Raise e)
  | Ok tbl =>
      match flatten_ with
      | FlattenBool true =>
          match flatten_while fuel tbl with
          | Some tbl => Some (Ok tbl)
          | None => None
          end
      | FlattenBool false =>
          Some (Raise (ValueError "Please specify a positive integer for flatten or the boolean value `True`"))
      | FlattenInt n =>
          if (n <=? 0)%Z
          then Some (Raise (ValueError "Please specify a positive integer for flatten or the boolean value `True`"))
          else Some (Ok (Nat.iter (Z.to_nat n) flatten tbl))
      | FlattenNone => Some (Ok tbl)
      end
  end.

(** ** [conftest.MockEmbeddingAPI]: a rate-limited embedding service *)

Record MockEmbeddingAPI : Type := mkMockEmbeddingAPI {
  rate_limit : Z;
  time_unit : spec_float;
  request_count : Z;
  window_start_time : spec_float
}.

(** What a call gives back: the embeddings, or [Exception(msg)]. *)
Inductive Response : Type :=
| Embeddings (embs : list (list spec_float))
| Exception (msg : string).

Module MockEmbeddingAPI_.

(** [now] is the reading of [time.time()]. *)
Definition __init__ (now : spec_float) (rate_limit : Z)
    (time_unit : spec_float) : MockEmbeddingAPI :=
  mkMockEmbeddingAPI rate_limit time_unit 0 now.

Section Embed.

(** One embedding: a random draw, scaled to unit length. *)
Variable _compute_one_embedding : string -> list spec_float.

Definition _process_api_request (texts : list string)
  : list (list spec_float) :=
  map _compute_one_embedding texts.

(** [embed(texts)], with the reading [now] of the clock; the object is
    updated in place, so it is returned with the response. *)
Definition embed (self : MockEmbeddingAPI) (now : spec_float)
    (texts : list string) : MockEmbeddingAPI * Response :=
  if (rate_limit self =? 0)%Z
  then (self, Embeddings (_process_api_request texts))
  else
    let current_time := now in
    let self :=
      if SFltb (time_unit self)
           (Float.sub Float.binary64 current_time (window_start_time self))
      then mkMockEmbeddingAPI (rate_limit self) (time_unit self) 0
             current_time
      else self in
    if (request_count self <? rate_limit self)%Z
    then (mkMockEmbeddingAPI (rate_limit self) (time_unit self)
            (request_count self + 1) (window_start_time self),
          Embeddings (_process_api_request texts))
    else (self, Exception "429").

End Embed.

End MockEmbeddingAPI_.

(** * Specification-side definitions and sample data *)

(** The empty result of a full-text search: one [float32] column
    [score], no rows. *)
Definition empty_score_table : Table :=
  mkTable [("score", FloatArray Float.binary32 [])] 0.

(** The raw queries a hybrid builder refuses, as the resolver's contract
    words them: neither a string nor a tuple; a tuple that is not a pair; a
    pair whose first element is not vector-like; a pair whose second
    element is not a string. *)
Definition invalid_hybrid_query (q : PyQuery) : bool :=
  match q with
  | QStr _ => false
  | QTuple items =>
      match items with
      | [q0; q1] => negb (is_vec q0) || negb (is_str q1)
      | _ => true
      end
  | _ => true
  end.

(** A table with nothing bound to it and no full-text index path. *)
Definition bare_table : LanceTable :=
  mkLanceTable [] None
    (fun _ => Raise (UpstreamError "no dataset"))
    (fun _ _ => Raise (UpstreamError "no dataset"))
    (fun _ _ _ => Raise (UpstreamError "no dataset")).

(** ** A small database for the examples

    Three rows come back from the vector index and three from the
    full-text index; the reranker of the examples keeps the vector side. *)

Definition f32 (z : Z) : spec_float := Float.of_Z Float.binary32 z.
Definition f64 (z : Z) : spec_float := Float.of_Z Float.binary64 z.

Definition sample_index_path : string := "data/docs.lance/_indices/tantivy".

Definition sample_vector_results : Table :=
  mkTable [("text", StringArray ["a"; "b"; "c"]);
           ("_distance", FloatArray Float.binary32 [f32 1; f32 2; f32 4]);
           ("_rowid", UInt64Array [1%N; 2%N; 3%N])] 3.

Definition sample_embedding : EmbeddingFunctionConfig :=
  mkEmbeddingFunctionConfig (fun _ => Ok [QList [f32 1; f32 0]]).

(** A table whose full-text index path is known; whether anything exists
    there is the environment's business. *)
Definition sample_table : LanceTable :=
  mkLanceTable [("vector", sample_embedding)] (Some sample_index_path)
    (fun _ => Ok sample_vector_results)
    (fun row_ids _ =>
       Ok (mkTable [("text", StringArray (map (fun _ => "t") row_ids))]
             (length row_ids)))
    (fun _ _ _ => Ok sample_vector_results).

Definition sample_env (index_built : bool) : Environment :=
  mkEnvironment true true
    (fun p => index_built && String.eqb p sample_index_path)
    (fun _ _ _ => Ok ([2%N; 3%N; 4%N], [f64 3; f64 1; f64 2]))
    (fun _ _ t => Ok (seq 0 (len t)))
    (fun _ t => Ok t).

(** An environment whose index matches nothing. *)
Definition no_match_env : Environment :=
  mkEnvironment true true (fun _ => true)
    (fun _ _ _ => Ok ([], []))
    (fun _ _ t => Ok (seq 0 (len t)))
    (fun _ t => Ok t).

Definition keep_vector_reranker : Reranker :=
  mkReranker (fun _ t => Ok t) (fun _ t => Ok t)
    (fun _ vector_results _ => Ok (PyTable vector_results)).

(** A hybrid builder over the sample table, as the constructor leaves it. *)
Definition sample_hybrid : LanceHybridQueryBuilder :=
  mkLanceHybridQueryBuilder
    (LanceQueryBuilder_.__init__ sample_table)
    (LanceFtsQueryBuilder_.__init__ sample_table "hello")
    (LanceVectorQueryBuilder_.__init__ sample_table (QList [f32 1; f32 0])
       "vector" None)
    "score" keep_vector_reranker.

Definition identity_argsort (l : list spec_float) : list nat :=
  seq 0 (length l).

(** A full-text builder with a projection and row ids requested. *)
Definition sample_fts_with_row_id : LanceFtsQueryBuilder :=
  LanceFtsQueryBuilder_.with_row_id
    (LanceFtsQueryBuilder_.with_base
       (LanceFtsQueryBuilder_.__init__ sample_table "hello")
       (LanceQueryBuilder_.select (LanceQueryBuilder_.__init__ sample_table)
          (ColumnList ["text"])))
    true.

(** A full-text index is absent when the table reports no path for it or
    nothing exists at the path it reports. *)
Definition fts_index_absent (env : Environment) (table : LanceTable) : Prop :=
  match _get_fts_index_path table with
  | None => True
  | Some index_path => path_exists env index_path = false
  end.

(** ** Predicates on floats *)

Module FloatSpec.

(** A float that is not NaN and not negative. *)
Definition nonneg (x : spec_float) : bool :=
  match x with
  | S754_zero _ => true
  | S754_infinity s => negb s
  | S754_finite s _ _ => negb s
  | S754_nan => false
  end.

(** A float that is not NaN and carries the sign [s]. *)
Definition has_sign (s : bool) (x : spec_float) : Prop :=
  match x with
  | S754_zero s' | S754_infinity s' | S754_finite s' _ _ => s' = s
  | S754_nan => False
  end.

End FloatSpec.

(** The table [results] with its [i]-th column replaced by the [float32]
    column [name] holding [scores]. *)
Definition with_scores (results : Table) (i : nat) (name : string)
    (scores : list spec_float) : Table :=
  mkTable (replace_nth i (name, FloatArray Float.binary32 scores)
             (columns results))
          (num_rows results).

(** The sign bit of a float (NaN has none). *)
Definition sign_bit (x : spec_float) : bool :=
  match x with
  | S754_zero s | S754_infinity s | S754_finite s _ _ => s
  | S754_nan => false
  end.

(** Three rows at distance 2.5, and three rows at distance 0. *)
Definition two_and_a_half : spec_float := S754_finite false 10485760 (-22).

Definition uniform_table (v : spec_float) : Table :=
  mkTable [("text", StringArray ["a"; "b"; "c"]);
           ("_distance", FloatArray Float.binary32 [v; v; v])] 3.

(** ** What [np.argsort] promises, and a sort that keeps the promise *)

(** Entry [i] of an array of scores. *)
Definition score_at (scores : list spec_float) (i : nat) : spec_float :=
  nth i scores S754_nan.

Fixpoint nodupb (l : list nat) : bool :=
  match l with
  | [] => true
  | i :: l' => negb (existsb (Nat.eqb i) l') && nodupb l'
  end.

(** No index is followed, anywhere later, by the index of a smaller score. *)
Fixpoint ascendingb (scores : list spec_float) (idx : list nat) : bool :=
  match idx with
  | [] => true
  | i :: idx' =>
      forallb (fun j => negb (Float.less (score_at scores j) (score_at scores i)))
              idx'
      && ascendingb scores idx'
  end.

(** numpy's contract for [np.argsort(scores)]: a permutation of the
    positions that lists the scores in ascending order.  Nothing is
    promised about the order of equal scores. *)
Definition argsort_ok (scores : list spec_float) (idx : list nat) : bool :=
  (length idx =? length scores)%nat
  && forallb (fun i => (i <? length scores)%nat) idx
  && nodupb idx
  && ascendingb scores idx.

(** The rank the specification describes: one more than the number of
    smaller scores plus the number of equal scores in earlier rows. *)
Definition stable_rank (scores : list spec_float) (i : nat) : Z :=
  let x := score_at scores i in
  let smaller := filter (fun y => Float.less y x) scores in
  let equal_before :=
    filter (fun y => negb (Float.less y x) && negb (Float.less x y))
           (firstn i scores) in
  Z.of_nat (length smaller + length equal_before) + 1.

Definition stable_ranks (scores : list spec_float) : list Z :=
  map (stable_rank scores) (seq 0 (length scores)).

(** An argsort that keeps the promise without being stable: insertion
    sort of the positions in which an entry moves left past every score
    that is not smaller, so that equal scores end up listed from the last
    row to the first. *)
Module TiesLastFirst.

Fixpoint insert (scores : list spec_float) (i : nat) (sorted : list nat)
  : list nat :=
  match sorted with
  | [] => [i]
  | j :: sorted' =>
      if Float.less (score_at scores j) (score_at scores i)
      then j :: insert scores i sorted'
      else i :: sorted
  end.

Definition argsort (scores : list spec_float) : list nat :=
  fold_left (fun sorted i => insert scores i sorted)
    (seq 0 (length scores)) [].

End TiesLastFirst.

(** Four rows at distances 1, 2, 0, 0: the last two are tied. *)
Definition tied_scores : list spec_float := [f32 1; f32 2; f32 0; f32 0].

Definition tied_table : Table :=
  mkTable [("_distance", FloatArray Float.binary32 tied_scores)] 4.

(** The order [np.argsort], with its default kind, returns on the float32
    array 1, 2, 0, 0: the two tied rows come last row first. *)
Definition numpy_order_on_tied_scores : list nat := [3; 2; 0; 1]%nat.

(** Three rows with distinct distances, not in order. *)
Definition unsorted_table : Table :=
  mkTable [("text", StringArray ["a"; "b"; "c"]);
           ("_distance", FloatArray Float.binary32 [f32 4; f32 1; f32 2])] 3.

(** The contract as propositions. *)
Record argsort_facts (scores : list spec_float) (idx : list nat) : Prop := {
  af_length : length idx = length scores;
  af_bound : Forall (fun i => (i < length scores)%nat) idx;
  af_nodup : NoDup idx;
  af_perm : Permutation idx (seq 0 (length scores));
  af_ascending : forall p q, (p < q)%nat -> (q < length idx)%nat ->
      Float.less (score_at scores (nth q idx 0%nat))
                 (score_at scores (nth p idx 0%nat)) = false
}.

(** ** Score tables for the rescaling examples *)

(** 1 + 2^-20 in binary32. *)
Definition one_and_a_bit : spec_float := S754_finite false 8388616 (-23).

(** Two rows at distances 1 and 1 + 2^-20: different, yet close. *)
Definition close_table : Table :=
  mkTable [("_distance", FloatArray Float.binary32 [f32 1; one_and_a_bit])] 2.

(** The largest finite binary32 number. *)
Definition max_float32 : spec_float := S754_finite false 16777215 104.

(** Two rows at distances -max_float32 and max_float32. *)
Definition overflow_table : Table :=
  mkTable [("_distance",
            FloatArray Float.binary32 [SFopp max_float32; max_float32])] 2.

(** The scores of a column: finite numbers of the column's format. *)
Definition finite_scores (f : Float.format) (scores : list spec_float) : Prop :=
  Forall (fun x => Float.is_finite x = true /\ Float.valid f x = true) scores.

(** A number between 0 and 1, ends included. *)
Definition in_unit_interval (f : Float.format) (x : spec_float) : bool :=
  SFleb Float.zero x && SFleb x (Float.one f).

(** ** Rounding to nearest, as a relation between numbers and floats *)

Module IEEE.

(** [2 ^ e] as a rational. *)
Definition bpow (e : Z) : Q := Qpower 2 e.

(** The number [t] lies at location [l] above the integer [m]: on it,
    below, at, or above the midpoint to [m + 1]. *)
Definition located (t : Q) (m : Z) (l : location) : Prop :=
  match l with
  | loc_Exact => t == inject_Z m
  | loc_Inexact Lt => inject_Z m < t /\ t < inject_Z m + (1#2)
  | loc_Inexact Eq => t == inject_Z m + (1#2)
  | loc_Inexact Gt => inject_Z m + (1#2) < t /\ t < inject_Z m + 1
  end%Q.

Definition located_rec (t : Q) (mrs : shr_record) : Prop :=
  located t (shr_m mrs) (loc_of_shr_record mrs).

(** The value of a finite float; 0 for the others. *)
Definition B2Q (x : spec_float) : Q :=
  match x with
  | S754_finite s m e => inject_Z (cond_Zopp s (Z.pos m)) * bpow e
  | _ => 0
  end.

(** The value of a positive float with mantissa [m] and exponent [e]. *)
Definition mag (m : positive) (e : Z) : Q := inject_Z (Z.pos m) * bpow e.

Section Format.

Variables prec emax : Z.

(** [u] is ready to be rounded at exponent [E]: [m1] is its integer part
    in units of [2 ^ E], with at most [prec] digits, exactly [prec] of
    them unless [E] is the smallest exponent. *)
Definition ready (u : Q) (E m1 : Z) (l1 : location) : Prop :=
  located (u * bpow (- E)) m1 l1 /\
  (emin prec emax <= E)%Z /\
  (0 <= m1 < 2 ^ prec)%Z /\
  (E = emin prec emax \/ (2 ^ (prec - 1) <= m1)%Z).

(** The float with mantissa [r <= 2 ^ prec] and exponent [E]. *)
Definition float_of (r E : Z) : spec_float :=
  if (r =? 0)%Z then S754_zero false
  else if (r <? 2 ^ prec)%Z
       then if (E <=? emax - prec)%Z
            then S754_finite false (Z.to_pos r) E
            else S754_infinity false
       else if (E + 1 <=? emax - prec)%Z
            then S754_finite false (Z.to_pos (2 ^ (prec - 1))) (E + 1)
            else S754_infinity false.

(** The number 1. *)
Definition ONE : spec_float :=
  S754_finite false (Z.to_pos (2 ^ (prec - 1))) (1 - prec).

(** [x] is the float a number [u >= 0] rounds to. *)
Definition rounds_to (u : Q) (x : spec_float) : Prop :=
  exists E m1 l1,
    ready u E m1 l1 /\ x = float_of (round_nearest_even m1 l1) E.

End Format.

End IEEE.

Ltac qsolve :=
  repeat match goal with H : _ /\ _ |- _ => destruct H end;
  try split; lra.

(** ** Definitions for the builders' properties *)

(** A query vector with at least one entry, as the vector executor needs
    it: it looks at [vector[0]] before it builds the [Query]. *)
Definition nonempty_vector (q : PyQuery) : bool :=
  match q with
  | QList (_ :: _) | QNdarray (_ :: _) => true
  | _ => false
  end.

(** The string a raw query is, if it is one. *)
Definition as_str (q : PyQuery) : option string :=
  match q with QStr s => Some s | _ => None end.

(** What [limit] leaves in the builder. *)
Definition normalised_limit (l : option Z) : option Z :=
  match l with
  | Some z => if (0 <? z)%Z then Some z else None
  | None => None
  end.

(** The sample environment without duckdb: a [where] clause goes through
    a temporary lance dataset, whose filter keeps every row here. *)
Definition sample_env_without_duckdb : Environment :=
  mkEnvironment true false
    (fun p => String.eqb p sample_index_path)
    (fun _ _ _ => Ok ([2%N; 3%N; 4%N], [f64 3; f64 1; f64 2]))
    (fun _ _ _ => Raise (ImportError "No module named 'duckdb'"))
    (fun _ t => Ok t).

(** The rows of a full-text search before filtering: the taken rows and
    their scores. *)
Definition sample_fts_output : Table :=
  mkTable [("text", StringArray ["t"; "t"; "t"]);
           ("score", FloatArray Float.binary64 [f64 3; f64 1; f64 2])] 3.

(** ** Nesting depth of struct columns *)

(** How deep the structs of a column nest: 0 for a plain column, one more
    than the deepest child for a struct. *)
Fixpoint column_depth (c : Column) : nat :=
  match c with
  | Flat _ => 0%nat
  | Struct children =>
      S ((fix children_depth (l : list (string * Column)) : nat :=
            match l with
            | [] => 0%nat
            | child :: l' =>
                Nat.max (column_depth (snd child)) (children_depth l')
            end) children)
  end.

Fixpoint table_depth (tbl : StructTable) : nat :=
  match tbl with
  | [] => 0%nat
  | c :: tbl' => Nat.max (column_depth (snd c)) (table_depth tbl')
  end.

(** The arguments [to_pandas] refuses: [False] and the integers that are
    not positive. *)
Definition refused_flatten (arg : FlattenArg) : bool :=
  match arg with
  | FlattenBool false => true
  | FlattenInt n => (n <=? 0)%Z
  | _ => false
  end.

(** A table with a struct inside a struct. *)
Definition sample_struct_table : StructTable :=
  [("id", Flat (Int64Array [1%Z; 2%Z]));
   ("meta",
    Struct [("lang", Flat (StringArray ["en"; "de"]));
            ("geo", Struct [("lat", Flat (Int64Array [4%Z; 5%Z]));
                            ("lon", Flat (Int64Array [6%Z; 7%Z]))])])].

(** ** Runs of the rate-limited service *)

(** The test of [embed] for a new window: the time since the window
    started exceeds the time unit. *)
Definition window_elapsed (self : MockEmbeddingAPI) (now : spec_float)
  : bool :=
  SFltb (time_unit self)
    (Float.sub Float.binary64 now (window_start_time self)).

(** One call of [embed] per clock reading, on the same object. *)
Fixpoint embed_all (compute : string -> list spec_float)
    (self : MockEmbeddingAPI) (clock : list spec_float)
    (texts : list string) : MockEmbeddingAPI * list Response :=
  match clock with
  | [] => (self, [])
  | now :: clock' =>
      let (self1, r) := MockEmbeddingAPI_.embed compute self now texts in
      let (self2, rs) := embed_all compute self1 clock' texts in
      (self2, r :: rs)
  end.

(** How many of [n] calls in one window are served when [count] calls of
    the quota [limit] are used up. *)
Definition served_in_window (limit count : Z) (n : nat) : nat :=
  Z.to_nat (Z.max 0 (Z.min (limit - count) (Z.of_nat n))).

(** An embedding that ignores its text. *)
Definition constant_embedding (text : string) : list spec_float :=
  [f64 1; f64 0].

(** A table with a full-text index path and no embedding function. *)
Definition indexed_table : LanceTable :=
  mkLanceTable [] (Some sample_index_path)
    (fun _ => Ok sample_vector_results)
    (fun row_ids _ =>
       Ok (mkTable [("text", StringArray (map (fun _ => "t") row_ids))]
             (length row_ids)))
    (fun _ _ _ => Ok sample_vector_results).

(** The embedding branch of the resolver, once [create] has returned a
    vector builder. *)
Ltac via_embedding table col query H :=
  let conf := fresh "conf" in
  let Hg := fresh "Hg" in
  let Hc := fresh "Hc" in
  let emb := fresh "emb" in
  let rest := fresh "rest" in
  destruct (get (embedding_functions table) col) as [conf|] eqn:Hg;
    [|discriminate H];
  destruct (compute_query_embeddings_with_retry conf query)
    as [[|emb rest]|?] eqn:Hc; try discriminate H;
  simpl in H;
  destruct emb; try discriminate H; inversion H; subst;
  eexists; (split; [reflexivity|]); right;
  (split; [reflexivity|]); exists conf, rest;
  eexists; (split; [reflexivity|]); (split; [exact Hc|]);
  [left|right]; reflexivity.

(** * Properties *)

(** ** Results: a successful [bind] *)

Lemma bind_Ok_inv {A B : Type} (r : result A) (k : A -> result B) (b : B) :
  bind r k = Ok b -> exists a, r = Ok a /\ k a = Ok b.
Proof.
  destruct r as [a|e]; simpl; intros H; [eauto|discriminate].
Qed.

(** ** Zero-row tables *)

(** C9: on a table with zero rows, normalisation in score mode and in
    rank mode returns the table itself (same schema, zero rows) and raises
    nothing, whatever the column name and the flags. *)
Theorem normalize_zero_rows_identity :
  forall (np_argsort : list spec_float -> list nat) (results : Table)
         (column_ : string) (invert ascending : bool),
    len results = 0%nat ->
    _normalize_scores results column_ invert = Ok results /\
    _rank np_argsort results column_ ascending = Ok results.
Proof.
  intros np_argsort results column_ invert ascending Hlen.
  unfold _normalize_scores, _rank.
  rewrite Hlen. simpl. split; reflexivity.
Qed.

Lemma normalize_zero_rows_identity_witness :
  len empty_score_table = 0%nat /\
  _normalize_scores empty_score_table "score" false = Ok empty_score_table /\
  _rank (fun _ => []) empty_score_table "score" true = Ok empty_score_table.
Proof.
  split; [reflexivity|].
  apply (normalize_zero_rows_identity (fun _ => []) empty_score_table
           "score" false true).
  reflexivity.
Defined.

(** ** Query resolution *)

(** C5: with mode [auto], a list or a numeric array resolves to [vector]
    with the query unchanged; a tuple resolves to [hybrid]; a string
    resolves to [vector], carrying the first embedding the bound function
    computes, when an embedding function is bound to the vector column,
    and to [fts] with the query unchanged when none is. *)
Theorem resolve_query_auto :
  forall (table : LanceTable) (vector_column_name : string),
    (forall v, LanceQueryBuilder_._resolve_query table (QList v) qt_auto
                 vector_column_name = Ok (QList v, qt_vector)) /\
    (forall v, LanceQueryBuilder_._resolve_query table (QNdarray v) qt_auto
                 vector_column_name = Ok (QNdarray v, qt_vector)) /\
    (forall items, LanceQueryBuilder_._resolve_query table (QTuple items)
                     qt_auto vector_column_name
                   = Ok (QTuple items, qt_hybrid)) /\
    (forall s, LanceQueryBuilder_._resolve_query table (QStr s) qt_auto
                 vector_column_name
               = match get (embedding_functions table) vector_column_name with
                 | Some conf =>
                     match compute_query_embeddings_with_retry conf (QStr s) with
                     | Ok (emb :: _) => Ok (emb, qt_vector)
                     | Ok [] => Raise (IndexError "list index out of range")
                     | Raise e => Raise e
                     end
                 | None => Ok (QStr s, qt_fts)
                 end).
Proof.
  intros table vector_column_name.
  repeat split; intros; try reflexivity.
  unfold LanceQueryBuilder_._resolve_query. simpl.
  destruct (get (embedding_functions table) vector_column_name) as [conf|];
    [|reflexivity].
  destruct (compute_query_embeddings_with_retry conf (QStr s)) as [[|emb embs]|e];
    reflexivity.
Qed.

(** C6: every hybrid query construction.  A raw query that is neither a
    string nor a pair (vector-like, string) is refused with a
    [ValueError], by [_validate_query] and hence by the constructor,
    whatever the table.  A string is taken for both sub-queries and a
    valid pair is split, by [_validate_query] and in the builder the
    constructor returns: whenever the constructor returns a builder, its
    full-text sub-query is a fresh full-text builder for the text (the
    string itself, or the second element of the pair) and its vector
    sub-query is a fresh vector builder for the vector the table makes of
    the vector part (the string itself, or the first element of the
    pair); and on a table that reports an index path the constructor does
    return that builder as soon as the vector part can be made a
    vector. *)
Theorem validate_query_hybrid :
  (forall s, LanceHybridQueryBuilder_._validate_query (QStr s)
             = Ok (QStr s, QStr s)) /\
  (forall q0 s, is_vec q0 = true ->
     LanceHybridQueryBuilder_._validate_query (QTuple [q0; QStr s])
     = Ok (q0, QStr s)) /\
  (forall q, invalid_hybrid_query q = true ->
     (exists msg, LanceHybridQueryBuilder_._validate_query q
                  = Raise (ValueError msg)) /\
     (forall default_reranker table vector_column,
        exists msg, LanceHybridQueryBuilder_.__init__ default_reranker table
                      q vector_column = Raise (ValueError msg))) /\
  (forall default_reranker table query vector_column b,
     LanceHybridQueryBuilder_.__init__ default_reranker table query
       vector_column = Ok b ->
     exists vector_part s vector,
       (query = QStr s /\ vector_part = QStr s \/
        query = QTuple [vector_part; QStr s] /\ is_vec vector_part = true) /\
       LanceQueryBuilder_._query_to_vector table vector_part vector_column
       = Ok vector /\
       _fts_query b = LanceFtsQueryBuilder_.__init__ table s /\
       _vector_query b
       = LanceVectorQueryBuilder_.__init__ table vector vector_column None /\
       fq_query (_fts_query b) = s /\
       vq_query (_vector_query b) = vector) /\
  (forall default_reranker table query vector_column index_path
          vector_part s vector,
     _get_fts_index_path table = Some index_path ->
     query = QStr s /\ vector_part = QStr s \/
     query = QTuple [vector_part; QStr s] /\ is_vec vector_part = true ->
     LanceQueryBuilder_._query_to_vector table vector_part vector_column
     = Ok vector ->
     LanceHybridQueryBuilder_.__init__ default_reranker table query
       vector_column
     = Ok (mkLanceHybridQueryBuilder (LanceQueryBuilder_.__init__ table)
             (LanceFtsQueryBuilder_.__init__ table s)
             (LanceVectorQueryBuilder_.__init__ table vector vector_column
                None)
             "score" default_reranker)).
Proof.
  split; [reflexivity|]. split; [|split; [|split]].
  - intros q0 s Hvec. simpl. rewrite Hvec. reflexivity.
  - intros q Hbad.
    assert (Hv : exists msg, LanceHybridQueryBuilder_._validate_query q
                             = Raise (ValueError msg)).
    { destruct q as [s|v|v|v|v|items|r]; simpl in Hbad; try discriminate;
        try (eexists; reflexivity).
      destruct items as [|q0 [|q1 [|q2 items]]]; try (eexists; reflexivity).
      simpl. destruct (is_vec q0); simpl in *.
      - destruct (is_str q1); simpl in *; [discriminate|eexists; reflexivity].
      - eexists; reflexivity. }
    split; [exact Hv|].
    intros default_reranker table vector_column.
    unfold LanceHybridQueryBuilder_.__init__.
    destruct (LanceHybridQueryBuilder_._validate_fts_index table) as [[]|e] eqn:Hidx.
    + destruct Hv as [msg Hv]. simpl. rewrite Hv. simpl. eexists; reflexivity.
    + unfold LanceHybridQueryBuilder_._validate_fts_index in Hidx.
      destruct (_get_fts_index_path table); [discriminate|].
      inversion Hidx; subst. simpl. eexists; reflexivity.
  - intros default_reranker table query vector_column b Hb.
    unfold LanceHybridQueryBuilder_.__init__ in Hb.
    apply bind_Ok_inv in Hb. destruct Hb as [u [_ Hb]].
    apply bind_Ok_inv in Hb. destruct Hb as [[vq fq] [Hval Hb]].
    apply bind_Ok_inv in Hb. destruct Hb as [vector [Hvec Hb]].
    inversion Hb; subst b; clear Hb. cbn [_fts_query _vector_query].
    assert (Hshape : exists s,
              fq = QStr s /\
              (query = QStr s /\ vq = QStr s \/
               query = QTuple [vq; QStr s] /\ is_vec vq = true)).
    { destruct query as [s|v|v|v|v|items|r]; simpl in Hval;
        try discriminate.
      - inversion Hval; subst. exists s. split; [reflexivity|].
        left; split; reflexivity.
      - destruct items as [|q0 [|q1 [|q2 items]]]; simpl in Hval;
          try discriminate.
        destruct (is_vec q0) eqn:E0; simpl in Hval; [|discriminate].
        destruct q1 as [s| | | | | |]; simpl in Hval; try discriminate.
        inversion Hval; subst. exists s. split; [reflexivity|].
        right; split; [reflexivity|exact E0]. }
    destruct Hshape as [s [-> Hshape]].
    exists vq, s, vector.
    split; [exact Hshape|]. split; [exact Hvec|].
    repeat split; reflexivity.
  - intros default_reranker table query vector_column index_path
      vector_part s vector Hpath Hshape Hvec.
    unfold LanceHybridQueryBuilder_.__init__,
      LanceHybridQueryBuilder_._validate_fts_index.
    rewrite Hpath. cbn [bind].
    destruct Hshape as [[-> ->]|[-> Hv]].
    + cbn [LanceHybridQueryBuilder_._validate_query bind].
      rewrite Hvec. reflexivity.
    + simpl. rewrite Hv. simpl. rewrite Hvec. reflexivity.
Qed.

Lemma validate_query_hybrid_witness :
  LanceHybridQueryBuilder_._validate_query
    (QTuple [QList [Float.one Float.binary32]; QStr "hello"])
  = Ok (QList [Float.one Float.binary32], QStr "hello") /\
  (exists msg, LanceHybridQueryBuilder_._validate_query (QTuple [QStr "hello"])
               = Raise (ValueError msg)) /\
  LanceHybridQueryBuilder_.__init__ keep_vector_reranker sample_table
    (QTuple [QList [Float.one Float.binary32]; QStr "hello"]) "vector"
  = Ok (mkLanceHybridQueryBuilder (LanceQueryBuilder_.__init__ sample_table)
          (LanceFtsQueryBuilder_.__init__ sample_table "hello")
          (LanceVectorQueryBuilder_.__init__ sample_table
             (QList [Float.one Float.binary32]) "vector" None)
          "score" keep_vector_reranker) /\
  (exists vector,
     LanceQueryBuilder_._query_to_vector sample_table (QStr "hello") "vector"
     = Ok vector /\
     vq_query (_vector_query sample_hybrid) = vector /\
     fq_query (_fts_query sample_hybrid) = "hello").
Proof.
  destruct validate_query_hybrid as [_ [Hpair [Hbad [Hbuilt Hmakes]]]].
  split; [apply Hpair; reflexivity|].
  split; [apply (Hbad (QTuple [QStr "hello"])); reflexivity|].
  split.
  - apply (Hmakes keep_vector_reranker sample_table _ "vector"
             sample_index_path (QList [Float.one Float.binary32]) "hello"
             (QList [Float.one Float.binary32]));
      [reflexivity|right; split; reflexivity|reflexivity].
  - destruct (Hbuilt keep_vector_reranker sample_table (QStr "hello")
                "vector" sample_hybrid eq_refl)
      as [vp [s [vector [Hshape [Hvec [_ [_ [Hs Hq]]]]]]]].
    destruct Hshape as [[Es Ev]|[Et _]]; [|discriminate Et].
    injection Es as Es'. rewrite Ev, <- Es' in Hvec. exists vector.
    split; [exact Hvec|]. split; [exact Hq|].
    rewrite Hs. symmetry. exact Es'.
Defined.

(** ** Results and tables: basic facts *)

Lemma slice_num_rows (t : Table) (z : Z) :
  num_rows (slice t (Some z)) = Nat.min (Z.to_nat z) (num_rows t).
Proof. reflexivity. Qed.

Lemma slice_num_rows_le (t : Table) (z : Z) :
  (0 < z)%Z -> (Z.of_nat (num_rows (slice t (Some z))) <= z)%Z.
Proof. intros Hz. rewrite slice_num_rows. lia. Qed.

Lemma drop_num_rows (t t' : Table) (names : list string) :
  drop t names = Ok t' -> num_rows t' = num_rows t.
Proof.
  unfold drop.
  destruct (filter _ names); [|discriminate].
  intros H; inversion H; reflexivity.
Qed.

(** ** The hybrid executor's limit *)

(** C1: a hybrid builder starts with limit 10; whenever a hybrid execution
    with a positive limit [k] returns a table, that table is the reranked
    table cut down to its first [k] rows (with the row-id column dropped
    unless asked for), so it has at most [k] rows however many rows the
    reranker produced. *)
Theorem hybrid_to_arrow_limit :
  forall (np_argsort : list spec_float -> list nat) (env : Environment)
         (self : LanceHybridQueryBuilder) (k : Z) (t : Table),
    _limit (hq_base self) = Some k ->
    (0 < k)%Z ->
    LanceHybridQueryBuilder_.to_arrow np_argsort env self = Ok t ->
    (Z.of_nat (num_rows t) <= k)%Z /\
    (exists query vector_results fts_results reranked,
       rerank_hybrid (_reranker self) query vector_results fts_results
         = Ok (PyTable reranked) /\
       num_rows t = Nat.min (Z.to_nat k) (num_rows reranked) /\
       (if _with_row_id (hq_base self)
        then t = slice reranked (Some k)
        else drop (slice reranked (Some k)) ["_rowid"] = Ok t)) /\
    (forall default_reranker table query vector_column b,
       LanceHybridQueryBuilder_.__init__ default_reranker table query
         vector_column = Ok b ->
       _limit (hq_base b) = Some 10%Z).
Proof.
  intros np_argsort env self k t Hk Hpos Hrun.
  assert (Hinit : forall default_reranker table query vector_column b,
       LanceHybridQueryBuilder_.__init__ default_reranker table query
         vector_column = Ok b ->
       _limit (hq_base b) = Some 10%Z).
  { intros dr table query vc b Hb.
    unfold LanceHybridQueryBuilder_.__init__ in Hb.
    apply bind_Ok_inv in Hb. destruct Hb as [u [_ Hb]].
    apply bind_Ok_inv in Hb. destruct Hb as [[vq fq] [_ Hb]].
    apply bind_Ok_inv in Hb. destruct Hb as [vq' [_ Hb]].
    inversion Hb; reflexivity. }
  unfold LanceHybridQueryBuilder_.to_arrow in Hrun.
  apply bind_Ok_inv in Hrun. destruct Hrun as [[fts0 vec0] [_ Hrun]].
  apply bind_Ok_inv in Hrun. destruct Hrun as [[vec1 fts1] [_ Hrun]].
  apply bind_Ok_inv in Hrun. destruct Hrun as [vec2 [_ Hrun]].
  apply bind_Ok_inv in Hrun. destruct Hrun as [fts2 [_ Hrun]].
  apply bind_Ok_inv in Hrun. destruct Hrun as [res [Hrr Hrun]].
  destruct res as [reranked|r]; [|discriminate].
  rewrite Hk in Hrun.
  assert (Hrows : num_rows t = Nat.min (Z.to_nat k) (num_rows reranked)).
  { destruct (_with_row_id (hq_base self)); simpl in Hrun.
    - inversion Hrun; reflexivity.
    - apply drop_num_rows in Hrun. rewrite Hrun. apply slice_num_rows. }
  split; [rewrite Hrows; lia|].
  split; [|exact Hinit].
  exists (fq_query (_fts_query self)), vec2, fts2, reranked.
  split; [exact Hrr|]. split; [exact Hrows|].
  destruct (_with_row_id (hq_base self)); simpl in Hrun.
  - inversion Hrun; reflexivity.
  - exact Hrun.
Qed.

(** Three candidates on each side, limit 2: two rows come back. *)
Lemma hybrid_to_arrow_limit_witness :
  exists t,
    LanceHybridQueryBuilder_.to_arrow identity_argsort (sample_env true)
      (LanceHybridQueryBuilder_.limit sample_hybrid (Some 2%Z)) = Ok t /\
    num_rows t = 2%nat /\
    (Z.of_nat (num_rows t) <= 2)%Z.
Proof.
  eexists. split; [vm_compute; reflexivity|]. split; [reflexivity|].
  refine (proj1 (hybrid_to_arrow_limit identity_argsort (sample_env true)
           (LanceHybridQueryBuilder_.limit sample_hybrid (Some 2%Z)) 2 _
           eq_refl _ _)).
  - lia.
  - vm_compute; reflexivity.
Defined.

(** ** The full-text executor *)

(** C10: when the index search yields no row id, the full-text executor
    returns the empty table whose schema is the single [float32] column
    [score], whatever projection, filter, reranker or row-id flag the
    builder carries. *)
Theorem fts_to_arrow_no_match :
  forall (env : Environment) (self : LanceFtsQueryBuilder)
         (index_path : string) (scores : list spec_float),
    tantivy_installed env = true ->
    _get_fts_index_path (_table (fq_base self)) = Some index_path ->
    path_exists env index_path = true ->
    search_index env index_path (LanceFtsQueryBuilder_.search_text self)
      (_limit (fq_base self)) = Ok ([], scores) ->
    exists t,
      LanceFtsQueryBuilder_.to_arrow env self = Ok t /\
      schema t = [("score", float32)] /\
      num_rows t = 0%nat.
Proof.
  intros env self index_path scores Htan Hpath Hex Hsearch.
  exists empty_score_table.
  split; [|split; reflexivity].
  unfold LanceFtsQueryBuilder_.to_arrow.
  rewrite Htan, Hpath, Hex. simpl.
  rewrite Hsearch. reflexivity.
Qed.

Lemma fts_to_arrow_no_match_witness :
  _with_row_id (fq_base sample_fts_with_row_id) = true /\
  _columns (fq_base sample_fts_with_row_id) = Some (ColumnList ["text"]) /\
  exists t,
    LanceFtsQueryBuilder_.to_arrow no_match_env sample_fts_with_row_id = Ok t /\
    schema t = [("score", float32)] /\
    num_rows t = 0%nat.
Proof.
  split; [reflexivity|]. split; [reflexivity|].
  apply (fts_to_arrow_no_match no_match_env sample_fts_with_row_id
           sample_index_path []); reflexivity.
Defined.

(** A full-text query whose index is absent never returns a table: it
    raises (a missing package, a missing path, or the file-not-found
    error of the existence check). *)
Lemma fts_to_arrow_absent_index_raises :
  forall (env : Environment) (self : LanceFtsQueryBuilder),
    fts_index_absent env (_table (fq_base self)) ->
    exists e, LanceFtsQueryBuilder_.to_arrow env self = Raise e.
Proof.
  intros env self Habs.
  unfold fts_index_absent in Habs.
  unfold LanceFtsQueryBuilder_.to_arrow.
  destruct (tantivy_installed env); simpl; [|eexists; reflexivity].
  destruct (_get_fts_index_path (_table (fq_base self))) as [p|];
    [|eexists; reflexivity].
  rewrite Habs. simpl. eexists; reflexivity.
Qed.

(** ** The hybrid constructor and a missing full-text index *)

(** C7 (the code departs from the claim): on the sample table, whose
    full-text index was never built (nothing exists at its index path), the
    hybrid constructor succeeds; the missing index is only met when the
    full-text sub-query runs, inside [to_arrow], as a file-not-found error.
    The full-text executor on its own does refuse the missing index. *)
Theorem hybrid_init_accepts_missing_index :
  fts_index_absent (sample_env false) sample_table /\
  LanceHybridQueryBuilder_.__init__ keep_vector_reranker sample_table
    (QStr "hello") "vector" = Ok sample_hybrid /\
  LanceHybridQueryBuilder_.to_arrow identity_argsort (sample_env false)
    sample_hybrid = Raise (FileNotFoundError "Fts index does not exist.") /\
  LanceFtsQueryBuilder_.to_arrow (sample_env false)
    (LanceFtsQueryBuilder_.__init__ sample_table "hello")
  = Raise (FileNotFoundError "Fts index does not exist.").
Proof.
  repeat split; vm_compute; reflexivity.
Qed.

(** The constructor's index check looks at the reported path only. *)
Lemma validate_fts_index_ignores_file_system :
  forall (table : LanceTable) (index_path : string),
    _get_fts_index_path table = Some index_path ->
    LanceHybridQueryBuilder_._validate_fts_index table = Ok tt.
Proof.
  intros table index_path H.
  unfold LanceHybridQueryBuilder_._validate_fts_index. rewrite H. reflexivity.
Qed.

(** ** Removing the limit *)

(** The base builder's [limit] stores [None] for [None], zero and negative
    values, and the value itself when it is positive. *)
Lemma base_limit_normalises :
  forall (self : LanceQueryBuilder) (l : option Z),
    _limit (LanceQueryBuilder_.limit self l)
    = match l with
      | None => None
      | Some z => if (z <=? 0)%Z then None else Some z
      end.
Proof.
  intros self [z|]; simpl; [|reflexivity].
  destruct (z <=? 0)%Z; reflexivity.
Qed.

(** C8 (the code departs from the claim): after [limit(0)] a hybrid
    builder keeps the raw 0 as its own limit while its sub-builders hold
    [None]; the final slice of length 0 keeps no row of any reranked table,
    and the execution itself never returns a table: if the full-text
    sub-query succeeds, the vector sub-query fails building its [Query],
    whose [k] must be an integer. *)
Theorem hybrid_limit_zero_not_unbounded :
  forall (np_argsort : list spec_float -> list nat) (env : Environment)
         (self : LanceHybridQueryBuilder),
    let self' := LanceHybridQueryBuilder_.limit self (Some 0%Z) in
    _limit (hq_base self') = Some 0%Z /\
    _limit (vq_base (_vector_query self')) = None /\
    _limit (fq_base (_fts_query self')) = None /\
    (forall reranked, num_rows (slice reranked (_limit (hq_base self'))) = 0%nat) /\
    (exists e, LanceHybridQueryBuilder_.to_arrow np_argsort env self' = Raise e).
Proof.
  intros np_argsort env self self'.
  repeat split.
  unfold LanceHybridQueryBuilder_.to_arrow, LanceHybridQueryBuilder_.dispatch.
  destruct (LanceFtsQueryBuilder_.to_arrow env _) as [fts|e];
    simpl; eexists; reflexivity.
Qed.

(** ** Floating-point facts used by the normaliser *)

Module FloatFacts.

Import Float FloatSpec.

Lemma shr_1_nonneg (mrs : shr_record) :
  (0 <= shr_m mrs)%Z -> (0 <= shr_m (shr_1 mrs))%Z.
Proof.
  destruct mrs as [m r s]; simpl.
  destruct m as [|p|p]; simpl; try lia.
  destruct p; simpl; lia.
Qed.

Lemma iter_pos_shr_1_nonneg (p : positive) :
  forall mrs, (0 <= shr_m mrs)%Z -> (0 <= shr_m (SpecFloat.iter_pos shr_1 p mrs))%Z.
Proof.
  induction p as [p IH|p IH|]; intros mrs H; simpl.
  - apply IH, IH, shr_1_nonneg, H.
  - apply IH, IH, H.
  - apply shr_1_nonneg, H.
Qed.

Lemma shr_fexp_nonneg (prec emax m e : Z) (l : location) :
  (0 <= m)%Z -> (0 <= shr_m (fst (shr_fexp prec emax m e l)))%Z.
Proof.
  intros H. unfold shr_fexp, shr.
  assert (H0 : (0 <= shr_m (shr_record_of_loc m l))%Z)
    by (destruct l as [|[]]; simpl; exact H).
  destruct (fexp prec emax (Zdigits2 m + e) - e)%Z; simpl; auto.
  apply iter_pos_shr_1_nonneg, H0.
Qed.

Lemma round_nearest_even_nonneg (m : Z) (l : location) :
  (0 <= m)%Z -> (0 <= round_nearest_even m l)%Z.
Proof.
  intros H. destruct l as [|[]]; simpl; try lia.
  destruct (Z.even m); lia.
Qed.

Lemma binary_round_aux_sign (prec emax : Z) (s : bool) (m e : Z)
    (l : location) :
  (0 <= m)%Z -> has_sign s (binary_round_aux prec emax s m e l).
Proof.
  intros H. unfold binary_round_aux.
  pose proof (shr_fexp_nonneg prec emax m e l H) as H1.
  destruct (shr_fexp prec emax m e l) as [mrs' e']. simpl in H1.
  pose proof (shr_fexp_nonneg prec emax
                (round_nearest_even (shr_m mrs') (loc_of_shr_record mrs'))
                e' loc_Exact
                (round_nearest_even_nonneg _ _ H1)) as H2.
  destruct (shr_fexp prec emax _ e' loc_Exact) as [mrs'' e'']. simpl in H2.
  destruct (shr_m mrs'') as [|p|p]; simpl; try reflexivity; try lia.
  destruct (e'' <=? emax - prec)%Z; reflexivity.
Qed.

Lemma binary_round_sign (prec emax : Z) (s : bool) (m : positive) (e : Z) :
  has_sign s (binary_round prec emax s m e).
Proof.
  unfold binary_round.
  destruct (shl_align m e _) as [mz ez].
  apply binary_round_aux_sign. lia.
Qed.

Lemma has_sign_false_nonneg (x : spec_float) :
  has_sign false x -> nonneg x = true.
Proof. destruct x; simpl; intros H; subst; auto; contradiction. Qed.

Lemma mul_nonneg (f : format) (x y : spec_float) :
  has_sign false x -> has_sign false y -> is_finite x = true ->
  is_finite y = true -> has_sign false (mul f x y).
Proof.
  unfold mul.
  destruct x as [sx|sx| |sx mx ex], y as [sy|sy| |sy my ey];
    simpl; intros Hx Hy Fx Fy; subst; try reflexivity; try discriminate;
    try contradiction.
  apply binary_round_aux_sign. lia.
Qed.

Lemma leb_zero_nonneg (s : bool) (x : spec_float) :
  nonneg x = true -> SFleb (S754_zero s) x = true.
Proof.
  destruct x as [sx|sx| |sx mx ex]; simpl; try discriminate;
    destruct sx; simpl; try discriminate; reflexivity.
Qed.

(** The tolerances are positive finite numbers of their format. *)
Lemma atol_pos (f : format) :
  exists m e, atol f = S754_finite false m e.
Proof. destruct f; vm_compute; eauto. Qed.

Lemma rtol_pos (f : format) :
  exists m e, rtol f = S754_finite false m e.
Proof. destruct f; vm_compute; eauto. Qed.

(** [atol + rtol * abs(b)] is never NaN and never negative. *)
Lemma tolerance_nonneg (f : format) (b : spec_float) :
  is_finite b = true ->
  nonneg (add f (atol f) (mul f (rtol f) (SFabs b))) = true.
Proof.
  intros Hb.
  destruct (atol_pos f) as [ma [ea Ha]], (rtol_pos f) as [mr [er Hr]].
  rewrite Ha, Hr.
  assert (Hm : has_sign false (mul f (S754_finite false mr er) (SFabs b))).
  { apply mul_nonneg; try reflexivity; destruct b; simpl in *; auto;
      discriminate. }
  apply has_sign_false_nonneg.
  unfold add.
  destruct (mul f (S754_finite false mr er) (SFabs b)) as [s|s| |s m e];
    simpl in *; subst; try reflexivity; try contradiction.
  unfold binary_normalize.
  destruct (Z.pos (fst (shl_align ma ea (Z.min ea e)))
            + Z.pos (fst (shl_align m e (Z.min ea e))))%Z eqn:E; try lia.
  apply binary_round_sign.
Qed.

(** [x - x] is [+0] for every finite [x]. *)
Lemma sub_self (f : format) (x : spec_float) :
  is_finite x = true -> sub f x x = S754_zero false.
Proof.
  destruct x as [s|s| |s m e]; simpl; try discriminate; intros _.
  - destruct s; reflexivity.
  - unfold sub, SFsub.
    rewrite Z.sub_diag. reflexivity.
Qed.

Lemma isclose_refl (f : format) (v : spec_float) :
  is_finite v = true -> isclose f v v = true.
Proof.
  intros Hv. unfold isclose. rewrite Hv. simpl.
  rewrite (sub_self f v Hv). simpl.
  apply leb_zero_nonneg, tolerance_nonneg, Hv.
Qed.

Lemma maximum_self (v : spec_float) : maximum v v = v.
Proof. unfold maximum. destruct (_ || _); reflexivity. Qed.

Lemma minimum_self (v : spec_float) : minimum v v = v.
Proof. unfold minimum. destruct (_ || _); reflexivity. Qed.

Lemma max_repeat (v : spec_float) (n : nat) : max (repeat v (S n)) = v.
Proof.
  simpl. induction n as [|n IH]; simpl; [reflexivity|].
  rewrite maximum_self. exact IH.
Qed.

Lemma min_repeat (v : spec_float) (n : nat) : min (repeat v (S n)) = v.
Proof.
  simpl. induction n as [|n IH]; simpl; [reflexivity|].
  rewrite minimum_self. exact IH.
Qed.

End FloatFacts.

(** ** Looking a column up *)

Lemma filter_singleton_index (name : string) (c : string * Array) :
  forall cs : list (string * Array),
    filter (fun c' => String.eqb (fst c') name) cs = [c] ->
    exists i, index (map fst cs) name = Ok i /\
              nth_error cs i = Some c /\ fst c = name.
Proof.
  induction cs as [|c0 cs IH]; simpl; [discriminate|].
  destruct (String.eqb (fst c0) name) eqn:E.
  - intros H. inversion H; subst. exists 0%nat.
    apply String.eqb_eq in E. auto.
  - intros H. destruct (IH H) as [i [Hi [Hn Hc]]].
    exists (S i). rewrite Hi. auto.
Qed.

Lemma column_index (t : Table) (name : string) (a : Array) :
  column t name = Ok a ->
  exists i, index (column_names t) name = Ok i /\
            nth_error (columns t) i = Some (name, a).
Proof.
  unfold column, column_names.
  destruct (filter _ (columns t)) as [|c [|c' l]] eqn:E; try discriminate.
  intros H. inversion H; subst.
  destruct (filter_singleton_index name c (columns t) E) as [i [Hi [Hn Hc]]].
  exists i. split; [exact Hi|].
  rewrite Hn. destruct c; simpl in *; subst; reflexivity.
Qed.

Lemma column_length (t : Table) (name : string) (a : Array) :
  table_wf t -> column t name = Ok a -> array_length a = num_rows t.
Proof.
  intros Hwf Hc. destruct (column_index t name a Hc) as [i [_ Hn]].
  apply nth_error_In in Hn.
  unfold table_wf in Hwf. rewrite Forall_forall in Hwf.
  apply (Hwf _ Hn).
Qed.

Lemma set_column_scores (t : Table) (i : nat) (name : string) (a : Array)
    (scores : list spec_float) :
  nth_error (columns t) i = Some (name, a) ->
  length scores = num_rows t ->
  set_column t i name (FloatArray Float.binary32 scores)
  = Ok (with_scores t i name scores).
Proof.
  intros Hn Hl. unfold set_column.
  assert (Hi : (i < length (columns t))%nat)
    by (apply nth_error_Some; rewrite Hn; discriminate).
  apply Nat.ltb_lt in Hi. rewrite Hi. simpl.
  rewrite Hl, Nat.eqb_refl. reflexivity.
Qed.

(** What [_normalize_scores] computes on a non-empty table whose score
    column is a floating column. *)
Lemma normalize_scores_unfold (results : Table) (column_ : string)
    (f : Float.format) (scores : list spec_float) :
  table_wf results ->
  num_rows results <> 0%nat ->
  column results column_ = Ok (FloatArray f scores) ->
  exists i,
    index (column_names results) column_ = Ok i /\
    nth_error (columns results) i = Some (column_, FloatArray f scores) /\
    _normalize_scores results column_ false
    = Ok (with_scores results i column_
            (map (fun x =>
                    astype f Float.binary32
                      (Float.div f (Float.sub f x (Float.min scores))
                         (if Float.isclose f (Float.max scores) (Float.min scores)
                          then Float.max scores
                          else Float.sub f (Float.max scores) (Float.min scores))))
                 scores)).
Proof.
  intros Hwf Hrows Hcol.
  destruct (column_index results column_ _ Hcol) as [i [Hi Hn]].
  exists i. split; [exact Hi|]. split; [exact Hn|].
  unfold _normalize_scores, len.
  apply Nat.eqb_neq in Hrows. rewrite Hrows.
  rewrite Hcol. simpl. rewrite Hi. simpl.
  rewrite map_map.
  apply (set_column_scores results i column_ (FloatArray f scores)); [exact Hn|].
  rewrite length_map.
  apply (column_length results column_ _ Hwf Hcol).
Qed.

(** ** Uniform scores *)

(** C2: on a table with at least one row whose score column holds one
    value [v] throughout, score-mode normalisation takes [max] (that is
    [v]) as the range, raises nothing, and writes one constant [c] in every
    row: a zero when [v] is a finite non-zero number, and NaN when [v] is
    zero (0/0), infinite or NaN. *)
Theorem normalize_uniform_scores :
  forall (results : Table) (column_ : string) (f : Float.format)
         (v : spec_float) (n : nat),
    table_wf results ->
    column results column_ = Ok (FloatArray f (repeat v (S n))) ->
    exists i c,
      index (column_names results) column_ = Ok i /\
      _normalize_scores results column_ false
      = Ok (with_scores results i column_ (repeat c (S n))) /\
      (Float.is_finite v = true ->
         Float.isclose f (Float.max (repeat v (S n))) (Float.min (repeat v (S n)))
         = true /\
         c = astype f Float.binary32 (Float.div f (Float.sub f v v) v)) /\
      (Float.is_finite v = true -> Float.is_zero v = false ->
         c = S754_zero (sign_bit v)) /\
      (Float.is_zero v = true -> c = S754_nan) /\
      (Float.is_finite v = false -> c = S754_nan).
Proof.
  intros results column_ f v n Hwf Hcol.
  assert (Hrows : num_rows results <> 0%nat).
  { rewrite <- (column_length results column_ _ Hwf Hcol). simpl. lia. }
  destruct (normalize_scores_unfold results column_ f _ Hwf Hrows Hcol)
    as [i [Hi [Hn Hrun]]].
  rewrite FloatFacts.max_repeat, FloatFacts.min_repeat in Hrun.
  set (rng := if Float.isclose f v v then v else Float.sub f v v) in Hrun.
  exists i, (astype f Float.binary32 (Float.div f (Float.sub f v v) rng)).
  split; [exact Hi|]. split.
  { rewrite Hrun. f_equal. f_equal.
    generalize (S n). intros k. induction k as [|k IH]; simpl; [reflexivity|].
    rewrite IH. reflexivity. }
  rewrite FloatFacts.max_repeat, FloatFacts.min_repeat.
  assert (Hfin : Float.is_finite v = true -> rng = v).
  { intros Hv. unfold rng. rewrite (FloatFacts.isclose_refl f v Hv).
    reflexivity. }
  split; [|split; [|split]].
  - intros Hv. split; [apply FloatFacts.isclose_refl, Hv|].
    rewrite (Hfin Hv). reflexivity.
  - intros Hv Hz. rewrite (Hfin Hv), (FloatFacts.sub_self f v Hv).
    destruct v as [s|s| |s m e]; simpl in *; try discriminate.
    unfold astype. destruct (Float.format_eqb f Float.binary32); reflexivity.
  - intros Hz. destruct v as [s|s| |s m e]; simpl in Hz; try discriminate.
    rewrite (Hfin eq_refl), (FloatFacts.sub_self f (S754_zero s) eq_refl).
    unfold astype. destruct (Float.format_eqb f Float.binary32); reflexivity.
  - intros Hv. unfold rng.
    destruct v as [s|s| |s m e]; simpl in Hv; try discriminate.
    + unfold Float.isclose. simpl.
      destruct s; simpl; unfold astype;
        destruct (Float.format_eqb f Float.binary32); reflexivity.
    + unfold Float.isclose. simpl. unfold astype.
      destruct (Float.format_eqb f Float.binary32); reflexivity.
Qed.

Lemma normalize_uniform_scores_witness :
  table_wf (uniform_table two_and_a_half) /\
  _normalize_scores (uniform_table two_and_a_half) "_distance" false
  = Ok (with_scores (uniform_table two_and_a_half) 1 "_distance"
          (repeat (S754_zero false) 3)) /\
  _normalize_scores (uniform_table Float.zero) "_distance" false
  = Ok (with_scores (uniform_table Float.zero) 1 "_distance"
          (repeat S754_nan 3)).
Proof.
  assert (Hwf : forall v, table_wf (uniform_table v))
    by (intros v; repeat constructor).
  split; [apply Hwf|]. split.
  - destruct (normalize_uniform_scores (uniform_table two_and_a_half)
                "_distance" Float.binary32 two_and_a_half 2 (Hwf _) eq_refl)
      as [i [c [Hi [Hrun [_ [Hc _]]]]]].
    rewrite Hrun. rewrite (Hc eq_refl eq_refl).
    inversion Hi. reflexivity.
  - destruct (normalize_uniform_scores (uniform_table Float.zero)
                "_distance" Float.binary32 Float.zero 2 (Hwf _) eq_refl)
      as [i [c [Hi [Hrun [_ [_ [Hc _]]]]]]].
    rewrite Hrun. rewrite (Hc eq_refl).
    inversion Hi. reflexivity.
Defined.

(** ** Scatter assignment *)

Lemma length_replace_nth {A : Type} (x : A) :
  forall (l : list A) (i : nat), length (replace_nth i x l) = length l.
Proof.
  induction l as [|y l IH]; intros [|i]; simpl; auto.
Qed.

Lemma nth_replace_nth_eq {A : Type} (x d : A) :
  forall (l : list A) (i : nat),
    (i < length l)%nat -> nth i (replace_nth i x l) d = x.
Proof.
  induction l as [|y l IH]; intros [|i]; simpl; intros H; try lia; auto.
  apply IH. lia.
Qed.

Lemma nth_replace_nth_neq {A : Type} (x d : A) :
  forall (l : list A) (i j : nat),
    i <> j -> nth j (replace_nth i x l) d = nth j l d.
Proof.
  induction l as [|y l IH]; intros [|i] [|j] H; simpl; auto; try lia.
Qed.

Lemma scatter_spec :
  forall (idx : list nat) (vals ranks0 : list Z),
    length idx = length vals ->
    NoDup idx ->
    Forall (fun i => (i < length ranks0)%nat) idx ->
    exists ranks,
      scatter ranks0 idx vals = Ok ranks /\
      length ranks = length ranks0 /\
      (forall j, (j < length idx)%nat ->
         nth (nth j idx 0%nat) ranks 0%Z = nth j vals 0%Z) /\
      (forall p, ~ In p idx -> nth p ranks 0%Z = nth p ranks0 0%Z).
Proof.
  induction idx as [|i idx IH]; intros vals ranks0 Hlen Hnd Hb.
  - destruct vals; [|discriminate]. exists ranks0. simpl.
    repeat split; auto. intros j Hj. lia.
  - destruct vals as [|v vals]; [discriminate|].
    inversion Hnd as [|? ? Hni Hnd']; subst.
    inversion Hb as [|? ? Hi Hb']; subst.
    simpl. apply Nat.ltb_lt in Hi. rewrite Hi. apply Nat.ltb_lt in Hi.
    destruct (IH vals (replace_nth i v ranks0)) as [ranks [Hs [Hl [Hw Hk]]]].
    + simpl in Hlen. lia.
    + exact Hnd'.
    + rewrite length_replace_nth. exact Hb'.
    + exists ranks. split; [exact Hs|].
      rewrite length_replace_nth in Hl. split; [exact Hl|]. split.
      * intros [|j] Hj; simpl.
        -- rewrite (Hk i Hni). apply nth_replace_nth_eq, Hi.
        -- apply Hw. simpl in Hj. lia.
      * intros p Hp. rewrite Hk by (intros Hin; apply Hp; right; exact Hin).
        apply nth_replace_nth_neq. intros ->. apply Hp. left; reflexivity.
Qed.

(** ** The argsort contract, unfolded *)

Lemma nodupb_NoDup (l : list nat) : nodupb l = true -> NoDup l.
Proof.
  induction l as [|i l IH]; simpl; intros H; [constructor|].
  apply andb_prop in H. destruct H as [Hi Hl].
  constructor; [|apply IH, Hl].
  intros Hin. apply negb_true_iff in Hi.
  assert (existsb (Nat.eqb i) l = true); [|congruence].
  apply existsb_exists. exists i. split; [exact Hin|apply Nat.eqb_refl].
Qed.

Lemma ascendingb_spec (scores : list spec_float) :
  forall (idx : list nat) (p q : nat),
    ascendingb scores idx = true ->
    (p < q)%nat -> (q < length idx)%nat ->
    Float.less (score_at scores (nth q idx 0%nat))
               (score_at scores (nth p idx 0%nat)) = false.
Proof.
  induction idx as [|i idx IH]; intros p q H Hpq Hq; simpl in Hq; [lia|].
  simpl in H. apply andb_prop in H. destruct H as [Hi Hrest].
  destruct q as [|q]; [lia|]. destruct p as [|p]; simpl.
  - rewrite forallb_forall in Hi.
    apply negb_true_iff, Hi, nth_In. lia.
  - apply IH; [exact Hrest|lia|lia].
Qed.

Lemma less_irrefl (x : spec_float) : Float.less x x = false.
Proof.
  unfold Float.less, SFltb.
  destruct x as [s|s| |s m e]; simpl; try reflexivity.
  - destruct s; reflexivity.
  - destruct s; rewrite Z.compare_refl, Pos.compare_cont_refl; reflexivity.
Qed.

Lemma argsort_ok_facts (scores : list spec_float) (idx : list nat) :
  argsort_ok scores idx = true -> argsort_facts scores idx.
Proof.
  unfold argsort_ok. intros H.
  apply andb_prop in H. destruct H as [H Hasc].
  apply andb_prop in H. destruct H as [H Hnd].
  apply andb_prop in H. destruct H as [Hlen Hb].
  apply Nat.eqb_eq in Hlen. apply nodupb_NoDup in Hnd.
  assert (Hb' : Forall (fun i => (i < length scores)%nat) idx).
  { apply Forall_forall. intros i Hi.
    rewrite forallb_forall in Hb. apply Nat.ltb_lt, Hb, Hi. }
  constructor; auto.
  - apply NoDup_Permutation_bis; [exact Hnd|rewrite length_seq; lia|].
    intros i Hi. apply in_seq. rewrite Forall_forall in Hb'.
    specialize (Hb' i Hi). lia.
  - intros p q. apply ascendingb_spec, Hasc.
Qed.

(** ** Ranks *)

Lemma map_nth_seq (ranks : list Z) :
  map (fun p => nth p ranks 0%Z) (seq 0 (length ranks)) = ranks.
Proof.
  apply (nth_ext _ _ 0%Z 0%Z).
  - rewrite length_map, length_seq. reflexivity.
  - intros j Hj. rewrite length_map, length_seq in Hj.
    rewrite (nth_indep _ 0%Z (nth 0 ranks 0%Z))
      by (rewrite length_map, length_seq; exact Hj).
    rewrite (map_nth (fun p => nth p ranks 0%Z)).
    rewrite seq_nth by exact Hj. reflexivity.
Qed.

Lemma nth_arange_plus_1 (n j : nat) :
  (j < n)%nat -> nth j (arange_plus_1 n) 0%Z = (Z.of_nat j + 1)%Z.
Proof.
  intros Hj. unfold arange_plus_1.
  rewrite (nth_indep _ 0%Z ((fun j => Z.of_nat j + 1)%Z 0%nat))
    by (rewrite length_map, length_seq; exact Hj).
  rewrite (map_nth (fun j => (Z.of_nat j + 1)%Z)).
  rewrite seq_nth by exact Hj. reflexivity.
Qed.

(** What [_rank] computes on a non-empty table once [np.argsort] has
    returned an ascending permutation. *)
Lemma rank_unfold (np_argsort : list spec_float -> list nat)
    (results : Table) (column_ : string) (f : Float.format)
    (scores : list spec_float) :
  table_wf results ->
  num_rows results <> 0%nat ->
  column results column_ = Ok (FloatArray f scores) ->
  argsort_facts scores (np_argsort scores) ->
  exists i ranks,
    index (column_names results) column_ = Ok i /\
    scatter (repeat 0%Z (length (np_argsort scores))) (np_argsort scores)
      (arange_plus_1 (length scores)) = Ok ranks /\
    _rank np_argsort results column_ true
    = Ok (with_scores results i column_
            (map (Float.of_Z Float.binary32) ranks)) /\
    length ranks = length scores /\
    (forall j, (j < length scores)%nat ->
       nth (nth j (np_argsort scores) 0%nat) ranks 0%Z = (Z.of_nat j + 1)%Z).
Proof.
  intros Hwf Hrows Hcol [Hlen Hb Hnd _ _].
  destruct (column_index results column_ _ Hcol) as [i [Hi Hn]].
  destruct (scatter_spec (np_argsort scores) (arange_plus_1 (length scores))
              (repeat 0%Z (length (np_argsort scores))))
    as [ranks [Hs [Hl [Hw _]]]].
  - unfold arange_plus_1. rewrite length_map, length_seq. exact Hlen.
  - exact Hnd.
  - rewrite repeat_length, Hlen. exact Hb.
  - rewrite repeat_length, Hlen in Hl.
    exists i, ranks. split; [exact Hi|]. split; [exact Hs|].
    split; [|split; [exact Hl|]].
    + unfold _rank, len.
      apply Nat.eqb_neq in Hrows. rewrite Hrows.
      rewrite Hcol. simpl. rewrite Hs. simpl. rewrite Hi. simpl.
      apply (set_column_scores results i column_ (FloatArray f scores));
        [exact Hn|].
      rewrite length_map, Hl.
      apply (column_length results column_ _ Hwf Hcol).
    + intros j Hj. rewrite Hw by (rewrite Hlen; exact Hj).
      apply nth_arange_plus_1, Hj.
Qed.

(** ** Rescaling *)

(** C4 fails as stated: the two distances of [close_table] differ
    ([max != min]), yet [np.isclose] finds them close, so the range is
    [max] and the row holding the maximum is mapped to about 9.5e-7, not
    to 1. *)
Lemma normalize_close_scores_max_not_one :
  Float.max [f32 1; one_and_a_bit] = one_and_a_bit /\
  Float.min [f32 1; one_and_a_bit] = f32 1 /\
  SFeqb (Float.max [f32 1; one_and_a_bit]) (Float.min [f32 1; one_and_a_bit])
  = false /\
  _normalize_scores close_table "_distance" false
  = Ok (with_scores close_table 0 "_distance"
          [S754_zero false; S754_finite false 16777200 (-44)]) /\
  SFeqb (S754_finite false 16777200 (-44)) (Float.one Float.binary32) = false /\
  _normalize_scores close_table "_distance" false
  <> Ok (with_scores close_table 0 "_distance"
           (map (fun x =>
                   Float.div Float.binary32
                     (Float.sub Float.binary32 x (f32 1))
                     (Float.sub Float.binary32 one_and_a_bit (f32 1)))
                [f32 1; one_and_a_bit])).
Proof.
  split; [vm_compute; reflexivity|].
  split; [vm_compute; reflexivity|].
  split; [vm_compute; reflexivity|].
  split; [vm_compute; reflexivity|].
  split; [vm_compute; reflexivity|].
  intros H. vm_compute in H. discriminate H.
Qed.

(** When the difference [max - min] overflows, the maximum is mapped to
    NaN. *)
Lemma normalize_overflow_scores :
  Float.isclose Float.binary32 max_float32 (SFopp max_float32) = false /\
  _normalize_scores overflow_table "_distance" false
  = Ok (with_scores overflow_table 0 "_distance" [S754_zero false; S754_nan]).
Proof. split; vm_compute; reflexivity. Qed.

Module RescaleFacts.

Import Float FloatSpec FloatFacts.

Lemma maximum_cases (a b : spec_float) : maximum a b = a \/ maximum a b = b.
Proof. unfold maximum. destruct (_ || _); auto. Qed.

Lemma minimum_cases (a b : spec_float) : minimum a b = a \/ minimum a b = b.
Proof. unfold minimum. destruct (_ || _); auto. Qed.

Lemma fold_maximum_In (l : list spec_float) :
  forall x, fold_left maximum l x = x \/ In (fold_left maximum l x) l.
Proof.
  induction l as [|y l IH]; intros x; simpl; [auto|].
  destruct (IH (maximum x y)) as [H|H]; [|auto].
  rewrite H. destruct (maximum_cases x y) as [E|E]; rewrite E; auto.
Qed.

Lemma fold_minimum_In (l : list spec_float) :
  forall x, fold_left minimum l x = x \/ In (fold_left minimum l x) l.
Proof.
  induction l as [|y l IH]; intros x; simpl; [auto|].
  destruct (IH (minimum x y)) as [H|H]; [|auto].
  rewrite H. destruct (minimum_cases x y) as [E|E]; rewrite E; auto.
Qed.

Lemma max_In (l : list spec_float) : l <> [] -> In (max l) l.
Proof.
  destruct l as [|x l]; [congruence|]. intros _. simpl.
  destruct (fold_maximum_In l x) as [H|H]; [left; auto|right; exact H].
Qed.

Lemma min_In (l : list spec_float) : l <> [] -> In (min l) l.
Proof.
  destruct l as [|x l]; [congruence|]. intros _. simpl.
  destruct (fold_minimum_In l x) as [H|H]; [left; auto|right; exact H].
Qed.

(** Equal floats are identical, or zeros of either sign. *)
Lemma SFeqb_cases (x y : spec_float) :
  SFeqb x y = true ->
  x = y \/ (is_zero x = true /\ is_zero y = true).
Proof.
  unfold SFeqb.
  destruct x as [sx|sx| |sx mx ex], y as [sy|sy| |sy my ey];
    try destruct sx; try destruct sy; simpl;
    try discriminate; auto;
    destruct (Z.compare ex ey) eqn:Ee; try discriminate;
    destruct (Pos.compare_cont Eq mx my) eqn:Em; try discriminate;
    intros _; left;
    apply Z.compare_eq in Ee; apply Pos.compare_eq in Em; subst;
    reflexivity.
Qed.

Lemma new_location_0 (n : Z) : new_location n 0 = loc_Exact.
Proof. unfold new_location. destruct (Z.even n); reflexivity. Qed.

(** [x / x = 1] for every finite non-zero [x]. *)
Lemma div_self (f : format) (s : bool) (m : positive) (e : Z) :
  div f (S754_finite s m e) (S754_finite s m e) = one f.
Proof.
  assert (Hq : forall k : positive,
             Z.div_eucl (Z.shiftl (Z.pos m) (Z.pos k)) (Z.pos m)
             = (2 ^ Z.pos k, 0)%Z).
  { intros k. rewrite Z.shiftl_mul_pow2 by lia.
    rewrite (Z.mul_comm (Z.pos m)).
    pose proof (Z.div_mul (2 ^ Z.pos k) (Z.pos m) ltac:(lia)) as Hd.
    pose proof (Z.mod_mul (2 ^ Z.pos k) (Z.pos m) ltac:(lia)) as Hm.
    unfold Z.div, Z.modulo in Hd, Hm.
    destruct (Z.div_eucl (2 ^ Z.pos k * Z.pos m) (Z.pos m)) as [q r].
    subst; reflexivity. }
  unfold div, SFdiv, SFdiv_core_binary.
  replace (Zdigits2 (Z.pos m) + e - (Zdigits2 (Z.pos m) + e))%Z with 0%Z
    by lia.
  rewrite Z.sub_diag, xorb_nilpotent.
  assert (Hf : fexp (prec f) (emax f) 0 = (- prec f)%Z)
    by (destruct f; reflexivity).
  rewrite Hf.
  replace (Z.min (- prec f) 0) with (- prec f)%Z by (destruct f; reflexivity).
  replace (0 - - prec f)%Z with (prec f) by lia.
  destruct f.
  - change (prec binary32) with 24%Z. cbv iota. rewrite Hq.
    cbv beta iota zeta. rewrite new_location_0. vm_compute. reflexivity.
  - change (prec binary64) with 53%Z. cbv iota. rewrite Hq.
    cbv beta iota zeta. rewrite new_location_0. vm_compute. reflexivity.
Qed.

Lemma astype_one (f : format) : astype f binary32 (one f) = one binary32.
Proof. destruct f; vm_compute; reflexivity. Qed.

Lemma astype_zero (f : format) (s : bool) :
  astype f binary32 (S754_zero s) = S754_zero s.
Proof. unfold astype. destruct (format_eqb f binary32); reflexivity. Qed.

(** When two finite numbers are not close, their difference is not a
    zero. *)
Lemma not_close_sub_nonzero (f : format) (a b : spec_float) :
  is_finite a = true -> is_finite b = true ->
  isclose f a b = false -> is_zero (sub f a b) = false.
Proof.
  intros Ha Hb Hc. unfold isclose in Hc. rewrite Ha, Hb in Hc. simpl in Hc.
  destruct (sub f a b) as [s| | |]; try reflexivity.
  simpl in Hc.
  rewrite (leb_zero_nonneg false _ (tolerance_nonneg f b Hb)) in Hc.
  discriminate.
Qed.

End RescaleFacts.

(** ** The shape of a table after its score column is replaced *)

Lemma nth_error_replace_nth_neq {A : Type} (x : A) :
  forall (l : list A) (i j : nat),
    i <> j -> nth_error (replace_nth i x l) j = nth_error l j.
Proof.
  induction l as [|y l IH]; intros [|i] [|j] H; simpl; auto; try lia.
Qed.

Lemma nth_error_replace_nth_eq {A : Type} (x : A) :
  forall (l : list A) (i : nat),
    (i < length l)%nat -> nth_error (replace_nth i x l) i = Some x.
Proof.
  induction l as [|y l IH]; intros [|i] H; simpl in *; try lia; auto.
  apply IH. lia.
Qed.

Lemma map_fst_replace_nth (name : string) (a a' : Array) :
  forall (l : list (string * Array)) (i : nat),
    nth_error l i = Some (name, a) ->
    map fst (replace_nth i (name, a') l) = map fst l.
Proof.
  induction l as [|y l IH]; intros [|i] H; simpl in *; try discriminate.
  - inversion H; subst. reflexivity.
  - rewrite (IH i H). reflexivity.
Qed.

(** Replacing the score column keeps the row count, the column names and
    their order, and every other column; the score column becomes a
    [float32] column with the new values. *)
Lemma with_scores_shape (results : Table) (i : nat) (name : string)
    (a : Array) (out : list spec_float) :
  nth_error (columns results) i = Some (name, a) ->
  num_rows (with_scores results i name out) = num_rows results /\
  column_names (with_scores results i name out) = column_names results /\
  (forall j, j <> i ->
     nth_error (columns (with_scores results i name out)) j
     = nth_error (columns results) j) /\
  nth_error (columns (with_scores results i name out)) i
  = Some (name, FloatArray Float.binary32 out).
Proof.
  intros Hn. split; [reflexivity|]. split; [|split].
  - unfold column_names, with_scores. simpl.
    apply (map_fst_replace_nth name a), Hn.
  - intros j Hj. unfold with_scores. simpl.
    apply nth_error_replace_nth_neq. auto.
  - unfold with_scores. simpl. apply nth_error_replace_nth_eq.
    apply nth_error_Some. rewrite Hn. discriminate.
Qed.

Module RescaleRows.

Import Float FloatSpec FloatFacts RescaleFacts.

Lemma sub_zero_zero (f : format) (x y : spec_float) :
  is_zero x = true -> is_zero y = true -> is_zero (sub f x y) = true.
Proof.
  destruct x as [sx| | |], y as [sy| | |]; simpl; try discriminate.
  destruct sx, sy; reflexivity.
Qed.

Lemma div_zero_finite (f : format) (x : spec_float) (s : bool)
    (m : positive) (e : Z) :
  is_zero x = true -> is_zero (div f x (S754_finite s m e)) = true.
Proof. destruct x; simpl; try discriminate; reflexivity. Qed.

(** The row holding the minimum is mapped to a zero. *)
Lemma min_row_zero (f : format) (x mn b : spec_float) :
  is_finite x = true -> SFeqb x mn = true ->
  is_finite b = true -> is_zero b = false ->
  is_zero (astype f binary32 (div f (sub f x mn) b)) = true.
Proof.
  intros Hx He Hb Hz.
  assert (Hs : is_zero (sub f x mn) = true).
  { destruct (SFeqb_cases x mn He) as [E|[E1 E2]].
    - subst mn. rewrite (sub_self f x Hx). reflexivity.
    - apply sub_zero_zero; assumption. }
  destruct b as [s|s| |s m e]; simpl in *; try discriminate.
  pose proof (div_zero_finite f (sub f x mn) s m e Hs) as Hd.
  destruct (div f (sub f x mn) (S754_finite s m e)); simpl in Hd;
    try discriminate.
  rewrite astype_zero. reflexivity.
Qed.

(** The row holding the maximum is mapped to 1. *)
Lemma max_row_one (f : format) (x mx mn : spec_float) :
  is_finite mn = true -> SFeqb x mx = true ->
  is_finite (sub f mx mn) = true -> is_zero (sub f mx mn) = false ->
  astype f binary32 (div f (sub f x mn) (sub f mx mn)) = one binary32.
Proof.
  intros Hmn He Hb Hz.
  assert (Hs : sub f x mn = sub f mx mn).
  { destruct (SFeqb_cases x mx He) as [E|[E1 E2]]; [subst; reflexivity|].
    destruct x as [sx| | |], mx as [sm| | |]; simpl in *; try discriminate.
    destruct mn as [sn|sn| |sn mn en]; simpl in *; try discriminate.
    - destruct sm, sn; simpl in Hz; discriminate.
    - reflexivity. }
  rewrite Hs.
  destruct (sub f mx mn) as [s|s| |s m e]; simpl in Hb, Hz;
    try discriminate.
  rewrite div_self. apply astype_one.
Qed.

End RescaleRows.

(** ** Rounding to nearest: what the float operations compute *)

Module IEEEFacts.

Import IEEE.

Lemma bpow_pos (e : Z) : (0 < bpow e)%Q.
Proof. apply Qpower_0_lt. reflexivity. Qed.

Lemma bpow_add (a b : Z) : (bpow (a + b) == bpow a * bpow b)%Q.
Proof. apply Qpower_plus. intros H. discriminate H. Qed.

Lemma bpow_0 : (bpow 0 == 1)%Q.
Proof. reflexivity. Qed.

Lemma bpow_1 : (bpow 1 == 2)%Q.
Proof. reflexivity. Qed.

Lemma bpow_le (a b : Z) : (a <= b)%Z -> (bpow a <= bpow b)%Q.
Proof. intros H. apply Qpower_le_compat_l; [exact H|]. discriminate. Qed.

Lemma bpow_lt (a b : Z) : (a < b)%Z -> (bpow a < bpow b)%Q.
Proof. intros H. apply Qpower_lt_compat_l; [exact H|]. reflexivity. Qed.

Lemma bpow_Z (n : Z) : (0 <= n)%Z -> (bpow n == inject_Z (2 ^ n))%Q.
Proof. intros H. unfold bpow. rewrite Zpower_Qpower by exact H. reflexivity. Qed.

Lemma bpow_opp (a : Z) : (bpow a * bpow (- a) == 1)%Q.
Proof. rewrite <- bpow_add. replace (a + - a)%Z with 0%Z by lia. reflexivity. Qed.

Lemma inject_Z_xO (p : positive) : (inject_Z (Z.pos p~0) == 2 * inject_Z (Z.pos p))%Q.
Proof. rewrite <- (inject_Z_mult 2). reflexivity. Qed.

Lemma inject_Z_xI (p : positive) : (inject_Z (Z.pos p~1) == 2 * inject_Z (Z.pos p) + 1)%Q.
Proof. rewrite <- (inject_Z_mult 2), <- (inject_Z_plus _ 1). reflexivity. Qed.


Lemma located_ext (t t' : Q) (m : Z) (l : location) :
  (t == t')%Q -> located t m l -> located t' m l.
Proof.
  intros E. destruct l as [|[]]; simpl; intros H; qsolve.
Qed.

Lemma shr_1_located (t : Q) (mrs : shr_record) :
  (0 <= shr_m mrs)%Z -> located_rec t mrs ->
  located_rec (t * (1#2)) (shr_1 mrs).
Proof.
  destruct mrs as [m r s]. unfold located_rec.
  cbv [shr_m]. intros Hm H.
  destruct m as [|p|p]; [| |lia].
  - destruct r, s;
      cbv [located loc_of_shr_record shr_1 shr_m orb] in *;
      change (inject_Z 0) with 0%Q in *; qsolve.
  - destruct p as [p|p|].
    + pose proof (inject_Z_xI p).
      destruct r, s; cbv [located loc_of_shr_record shr_1 shr_m orb] in *;
        qsolve.
    + pose proof (inject_Z_xO p).
      destruct r, s; cbv [located loc_of_shr_record shr_1 shr_m orb] in *;
        qsolve.
    + destruct r, s; cbv [located loc_of_shr_record shr_1 shr_m orb] in *;
        change (inject_Z 1) with 1%Q in *; change (inject_Z 0) with 0%Q in *;
        qsolve.
Qed.

Lemma bpow_eq (a b : Z) : a = b -> (bpow a == bpow b)%Q.
Proof. intros ->. reflexivity. Qed.

Lemma bpow_neg1 : (bpow (-1) == 1 # 2)%Q.
Proof. reflexivity. Qed.

Lemma iter_shr_1_located (p : positive) :
  forall (t : Q) (mrs : shr_record),
    (0 <= shr_m mrs)%Z -> located_rec t mrs ->
    located_rec (t * bpow (Z.neg p)) (SpecFloat.iter_pos shr_1 p mrs).
Proof.
  induction p as [p IH|p IH|]; intros t mrs Hm H; cbn [SpecFloat.iter_pos].
  - apply (located_ext (t * (1#2) * bpow (Z.neg p) * bpow (Z.neg p))).
    + assert (E : (bpow (Z.neg p~1)
                   == (1#2) * bpow (Z.neg p) * bpow (Z.neg p))%Q).
      { rewrite <- bpow_neg1, <- !bpow_add. apply bpow_eq. lia. }
      rewrite E. ring.
    + apply IH; [apply FloatFacts.iter_pos_shr_1_nonneg, FloatFacts.shr_1_nonneg, Hm|].
      apply IH; [apply FloatFacts.shr_1_nonneg, Hm|].
      apply shr_1_located; assumption.
  - apply (located_ext (t * bpow (Z.neg p) * bpow (Z.neg p))).
    + assert (E : (bpow (Z.neg p~0) == bpow (Z.neg p) * bpow (Z.neg p))%Q).
      { rewrite <- !bpow_add. apply bpow_eq. lia. }
      rewrite E. ring.
    + apply IH; [apply FloatFacts.iter_pos_shr_1_nonneg, Hm|].
      apply IH; assumption.
  - apply (located_ext (t * (1#2))).
    + rewrite bpow_neg1. reflexivity.
    + apply shr_1_located; assumption.
Qed.

Lemma digits2_pos_size (p : positive) : digits2_pos p = Pos.size p.
Proof. induction p; simpl; congruence. Qed.

Lemma Zdigits2_bounds (m : Z) :
  (0 < m)%Z -> (2 ^ (Zdigits2 m - 1) <= m < 2 ^ Zdigits2 m)%Z.
Proof.
  destruct m as [|p|p]; try lia. intros _. cbn [Zdigits2].
  rewrite digits2_pos_size.
  pose proof (Pos.size_gt p) as Hgt.
  pose proof (Pos.size_le p) as Hle.
  apply Pos2Z.pos_lt_pos in Hgt. apply Pos2Z.pos_le_pos in Hle.
  rewrite Pos2Z.inj_pow in Hgt, Hle.
  change (Z.pos 2) with 2%Z in Hgt, Hle.
  replace (Z.pos (Pos.size p)) with (Z.succ (Z.pos (Pos.size p) - 1)) in Hle
    by lia.
  rewrite Z.pow_succ_r in Hle by lia.
  lia.
Qed.

Lemma Zdigits2_nonneg (m : Z) : (0 <= Zdigits2 m)%Z.
Proof. destruct m; simpl; lia. Qed.

Lemma Zdigits2_unique (m d : Z) :
  (0 < m)%Z -> (2 ^ (d - 1) <= m < 2 ^ d)%Z -> Zdigits2 m = d.
Proof.
  intros Hm [Hl Hu].
  destruct (Zdigits2_bounds m Hm) as [Bl Bu].
  pose proof (Zdigits2_nonneg m) as Hn.
  assert (Hd : (0 <= d)%Z).
  { destruct (Z_lt_le_dec d 0) as [H|H]; [|exact H].
    rewrite (Z.pow_neg_r 2 d H) in Hu. lia. }
  destruct (Z_lt_le_dec (Zdigits2 m) d) as [H1|H1].
  - assert ((2 ^ Zdigits2 m <= 2 ^ (d - 1))%Z)
      by (apply Z.pow_le_mono_r; lia). lia.
  - destruct (Z_lt_le_dec d (Zdigits2 m)) as [H2|H2]; [|lia].
    assert ((2 ^ d <= 2 ^ (Zdigits2 m - 1))%Z)
      by (apply Z.pow_le_mono_r; lia). lia.
Qed.

Lemma located_bounds (t : Q) (m : Z) (l : location) :
  located t m l -> (inject_Z m <= t /\ t < inject_Z m + 1)%Q.
Proof. destruct l as [|[]]; cbv [located]; intros H; qsolve. Qed.

Lemma shr_record_of_loc_m (m : Z) (l : location) :
  shr_m (shr_record_of_loc m l) = m.
Proof. destruct l as [|[]]; reflexivity. Qed.

Lemma loc_of_shr_record_of_loc (m : Z) (l : location) :
  loc_of_shr_record (shr_record_of_loc m l) = l.
Proof. destruct l as [|[]]; reflexivity. Qed.

Lemma scale_lt (t : Q) (a b : Z) :
  (t < bpow a)%Q -> (t * bpow b < bpow (a + b))%Q.
Proof.
  intros H. rewrite bpow_add.
  apply Qmult_lt_compat_r; [apply bpow_pos|exact H].
Qed.

Lemma scale_le (t : Q) (a b : Z) :
  (bpow a <= t)%Q -> (bpow (a + b) <= t * bpow b)%Q.
Proof.
  intros H. rewrite bpow_add.
  apply Qmult_le_compat_r; [exact H|apply Qlt_le_weak, bpow_pos].
Qed.

Lemma inject_Z_lt (a b : Z) : (inject_Z a < inject_Z b)%Q -> (a < b)%Z.
Proof. intros H. rewrite Zlt_Qlt. exact H. Qed.

Lemma inject_Z_le (a b : Z) : (inject_Z a <= inject_Z b)%Q -> (a <= b)%Z.
Proof. intros H. rewrite Zle_Qle. exact H. Qed.

Lemma Z_le_inject (a b : Z) : (a <= b)%Z -> (inject_Z a <= inject_Z b)%Q.
Proof. intros H. rewrite <- Zle_Qle. exact H. Qed.

Lemma Z_lt_inject (a b : Z) : (a < b)%Z -> (inject_Z a < inject_Z b)%Q.
Proof. intros H. rewrite <- Zlt_Qlt. exact H. Qed.

Lemma inject_Z_succ (a : Z) : (inject_Z (a + 1) == inject_Z a + 1)%Q.
Proof. rewrite inject_Z_plus. reflexivity. Qed.

Lemma unscale (x : Q) (E : Z) : (x * bpow (- E) * bpow E == x)%Q.
Proof.
  rewrite <- Qmult_assoc, (Qmult_comm (bpow (- E))), bpow_opp. ring.
Qed.

Lemma unscale_le (a u : Q) (E : Z) :
  (a <= u * bpow (- E))%Q -> (a * bpow E <= u)%Q.
Proof.
  intros H. rewrite <- (unscale u E).
  apply Qmult_le_compat_r; [exact H|apply Qlt_le_weak, bpow_pos].
Qed.

Lemma unscale_lt (a u : Q) (E : Z) :
  (u * bpow (- E) < a)%Q -> (u < a * bpow E)%Q.
Proof.
  intros H. rewrite <- (unscale u E).
  apply Qmult_lt_compat_r; [apply bpow_pos|exact H].
Qed.

Lemma rne_ge (m : Z) (l : location) : (m <= round_nearest_even m l)%Z.
Proof.
  destruct l as [|[]]; cbn [round_nearest_even]; try lia.
  destruct (Z.even m); lia.
Qed.

Lemma rne_le (m : Z) (l : location) : (round_nearest_even m l <= m + 1)%Z.
Proof.
  destruct l as [|[]]; cbn [round_nearest_even]; try lia.
  destruct (Z.even m); lia.
Qed.

Lemma rne_mono (t t' : Q) (m m' : Z) (l l' : location) :
  located t m l -> located t' m' l' -> (t <= t')%Q ->
  (round_nearest_even m l <= round_nearest_even m' l')%Z.
Proof.
  intros H H' Ht.
  pose proof (located_bounds _ _ _ H) as [B1 B2].
  pose proof (located_bounds _ _ _ H') as [B1' B2'].
  assert (Hmm : (m <= m')%Z).
  { assert (inject_Z m < inject_Z (m' + 1))%Q
      by (rewrite inject_Z_succ; lra).
    apply inject_Z_lt in H0. lia. }
  destruct (Z.eq_dec m m') as [->|Hne].
  - destruct l as [|[]], l' as [|[]];
      cbv [located round_nearest_even] in *;
      try destruct (Z.even m'); try lia; exfalso; qsolve.
  - pose proof (rne_le m l). pose proof (rne_ge m' l'). lia.
Qed.

Lemma pos_iter_xO (m d : positive) :
  Z.pos (Pos.iter xO m d) = (Z.pos m * 2 ^ Z.pos d)%Z.
Proof.
  induction d as [|d IH] using Pos.peano_ind.
  - cbn [Pos.iter]. lia.
  - rewrite Pos.iter_succ, Pos2Z.inj_succ, Z.pow_succ_r by lia.
    rewrite Pos2Z.inj_xO, IH. ring.
Qed.

Lemma Zdigits2_shift (m : Z) (d : Z) :
  (0 < m)%Z -> (0 <= d)%Z -> Zdigits2 (m * 2 ^ d) = (Zdigits2 m + d)%Z.
Proof.
  intros Hm Hd.
  destruct (Zdigits2_bounds m Hm) as [B1 B2].
  pose proof (Zdigits2_nonneg m) as Hn.
  assert (Hd1 : (1 <= Zdigits2 m)%Z).
  { destruct (Z_lt_le_dec (Zdigits2 m) 1) as [H|H]; [|exact H].
    assert (Zdigits2 m = 0%Z) by lia. rewrite H0 in B2. simpl in B2. lia. }
  assert (P : (0 < 2 ^ d)%Z) by (apply Z.pow_pos_nonneg; lia).
  apply Zdigits2_unique; [nia|].
  replace (Zdigits2 m + d - 1)%Z with ((Zdigits2 m - 1) + d)%Z by lia.
  rewrite !Z.pow_add_r by lia. nia.
Qed.

Lemma new_location_located (nb q r : Z) (t : Q) :
  (0 < nb)%Z -> (0 <= r < nb)%Z ->
  (t * inject_Z nb == inject_Z (nb * q + r))%Q ->
  located t q (new_location nb r).
Proof.
  intros Hnb Hr Ht.
  rewrite inject_Z_plus, inject_Z_mult in Ht.
  assert (HN : (0 < inject_Z nb)%Q)
    by (change 0%Q with (inject_Z 0); apply Z_lt_inject; lia).
  set (N := inject_Z nb) in *. set (R := inject_Z r) in *.
  set (Qq := inject_Z q) in *.
  assert (Hf : ((t - Qq) * N == R)%Q) by lra.
  assert (H2 : (inject_Z (2 * r) == 2 * R)%Q)
    by (rewrite inject_Z_mult; reflexivity).
  assert (Hlt : (2 * r < nb)%Z -> (t - Qq < 1 # 2)%Q).
  { intros H. apply Z_lt_inject in H. fold N in H.
    destruct (Qlt_le_dec (t - Qq) (1 # 2)) as [G|G]; [exact G|exfalso].
    assert ((1 # 2) * N <= (t - Qq) * N)%Q
      by (apply Qmult_le_compat_r; lra).
    lra. }
  assert (Hgt : (nb < 2 * r)%Z -> (1 # 2 < t - Qq)%Q).
  { intros H. apply Z_lt_inject in H. fold N in H.
    destruct (Qlt_le_dec (1 # 2) (t - Qq)) as [G|G]; [exact G|exfalso].
    assert ((t - Qq) * N <= (1 # 2) * N)%Q
      by (apply Qmult_le_compat_r; lra).
    lra. }
  assert (Heq : (2 * r = nb)%Z -> (t - Qq == 1 # 2)%Q).
  { intros H. assert (E : (2 * R == N)%Q) by (rewrite <- H2, H; reflexivity).
    apply (Qmult_inj_r _ _ N); lra. }
  assert (Hpos : (0 < r)%Z -> (0 < t - Qq)%Q).
  { intros H. apply Z_lt_inject in H. fold R in H.
    change (inject_Z 0) with 0%Q in H.
    destruct (Qlt_le_dec 0 (t - Qq)) as [G|G]; [exact G|exfalso].
    assert ((t - Qq) * N <= 0 * N)%Q by (apply Qmult_le_compat_r; lra).
    lra. }
  assert (H1 : (t - Qq < 1)%Q).
  { destruct Hr as [_ Hr]. apply Z_lt_inject in Hr. fold R N in Hr.
    destruct (Qlt_le_dec (t - Qq) 1) as [G|G]; [exact G|exfalso].
    assert (1 * N <= (t - Qq) * N)%Q by (apply Qmult_le_compat_r; lra).
    lra. }
  assert (Hz : r = 0%Z -> (t == Qq)%Q).
  { intros H. assert (E : (R == 0)%Q) by (unfold R; rewrite H; reflexivity).
    assert ((t - Qq) * N == 0 * N)%Q by lra.
    apply Qmult_inj_r in H0; lra. }
  unfold Qq in *. clear Qq.
  unfold new_location, new_location_even, new_location_odd.
  destruct (Z.even nb) eqn:Hev.
  - destruct (Z.eqb_spec r 0) as [H0|H0].
    + cbv [located]. apply Hz, H0.
    + destruct (Z.compare_spec (2 * r) nb) as [C|C|C]; cbv [located].
      * specialize (Heq C). lra.
      * specialize (Hlt C). specialize (Hpos ltac:(lia)). split; lra.
      * specialize (Hgt C). split; lra.
  - assert (Hodd : (2 * r <> nb)%Z).
    { intros C. rewrite <- C, Z.even_mul in Hev. discriminate. }
    destruct (Z.eqb_spec r 0) as [H0|H0].
    + cbv [located]. apply Hz, H0.
    + destruct (Z.compare_spec (2 * r + 1) nb) as [C|C|C]; cbv [located].
      * specialize (Hlt ltac:(lia)). specialize (Hpos ltac:(lia)). split; lra.
      * specialize (Hlt ltac:(lia)). specialize (Hpos ltac:(lia)). split; lra.
      * specialize (Hgt ltac:(lia)). split; lra.
Qed.


Section Rounding.

Variables prec emax : Z.
Hypothesis Hprec : (0 < prec)%Z.
Hypothesis Hemax : (prec < emax)%Z.


Lemma fexp_ge_emin (k : Z) : (emin prec emax <= fexp prec emax k)%Z.
Proof. unfold fexp. lia. Qed.

Lemma fexp_cases (k : Z) :
  (fexp prec emax k = emin prec emax /\ k - prec <= emin prec emax)%Z \/
  (fexp prec emax k = k - prec /\ emin prec emax < k - prec)%Z.
Proof. unfold fexp. lia. Qed.

Lemma shr_fexp_ready (t : Q) (m e : Z) (l : location) :
  (0 <= m)%Z -> located t m l ->
  (e <= fexp prec emax (Zdigits2 m + e))%Z ->
  ready prec emax (t * bpow e) (snd (shr_fexp prec emax m e l))
    (shr_m (fst (shr_fexp prec emax m e l)))
    (loc_of_shr_record (fst (shr_fexp prec emax m e l))).
Proof.
  intros Hm Hloc Hpre.
  set (k := (Zdigits2 m + e)%Z) in *.
  set (E := fexp prec emax k) in *.
  (* the record after the shift is located at t / 2^(E - e) *)
  assert (Hshift :
    snd (shr_fexp prec emax m e l) = E /\
    (0 <= shr_m (fst (shr_fexp prec emax m e l)))%Z /\
    located (t * bpow (e - E)) (shr_m (fst (shr_fexp prec emax m e l)))
      (loc_of_shr_record (fst (shr_fexp prec emax m e l)))).
  { unfold shr_fexp, shr. fold k. fold E.
    destruct (E - e)%Z as [|p|p] eqn:En; cbn [fst snd]; try lia.
    - split; [lia|]. rewrite shr_record_of_loc_m, loc_of_shr_record_of_loc.
      split; [exact Hm|].
      apply (located_ext t); [|exact Hloc].
      replace (e - E)%Z with 0%Z by lia. rewrite bpow_0. ring.
    - split; [lia|]. split.
      + apply FloatFacts.iter_pos_shr_1_nonneg.
        rewrite shr_record_of_loc_m. exact Hm.
      + replace (e - E)%Z with (Z.neg p) by lia.
        apply iter_shr_1_located.
        * rewrite shr_record_of_loc_m. exact Hm.
        * unfold located_rec.
          rewrite shr_record_of_loc_m, loc_of_shr_record_of_loc. exact Hloc. }
  destruct Hshift as [HE [Hm1 Hl1]].
  rewrite HE.
  set (m1 := shr_m (fst (shr_fexp prec emax m e l))) in *.
  set (l1 := loc_of_shr_record (fst (shr_fexp prec emax m e l))) in *.
  assert (Hl1' : located (t * bpow e * bpow (- E)) m1 l1).
  { apply (located_ext (t * bpow (e - E))); [|exact Hl1].
    replace (e - E)%Z with (e + - E)%Z by lia. rewrite bpow_add. ring. }
  pose proof (located_bounds _ _ _ Hl1) as [B1 B2].
  pose proof (located_bounds _ _ _ Hloc) as [T1 T2].
  pose proof (fexp_ge_emin k) as HEmin. fold E in HEmin.
  pose proof (bpow_Z prec ltac:(lia)) as Pp.
  unfold ready. split; [exact Hl1'|]. split; [exact HEmin|].
  destruct (Z.eq_dec m 0) as [Hz|Hnz].
  - (* m = 0: the value is below one unit of the last place *)
    subst m. change (inject_Z 0) with 0%Q in T1, T2.
    assert (Hlt1 : (t * bpow (e - E) < 1)%Q).
    { pose proof (bpow_le (e - E) 0 ltac:(lia)) as Hb. rewrite bpow_0 in Hb.
      pose proof (bpow_pos (e - E)) as Hp.
      assert (t * bpow (e - E) <= t * 1)%Q.
      { rewrite !(Qmult_comm t). apply Qmult_le_compat_r; [exact Hb|lra]. }
      lra. }
    assert (m1 = 0%Z).
    { assert (inject_Z m1 < inject_Z 1)%Q by (change (inject_Z 1) with 1%Q; lra).
      apply inject_Z_lt in H. lia. }
    split.
    + assert (0 < 2 ^ prec)%Z by (apply Z.pow_pos_nonneg; lia). lia.
    + left. unfold k in *. cbn [Zdigits2] in *.
      destruct (fexp_cases (0 + e)) as [[H1 _]|[H1 _]]; fold E in H1; lia.
  - (* m > 0 *)
    assert (Hpos : (0 < m)%Z) by lia.
    destruct (Zdigits2_bounds m Hpos) as [D1 D2].
    set (d := Zdigits2 m) in *.
    pose proof (Zdigits2_nonneg m) as Hd0. fold d in Hd0.
    assert (Hd1 : (1 <= d)%Z).
    { destruct (Z_lt_le_dec d 1) as [H|H]; [|exact H].
      assert (d = 0%Z) by lia. rewrite H0 in D2. simpl in D2. lia. }
    assert (Tlo : (bpow (d - 1) <= t)%Q).
    { rewrite (bpow_Z (d - 1)) by lia.
      apply Z_le_inject in D1. lra. }
    assert (Thi : (t < bpow d)%Q).
    { rewrite (bpow_Z d) by lia.
      assert (m + 1 <= 2 ^ d)%Z by lia.
      apply Z_le_inject in H. rewrite inject_Z_succ in H. lra. }
    pose proof (scale_lt t d (e - E) Thi) as S2.
    pose proof (scale_le t (d - 1) (e - E) Tlo) as S1.
    assert (Hle : (d + (e - E) <= prec)%Z).
    { unfold E, fexp, k. fold d. lia. }
    split.
    + split; [exact Hm1|].
      pose proof (bpow_le _ _ Hle) as Hb.
      assert (inject_Z m1 < inject_Z (2 ^ prec))%Q by lra.
      apply inject_Z_lt in H. exact H.
    + destruct (fexp_cases k) as [[H1 _]|[H1 H2]]; fold E in H1;
        [left; exact H1|right].
      assert (Heq : (d - 1 + (e - E) = prec - 1)%Z) by (unfold k in *; lia).
      rewrite Heq in S1. rewrite (bpow_Z (prec - 1)) in S1 by lia.
      assert (inject_Z (2 ^ (prec - 1)) < inject_Z (m1 + 1))%Q
        by (rewrite inject_Z_succ; lra).
      apply inject_Z_lt in H. lia.
Qed.

Lemma rne_cases (m : Z) (l : location) :
  round_nearest_even m l = m \/ round_nearest_even m l = (m + 1)%Z.
Proof.
  destruct l as [|[]]; cbn [round_nearest_even]; auto.
  destruct (Z.even m); auto.
Qed.


Lemma pow2_prec_split : (2 ^ prec = 2 * 2 ^ (prec - 1))%Z.
Proof. rewrite <- Z.pow_succ_r by lia. f_equal. lia. Qed.

Lemma pow2_pos (n : Z) : (0 <= n)%Z -> (0 < 2 ^ n)%Z.
Proof. intros H. apply Z.pow_pos_nonneg; lia. Qed.

(** The second shift of [binary_round_aux]: nothing happens unless the
    rounded mantissa reached [2 ^ prec]. *)
Lemma renormalise (r E : Z) :
  (0 <= r <= 2 ^ prec)%Z -> (emin prec emax <= E)%Z ->
  shr_fexp prec emax r E loc_Exact
  = if (r <? 2 ^ prec)%Z
    then (Build_shr_record r false false, E)
    else (Build_shr_record (2 ^ (prec - 1)) false false, (E + 1)%Z).
Proof.
  intros Hr HE. unfold shr_fexp, shr. cbn [shr_record_of_loc].
  destruct (Z.ltb_spec r (2 ^ prec)) as [Hlt|Hge].
  - assert (Hn : (fexp prec emax (Zdigits2 r + E) - E <= 0)%Z).
    { destruct (Z.eq_dec r 0) as [->|Hnz].
      - cbn [Zdigits2]. unfold fexp. lia.
      - destruct (Zdigits2_bounds r ltac:(lia)) as [D1 _].
        assert (Zdigits2 r - 1 < prec)%Z.
        { apply (Z.pow_lt_mono_r_iff 2); lia. }
        unfold fexp. lia. }
    destruct (fexp prec emax (Zdigits2 r + E) - E)%Z; try reflexivity; lia.
  - assert (r = (2 ^ prec)%Z) by lia. subst r.
    assert (Hd : Zdigits2 (2 ^ prec) = (prec + 1)%Z).
    { apply Zdigits2_unique.
      - apply pow2_pos; lia.
      - replace (prec + 1 - 1)%Z with prec by lia.
        split; [lia|]. apply Z.pow_lt_mono_r; lia. }
    rewrite Hd.
    replace (fexp prec emax (prec + 1 + E) - E)%Z with 1%Z
      by (unfold fexp; lia).
    cbn [iter_pos]. rewrite pow2_prec_split.
    pose proof (pow2_pos (prec - 1) ltac:(lia)) as Hp.
    destruct (2 ^ (prec - 1))%Z as [|q|q]; try lia.
    f_equal; lia.
Qed.

Lemma binary_round_aux_spec (t : Q) (m e : Z) (l : location) :
  (0 <= m)%Z -> located t m l ->
  (e <= fexp prec emax (Zdigits2 m + e))%Z ->
  exists E m1 l1,
    ready prec emax (t * bpow e) E m1 l1 /\
    binary_round_aux prec emax false m e l
    = float_of prec emax (round_nearest_even m1 l1) E.
Proof.
  intros Hm Hloc Hpre.
  pose proof (shr_fexp_ready t m e l Hm Hloc Hpre) as Hready.
  unfold binary_round_aux.
  destruct (shr_fexp prec emax m e l) as [mrs' e'] eqn:E1.
  cbn [fst snd] in Hready.
  exists e', (shr_m mrs'), (loc_of_shr_record mrs').
  split; [exact Hready|].
  destruct Hready as [_ [HE [Hm1 _]]].
  set (r := round_nearest_even (shr_m mrs') (loc_of_shr_record mrs')).
  assert (Hr : (0 <= r <= 2 ^ prec)%Z).
  { destruct (rne_cases (shr_m mrs') (loc_of_shr_record mrs')) as [H|H];
      fold r in H; lia. }
  rewrite (renormalise r e' Hr HE).
  unfold float_of.
  destruct (Z.ltb_spec r (2 ^ prec)) as [Hlt|Hge]; cbn [shr_m].
  - destruct r as [|p|p]; try lia; try reflexivity.
  - pose proof (pow2_pos (prec - 1) ltac:(lia)) as Hp.
    pose proof (pow2_pos prec ltac:(lia)) as Hp'.
    destruct (Z.eqb_spec r 0) as [H0|H0]; [lia|].
    destruct (2 ^ (prec - 1))%Z as [|q|q]; try lia.
    reflexivity.
Qed.

(** The value a rounding-ready prec emax triple rounds to is monotone in the number
    being rounded. *)
Lemma ready_exponent_mono (u v : Q) (Eu mu Ev mv : Z) (lu lv : location) :
  ready prec emax u Eu mu lu -> ready prec emax v Ev mv lv -> (u <= v)%Q -> (Eu <= Ev)%Z.
Proof.
  intros [Lu [Hu1 [Hu2 Hu3]]] [Lv [Hv1 [Hv2 Hv3]]] Huv.
  destruct (Z_le_gt_dec Eu Ev) as [H|H]; [exact H|exfalso].
  destruct Hu3 as [Hu3|Hu3]; [lia|].
  pose proof (located_bounds _ _ _ Lu) as [Bu _].
  pose proof (located_bounds _ _ _ Lv) as [_ Bv].
  apply Z_le_inject in Hu3. rewrite <- (bpow_Z (prec - 1)) in Hu3 by lia.
  assert (U1 : (bpow (prec - 1) * bpow Eu <= u)%Q)
    by (apply unscale_le; lra).
  assert (V1 : (v < inject_Z (mv + 1) * bpow Ev)%Q)
    by (apply unscale_lt; rewrite inject_Z_succ; exact Bv).
  assert (V2 : (inject_Z (mv + 1) <= bpow prec)%Q).
  { rewrite (bpow_Z prec) by lia. apply Z_le_inject. lia. }
  assert (V3 : (inject_Z (mv + 1) * bpow Ev <= bpow prec * bpow Ev)%Q).
  { apply Qmult_le_compat_r; [exact V2|apply Qlt_le_weak, bpow_pos]. }
  rewrite <- bpow_add in U1, V3.
  pose proof (bpow_le (prec + Ev) (prec - 1 + Eu) ltac:(lia)).
  lra.
Qed.

Lemma ready_value_mono (u v : Q) (Eu mu Ev mv : Z) (lu lv : location) :
  ready prec emax u Eu mu lu -> ready prec emax v Ev mv lv -> (u <= v)%Q ->
  (inject_Z (round_nearest_even mu lu) * bpow Eu
   <= inject_Z (round_nearest_even mv lv) * bpow Ev)%Q.
Proof.
  intros Ru Rv Huv.
  pose proof (ready_exponent_mono u v Eu mu Ev mv lu lv Ru Rv Huv) as HE.
  destruct Ru as [Lu [Hu1 [Hu2 Hu3]]], Rv as [Lv [Hv1 [Hv2 Hv3]]].
  destruct (Z.eq_dec Eu Ev) as [->|Hne].
  - apply Qmult_le_compat_r; [|apply Qlt_le_weak, bpow_pos].
    apply Z_le_inject.
    apply (rne_mono (u * bpow (- Ev)) (v * bpow (- Ev))); try assumption.
    apply Qmult_le_compat_r; [exact Huv|apply Qlt_le_weak, bpow_pos].
  - destruct Hv3 as [Hv3|Hv3]; [lia|].
    pose proof (rne_le mu lu) as R1. pose proof (rne_ge mv lv) as R2.
    assert (A : (inject_Z (round_nearest_even mu lu) <= bpow prec)%Q).
    { rewrite (bpow_Z prec) by lia. apply Z_le_inject. lia. }
    assert (B : (bpow (prec - 1) <= inject_Z (round_nearest_even mv lv))%Q).
    { rewrite (bpow_Z (prec - 1)) by lia. apply Z_le_inject. lia. }
    assert (A' : (inject_Z (round_nearest_even mu lu) * bpow Eu
                  <= bpow prec * bpow Eu)%Q).
    { apply Qmult_le_compat_r; [exact A|apply Qlt_le_weak, bpow_pos]. }
    assert (B' : (bpow (prec - 1) * bpow Ev
                  <= inject_Z (round_nearest_even mv lv) * bpow Ev)%Q).
    { apply Qmult_le_compat_r; [exact B|apply Qlt_le_weak, bpow_pos]. }
    rewrite <- bpow_add in A', B'.
    pose proof (bpow_le (prec + Eu) (prec - 1 + Ev) ltac:(lia)).
    lra.
Qed.


Lemma float_of_nonneg (r E : Z) :
  (0 <= r)%Z -> FloatSpec.nonneg (float_of prec emax r E) = true.
Proof.
  intros Hr. unfold float_of.
  destruct (r =? 0)%Z; [reflexivity|].
  destruct (r <? 2 ^ prec)%Z.
  - destruct (E <=? emax - prec)%Z; reflexivity.
  - destruct (E + 1 <=? emax - prec)%Z; reflexivity.
Qed.

Lemma float_of_value (r E : Z) :
  (0 <= r <= 2 ^ prec)%Z ->
  Float.is_finite (float_of prec emax r E) = true ->
  (B2Q (float_of prec emax r E) == inject_Z r * bpow E)%Q.
Proof.
  intros Hr. unfold float_of.
  destruct (Z.eqb_spec r 0) as [->|Hnz].
  - intros _. cbn [B2Q]. change (inject_Z 0) with 0%Q. ring.
  - destruct (Z.ltb_spec r (2 ^ prec)) as [Hlt|Hge].
    + destruct (E <=? emax - prec)%Z; cbn [Float.is_finite]; [|discriminate].
      intros _. cbn [B2Q cond_Zopp]. rewrite Z2Pos.id by lia. reflexivity.
    + destruct (E + 1 <=? emax - prec)%Z; cbn [Float.is_finite];
        [|discriminate].
      intros _. cbn [B2Q cond_Zopp].
      pose proof (pow2_pos (prec - 1) ltac:(lia)).
      rewrite Z2Pos.id by lia.
      assert (r = (2 ^ prec)%Z) by lia. subst r.
      rewrite pow2_prec_split. rewrite inject_Z_mult.
      rewrite (Z.add_comm E 1), bpow_add, bpow_1.
      change (inject_Z 2) with 2%Q. ring.
Qed.

(** A rounded value stays finite exactly when it is below [2 ^ emax]. *)
Lemma float_of_finite (r E : Z) :
  (0 <= r <= 2 ^ prec)%Z ->
  (E = emin prec emax \/ (2 ^ (prec - 1) <= r)%Z) ->
  (inject_Z r * bpow E < bpow emax)%Q ->
  Float.is_finite (float_of prec emax r E) = true.
Proof.
  intros Hr Hn Hv. unfold float_of.
  destruct (Z.eqb_spec r 0) as [->|Hnz]; [reflexivity|].
  assert (Hpos : (0 < bpow E)%Q) by apply bpow_pos.
  destruct (Z.ltb_spec r (2 ^ prec)) as [Hlt|Hge].
  - destruct (Z.leb_spec E (emax - prec)) as [HE|HE]; [reflexivity|exfalso].
    destruct Hn as [Hn|Hn]; [unfold emin in Hn; lia|].
    apply Z_le_inject in Hn. rewrite <- (bpow_Z (prec - 1)) in Hn by lia.
    assert (bpow (prec - 1) * bpow E <= inject_Z r * bpow E)%Q
      by (apply Qmult_le_compat_r; [exact Hn|lra]).
    rewrite <- bpow_add in H.
    pose proof (bpow_le emax (prec - 1 + E) ltac:(lia)). lra.
  - destruct (Z.leb_spec (E + 1) (emax - prec)) as [HE|HE];
      [reflexivity|exfalso].
    assert (r = (2 ^ prec)%Z) by lia. subst r.
    rewrite <- (bpow_Z prec) in Hv by lia. rewrite <- bpow_add in Hv.
    pose proof (bpow_le emax (prec + E) ltac:(lia)). lra.
Qed.

Lemma float_of_finite_bound (r E : Z) :
  (0 <= r <= 2 ^ prec)%Z ->
  Float.is_finite (float_of prec emax r E) = true ->
  (inject_Z r * bpow E < bpow emax)%Q.
Proof.
  intros Hr. unfold float_of.
  assert (Hpos : (0 < bpow E)%Q) by apply bpow_pos.
  destruct (Z.eqb_spec r 0) as [->|Hnz].
  - intros _. pose proof (bpow_pos emax).
    change (inject_Z 0) with 0%Q. lra.
  - destruct (Z.ltb_spec r (2 ^ prec)) as [Hlt|Hge].
    + destruct (Z.leb_spec E (emax - prec)) as [HE|HE];
        cbn [Float.is_finite]; [|discriminate]. intros _.
      apply Z_lt_inject in Hlt. rewrite <- (bpow_Z prec) in Hlt by lia.
      assert (inject_Z r * bpow E < bpow prec * bpow E)%Q
        by (apply Qmult_lt_compat_r; [lra|exact Hlt]).
      rewrite <- bpow_add in H.
      pose proof (bpow_le (prec + E) emax ltac:(lia)). lra.
    + destruct (Z.leb_spec (E + 1) (emax - prec)) as [HE|HE];
        cbn [Float.is_finite]; [|discriminate]. intros _.
      assert (r = (2 ^ prec)%Z) by lia. subst r.
      rewrite <- (bpow_Z prec) by lia. rewrite <- bpow_add.
      apply bpow_lt. lia.
Qed.

(** Rounding a number that is at most 1 gives at most 1. *)
Lemma ready_le_one (u : Q) (E m1 : Z) (l1 : location) :
  ready prec emax u E m1 l1 -> (u <= 1)%Q ->
  (E <= 1 - prec)%Z /\ (round_nearest_even m1 l1 <= 2 ^ (- E))%Z.
Proof.
  intros [L [H1 [H2 H3]]] Hu.
  pose proof (located_bounds _ _ _ L) as [B1 B2].
  assert (HE : (E <= 1 - prec)%Z).
  { destruct (Z_le_gt_dec E (1 - prec)) as [H|H]; [exact H|exfalso].
    destruct H3 as [H3|H3]; [unfold emin in H3; lia|].
    apply Z_le_inject in H3. rewrite <- (bpow_Z (prec - 1)) in H3 by lia.
    assert (bpow (prec - 1) * bpow E <= u)%Q by (apply unscale_le; lra).
    rewrite <- bpow_add in H0.
    pose proof (bpow_le 1 (prec - 1 + E) ltac:(lia)) as Hb.
    rewrite bpow_1 in Hb. lra. }
  split; [exact HE|].
  assert (Ht : (u * bpow (- E) <= inject_Z (2 ^ (- E)))%Q).
  { rewrite <- (bpow_Z (- E)) by lia.
    rewrite <- (Qmult_1_l (bpow (- E))) at 2.
    apply Qmult_le_compat_r; [exact Hu|apply Qlt_le_weak, bpow_pos]. }
  destruct l1 as [|c].
  - cbv [located] in L. cbn [round_nearest_even].
    apply inject_Z_le. lra.
  - assert (Hlt : (inject_Z m1 < u * bpow (- E))%Q)
      by (destruct c; cbv [located] in L; qsolve).
    assert (inject_Z m1 < inject_Z (2 ^ (- E)))%Q by lra.
    apply inject_Z_lt in H.
    pose proof (rne_le m1 (loc_Inexact c)). lia.
Qed.

Lemma ready_le_one_value (u : Q) (E m1 : Z) (l1 : location) :
  ready prec emax u E m1 l1 -> (u <= 1)%Q ->
  (inject_Z (round_nearest_even m1 l1) * bpow E <= 1)%Q.
Proof.
  intros R Hu. destruct (ready_le_one u E m1 l1 R Hu) as [HE Hr].
  apply Z_le_inject in Hr. rewrite <- (bpow_Z (- E)) in Hr by lia.
  assert (inject_Z (round_nearest_even m1 l1) * bpow E
          <= bpow (- E) * bpow E)%Q
    by (apply Qmult_le_compat_r; [exact Hr|apply Qlt_le_weak, bpow_pos]).
  rewrite (Qmult_comm (bpow (- E))), bpow_opp in H. exact H.
Qed.

Lemma ready_le_one_float (u : Q) (E m1 : Z) (l1 : location) :
  ready prec emax u E m1 l1 -> (u <= 1)%Q ->
  SFleb (float_of prec emax (round_nearest_even m1 l1) E) (ONE prec) = true.
Proof.
  intros R Hu. destruct (ready_le_one u E m1 l1 R Hu) as [HE Hr].
  destruct R as [_ [H1 [H2 _]]].
  pose proof (rne_ge m1 l1) as Hge. pose proof (rne_le m1 l1) as Hle.
  set (r := round_nearest_even m1 l1) in *.
  pose proof (pow2_pos (prec - 1) ltac:(lia)) as Hp.
  unfold float_of, ONE, SFleb, SFcompare.
  destruct (Z.eqb_spec r 0) as [Hz|Hnz]; [reflexivity|].
  destruct (Z.ltb_spec r (2 ^ prec)) as [Hlt|Hge'].
  - destruct (Z.leb_spec E (emax - prec)) as [HE'|HE']; [|lia].
    destruct (Z.compare_spec E (1 - prec)) as [Heq|Hl|Hg]; try reflexivity;
      [|lia].
    subst E. replace (- (1 - prec))%Z with (prec - 1)%Z in Hr by lia.
    rewrite Pos.compare_cont_spec. cbn [Pos.switch_Eq].
    destruct (Pos.compare_spec (Z.to_pos r) (Z.to_pos (2 ^ (prec - 1))))
      as [Heq|Hl|Hg]; try reflexivity.
    apply Pos2Z.pos_lt_pos in Hg. rewrite !Z2Pos.id in Hg by lia. lia.
  - assert (r = (2 ^ prec)%Z) by lia.
    assert (prec <= - E)%Z.
    { apply (Z.pow_le_mono_r_iff 2); lia. }
    destruct (Z.leb_spec (E + 1) (emax - prec)) as [HE'|HE']; [|lia].
    destruct (Z.compare_spec (E + 1) (1 - prec)) as [Heq|Hl|Hg];
      try reflexivity; [|lia].
    rewrite Pos.compare_cont_refl. reflexivity.
Qed.


Lemma ready_ext (u u' : Q) (E m1 : Z) (l1 : location) :
  (u == u')%Q -> ready prec emax u E m1 l1 -> ready prec emax u' E m1 l1.
Proof.
  intros Hu [L R]. split; [|exact R].
  apply (located_ext (u * bpow (- E))); [|exact L].
  rewrite Hu. reflexivity.
Qed.

Lemma rounds_to_ext (u u' : Q) (x : spec_float) :
  (u == u')%Q -> rounds_to prec emax u x -> rounds_to prec emax u' x.
Proof.
  intros Hu [E [m1 [l1 [R Hx]]]]. exists E, m1, l1.
  split; [apply (ready_ext u); assumption|exact Hx].
Qed.

Lemma fexp_mono (a b : Z) :
  (a <= b)%Z -> (fexp prec emax a <= fexp prec emax b)%Z.
Proof. unfold fexp. lia. Qed.

Lemma binary_round_spec (m : positive) (e : Z) :
  rounds_to prec emax (inject_Z (Z.pos m) * bpow e) (binary_round prec emax false m e).
Proof.
  unfold binary_round, shl_align.
  set (k := (Z.pos (digits2_pos m) + e)%Z).
  destruct (fexp prec emax k - e)%Z as [|d|d] eqn:Hd.
  - destruct (binary_round_aux_spec (inject_Z (Z.pos m)) (Z.pos m) e loc_Exact)
      as [E [m1 [l1 [R Hx]]]].
    + lia.
    + cbv [located]. reflexivity.
    + cbn [Zdigits2]. fold k. lia.
    + exists E, m1, l1. split; assumption.
  - destruct (binary_round_aux_spec (inject_Z (Z.pos m)) (Z.pos m) e loc_Exact)
      as [E [m1 [l1 [R Hx]]]].
    + lia.
    + cbv [located]. reflexivity.
    + cbn [Zdigits2]. fold k. lia.
    + exists E, m1, l1. split; assumption.
  - set (mz := Pos.iter xO m d).
    assert (Hmz : Z.pos mz = (Z.pos m * 2 ^ Z.pos d)%Z) by apply pos_iter_xO.
    destruct (binary_round_aux_spec (inject_Z (Z.pos mz)) (Z.pos mz)
                (fexp prec emax k) loc_Exact)
      as [E [m1 [l1 [R Hx]]]].
    + lia.
    + cbv [located]. reflexivity.
    + rewrite Hmz, Zdigits2_shift by lia. cbn [Zdigits2]. fold k.
      replace (Z.pos (digits2_pos m) + Z.pos d + fexp prec emax k)%Z
        with k by (unfold k in *; lia).
      lia.
    + exists E, m1, l1. split; [|exact Hx].
      apply (ready_ext (inject_Z (Z.pos mz) * bpow (fexp prec emax k)));
        [|exact R].
      rewrite Hmz, inject_Z_mult.
      assert (He : (bpow e == bpow (Z.pos d) * bpow (fexp prec emax k))%Q).
      { rewrite <- bpow_add. apply bpow_eq. lia. }
      rewrite He, (bpow_Z (Z.pos d)) by lia. ring.
Qed.

(** A non-negative number of the format is its own rounding. *)
Lemma valid_ready (m : positive) (e : Z) :
  bounded prec emax m e = true ->
  ready prec emax (inject_Z (Z.pos m) * bpow e) e (Z.pos m) loc_Exact /\
  (e <= emax - prec)%Z.
Proof.
  unfold bounded, canonical_mantissa. intros H.
  apply andb_prop in H. destruct H as [Hc Hb].
  apply Z.eqb_eq in Hc. apply Z.leb_le in Hb.
  split; [|exact Hb].
  destruct (Zdigits2_bounds (Z.pos m) ltac:(lia)) as [B1 B2].
  cbn [Zdigits2] in B1, B2.
  set (d := Z.pos (digits2_pos m)) in *.
  unfold ready. split; [|split; [|split]].
  - cbv [located]. rewrite <- Qmult_assoc, bpow_opp. ring.
  - rewrite <- Hc. apply fexp_ge_emin.
  - split; [lia|].
    assert (d <= prec)%Z by (unfold fexp in Hc; lia).
    assert (2 ^ d <= 2 ^ prec)%Z by (apply Z.pow_le_mono_r; lia). lia.
  - destruct (fexp_cases (d + e)) as [[H1 _]|[H1 _]]; [left; lia|right].
    assert (d = prec) by lia. subst d. rewrite H in B1. exact B1.
Qed.


Lemma mag_pos (m : positive) (e : Z) : (0 < mag m e)%Q.
Proof.
  unfold mag. apply Qmult_lt_0_compat; [|apply bpow_pos].
  change 0%Q with (inject_Z 0). apply Z_lt_inject. lia.
Qed.

(** Comparing exponents, then mantissas, compares the values of two
    positive numbers of the format. *)
Lemma mag_compare (mx : positive) (ex : Z) (my : positive) (ey : Z) :
  bounded prec emax mx ex = true -> bounded prec emax my ey = true ->
  match
    match Z.compare ex ey with
    | Lt => Lt
    | Gt => Gt
    | Eq => Pos.compare_cont Eq mx my
    end
  with
  | Lt => (mag mx ex < mag my ey)%Q
  | Eq => (mag mx ex == mag my ey)%Q
  | Gt => (mag my ey < mag mx ex)%Q
  end.
Proof.
  intros Bx By.
  destruct (valid_ready mx ex Bx) as [Rx _].
  destruct (valid_ready my ey By) as [Ry _].
  fold (mag mx ex) in Rx. fold (mag my ey) in Ry.
  destruct (Z.compare_spec ex ey) as [Heq|Hlt|Hgt].
  - subst ey. rewrite Pos.compare_cont_spec. cbn [Pos.switch_Eq].
    pose proof (bpow_pos ex) as Hp.
    destruct (Pos.compare_spec mx my) as [H|H|H].
    + subst. reflexivity.
    + unfold mag. apply Qmult_lt_compat_r; [exact Hp|].
      apply Z_lt_inject. lia.
    + unfold mag. apply Qmult_lt_compat_r; [exact Hp|].
      apply Z_lt_inject. lia.
  - destruct (Qlt_le_dec (mag mx ex) (mag my ey)) as [H|H]; [exact H|].
    pose proof (ready_exponent_mono _ _ _ _ _ _ _ _ Ry Rx H). lia.
  - destruct (Qlt_le_dec (mag my ey) (mag mx ex)) as [H|H]; [exact H|].
    pose proof (ready_exponent_mono _ _ _ _ _ _ _ _ Rx Ry H). lia.
Qed.

Lemma B2Q_finite (s : bool) (m : positive) (e : Z) :
  (B2Q (S754_finite s m e) == if s then - mag m e else mag m e)%Q.
Proof.
  unfold mag. cbn [B2Q]. destruct s; cbn [cond_Zopp]; [|reflexivity].
  rewrite inject_Z_opp. ring.
Qed.

Lemma SFcompare_B2Q (x y : spec_float) :
  Float.is_finite x = true -> Float.is_finite y = true ->
  valid_binary prec emax x = true -> valid_binary prec emax y = true ->
  match SFcompare x y with
  | Some Lt => (B2Q x < B2Q y)%Q
  | Some Eq => (B2Q x == B2Q y)%Q
  | Some Gt => (B2Q y < B2Q x)%Q
  | None => False
  end.
Proof.
  intros Fx Fy Vx Vy.
  destruct x as [sx|sx| |sx mx ex]; try discriminate;
    destruct y as [sy|sy| |sy my ey]; try discriminate;
    cbn [valid_binary] in Vx, Vy.
  - cbn [SFcompare B2Q]. reflexivity.
  - pose proof (B2Q_finite sy my ey) as Ey. pose proof (mag_pos my ey).
    change (B2Q (S754_zero sx)) with 0%Q.
    destruct sy; cbn [SFcompare]; lra.
  - pose proof (B2Q_finite sx mx ex) as Ex. pose proof (mag_pos mx ex).
    change (B2Q (S754_zero sy)) with 0%Q.
    destruct sx; cbn [SFcompare]; lra.
  - pose proof (B2Q_finite sx mx ex) as Ex.
    pose proof (B2Q_finite sy my ey) as Ey.
    pose proof (mag_pos mx ex). pose proof (mag_pos my ey).
    pose proof (mag_compare mx ex my ey Vx Vy) as C.
    destruct sx, sy; cbn [SFcompare]; try lra.
    + destruct (Z.compare ex ey);
        [destruct (Pos.compare_cont Eq mx my)| |]; cbn [CompOpp]; lra.
    + destruct (Z.compare ex ey);
        [destruct (Pos.compare_cont Eq mx my)| |]; lra.
Qed.

Lemma SFleb_true_B2Q (x y : spec_float) :
  Float.is_finite x = true -> Float.is_finite y = true ->
  valid_binary prec emax x = true -> valid_binary prec emax y = true ->
  SFleb x y = true -> (B2Q x <= B2Q y)%Q.
Proof.
  intros Fx Fy Vx Vy. pose proof (SFcompare_B2Q x y Fx Fy Vx Vy) as C.
  unfold SFleb. destruct (SFcompare x y) as [[]|]; try discriminate;
    intros _; lra.
Qed.

Lemma SFleb_false_B2Q (x y : spec_float) :
  Float.is_finite x = true -> Float.is_finite y = true ->
  valid_binary prec emax x = true -> valid_binary prec emax y = true ->
  SFleb x y = false -> (B2Q y < B2Q x)%Q.
Proof.
  intros Fx Fy Vx Vy. pose proof (SFcompare_B2Q x y Fx Fy Vx Vy) as C.
  unfold SFleb. destruct (SFcompare x y) as [[]|]; try discriminate;
    intros _; try lra; contradiction.
Qed.

Lemma valid_rounds_to (m : positive) (e : Z) :
  bounded prec emax m e = true ->
  rounds_to prec emax (mag m e) (S754_finite false m e).
Proof.
  intros B. destruct (valid_ready m e B) as [R He].
  exists e, (Z.pos m), loc_Exact. split; [exact R|].
  destruct R as [_ [_ [Hm _]]].
  cbn [round_nearest_even]. unfold float_of.
  destruct (Z.eqb_spec (Z.pos m) 0) as [H|_]; [lia|].
  destruct (Z.ltb_spec (Z.pos m) (2 ^ prec)) as [_|H]; [|lia].
  destruct (Z.leb_spec e (emax - prec)) as [_|H]; [|lia].
  reflexivity.
Qed.

Lemma shl_align_value (m : positive) (e ez : Z) :
  (ez <= e)%Z ->
  (inject_Z (Z.pos (fst (shl_align m e ez))) * bpow ez == mag m e)%Q.
Proof.
  intros H. unfold shl_align, mag.
  destruct (ez - e)%Z as [|d|d] eqn:Hd; cbn [fst]; try lia.
  - replace ez with e by lia. reflexivity.
  - rewrite pos_iter_xO, inject_Z_mult.
    assert (He : (bpow e == bpow (Z.pos d) * bpow ez)%Q).
    { rewrite <- bpow_add. apply bpow_eq. lia. }
    rewrite He, (bpow_Z (Z.pos d)) by lia. ring.
Qed.

Lemma cond_Zopp_value (s : bool) (m : positive) (e ez : Z) :
  (ez <= e)%Z ->
  (inject_Z (cond_Zopp s (Z.pos (fst (shl_align m e ez)))) * bpow ez
   == B2Q (S754_finite s m e))%Q.
Proof.
  intros H. rewrite B2Q_finite. pose proof (shl_align_value m e ez H) as V.
  destruct s; cbn [cond_Zopp]; [|exact V].
  rewrite inject_Z_opp. lra.
Qed.

(** Subtraction rounds the exact difference. *)
Lemma sub_spec (x y : spec_float) :
  Float.is_finite x = true -> Float.is_finite y = true ->
  valid_binary prec emax x = true -> valid_binary prec emax y = true ->
  (B2Q y < B2Q x)%Q ->
  rounds_to prec emax (B2Q x - B2Q y) (SFsub prec emax x y).
Proof.
  intros Fx Fy Vx Vy Hlt.
  destruct x as [sx|sx| |sx mx ex]; try discriminate;
    destruct y as [sy|sy| |sy my ey]; try discriminate;
    cbn [valid_binary] in Vx, Vy.
  - pose proof (B2Q_finite sy my ey) as Ey. pose proof (mag_pos my ey).
    change (B2Q (S754_zero sx)) with 0%Q in *.
    destruct sy; [|exfalso; lra]. cbn [SFsub negb].
    apply (rounds_to_ext (mag my ey)); [lra|].
    apply valid_rounds_to, Vy.
  - pose proof (B2Q_finite sx mx ex) as Ex. pose proof (mag_pos mx ex).
    change (B2Q (S754_zero sy)) with 0%Q in *.
    destruct sx; [exfalso; lra|]. cbn [SFsub].
    apply (rounds_to_ext (mag mx ex)); [lra|].
    apply valid_rounds_to, Vx.
  - cbn [SFsub].
    set (ez := Z.min ex ey).
    pose proof (cond_Zopp_value sx mx ex ez ltac:(lia)) as Ax.
    pose proof (cond_Zopp_value sy my ey ez ltac:(lia)) as Ay.
    set (ax := cond_Zopp sx (Z.pos (fst (shl_align mx ex ez)))) in *.
    set (ay := cond_Zopp sy (Z.pos (fst (shl_align my ey ez)))) in *.
    assert (Hd : (inject_Z (ax - ay) * bpow ez
                  == B2Q (S754_finite sx mx ex) - B2Q (S754_finite sy my ey))%Q).
    { unfold Z.sub. rewrite inject_Z_plus, inject_Z_opp. lra. }
    pose proof (bpow_pos ez) as Hp.
    assert (Hpos : (0 < ax - ay)%Z).
    { destruct (Z_lt_le_dec 0 (ax - ay)) as [H|H]; [exact H|exfalso].
      apply Z_le_inject in H. change (inject_Z 0) with 0%Q in H.
      assert (inject_Z (ax - ay) * bpow ez <= 0 * bpow ez)%Q
        by (apply Qmult_le_compat_r; lra).
      lra. }
    unfold binary_normalize.
    destruct (ax - ay)%Z as [|p|p]; try lia.
    apply (rounds_to_ext (inject_Z (Z.pos p) * bpow ez)); [exact Hd|].
    apply binary_round_spec.
Qed.

Lemma sub_zero_spec (x y : spec_float) :
  Float.is_finite x = true -> Float.is_finite y = true ->
  (B2Q x == B2Q y)%Q ->
  Float.is_zero (SFsub prec emax x y) = true.
Proof.
  intros Fx Fy Heq.
  destruct x as [sx|sx| |sx mx ex]; try discriminate;
    destruct y as [sy|sy| |sy my ey]; try discriminate.
  - destruct sx, sy; reflexivity.
  - pose proof (B2Q_finite sy my ey) as Ey. pose proof (mag_pos my ey).
    change (B2Q (S754_zero sx)) with 0%Q in *. exfalso. destruct sy; lra.
  - pose proof (B2Q_finite sx mx ex) as Ex. pose proof (mag_pos mx ex).
    change (B2Q (S754_zero sy)) with 0%Q in *. exfalso. destruct sx; lra.
  - cbn [SFsub].
    set (ez := Z.min ex ey).
    pose proof (cond_Zopp_value sx mx ex ez ltac:(lia)) as Ax.
    pose proof (cond_Zopp_value sy my ey ez ltac:(lia)) as Ay.
    set (ax := cond_Zopp sx (Z.pos (fst (shl_align mx ex ez)))) in *.
    set (ay := cond_Zopp sy (Z.pos (fst (shl_align my ey ez)))) in *.
    pose proof (bpow_pos ez) as Hp.
    assert (Hq : (inject_Z ax == inject_Z ay)%Q).
    { apply (Qmult_inj_r _ _ (bpow ez)); lra. }
    assert (Hz : ax = ay) by (apply inject_Z_injective; exact Hq).
    rewrite Hz, Z.sub_diag. reflexivity.
Qed.

Lemma Zdigits2_pos_ge_1 (m : positive) : (1 <= Zdigits2 (Z.pos m))%Z.
Proof. cbn [Zdigits2]. lia. Qed.

(** Division rounds the exact quotient. *)
Lemma div_spec (ma : positive) (ea : Z) (mb : positive) (eb : Z) :
  rounds_to prec emax (mag ma ea / mag mb eb)
    (SFdiv prec emax (S754_finite false ma ea) (S754_finite false mb eb)).
Proof.
  cbn [SFdiv xorb]. unfold SFdiv_core_binary.
  destruct (Zdigits2_bounds (Z.pos ma) ltac:(lia)) as [A1 A2].
  destruct (Zdigits2_bounds (Z.pos mb) ltac:(lia)) as [B1 B2].
  pose proof (Zdigits2_pos_ge_1 ma) as Da.
  pose proof (Zdigits2_pos_ge_1 mb) as Db.
  set (d1 := Zdigits2 (Z.pos ma)) in *.
  set (d2 := Zdigits2 (Z.pos mb)) in *.
  set (K := (d1 + ea - (d2 + eb))%Z).
  set (e' := Z.min (fexp prec emax K) (ea - eb)).
  set (s := (ea - eb - e')%Z).
  assert (Hs : (0 <= s)%Z) by (unfold s, e'; lia).
  set (m' := match s with
             | 0%Z => Z.pos ma
             | Z.pos _ => Z.shiftl (Z.pos ma) s
             | Z.neg _ => 0%Z
             end).
  assert (Hm' : m' = (Z.pos ma * 2 ^ s)%Z).
  { unfold m'. destruct s as [|p|p] eqn:Es; try lia.
    apply Z.shiftl_mul_pow2. lia. }
  clearbody m'.
  pose proof (Z_div_mod m' (Z.pos mb) ltac:(lia)) as Hdm.
  destruct (Z.div_eucl m' (Z.pos mb)) as [q r].
  destruct Hdm as [Hq Hr].
  assert (P2s : (0 < 2 ^ s)%Z) by (apply pow2_pos; lia).
  assert (Hq0 : (0 <= q)%Z) by nia.
  set (t := (inject_Z m' / inject_Z (Z.pos mb))%Q).
  assert (HB : (0 < inject_Z (Z.pos mb))%Q)
    by (change 0%Q with (inject_Z 0); apply Z_lt_inject; lia).
  assert (Hloc : located t q (new_location (Z.pos mb) r)).
  { apply new_location_located; [lia|exact Hr|].
    rewrite <- Hq. unfold t. field. lra. }
  assert (Hpre : (e' <= fexp prec emax (Zdigits2 q + e'))%Z).
  { assert (He'K : (e' <= fexp prec emax K)%Z) by (unfold e'; lia).
    destruct (Z.eq_dec q 0) as [Hz|Hnz].
    - subst q. cbn [Zdigits2].
      assert (Hlt : (2 ^ (d1 - 1 + s) < 2 ^ d2)%Z).
      { rewrite Z.pow_add_r by lia. nia. }
      apply Z.pow_lt_mono_r_iff in Hlt; [|lia|lia].
      unfold fexp in *. unfold K, s in *. lia.
    - assert (Hqpos : (0 < q)%Z) by lia.
      destruct (Zdigits2_bounds q Hqpos) as [Q1 Q2].
      pose proof (Zdigits2_nonneg q) as Q0.
      assert (Hdq : (d1 - 1 + s - d2 < Zdigits2 q)%Z).
      { destruct (Z_lt_le_dec (d1 - 1 + s - d2) 0) as [Hx|Hx].
        - assert (Zdigits2 q <> 0)%Z; [|lia].
          intros E0. rewrite E0 in Q2. simpl in Q2. lia.
        - assert (Hge : (2 ^ (d1 - 1 + s - d2) <= q)%Z).
          { assert (E1 : (2 ^ (d1 - 1 + s) = 2 ^ (d1 - 1 + s - d2) * 2 ^ d2)%Z).
            { rewrite <- Z.pow_add_r by lia. f_equal. lia. }
            assert (E2 : (2 ^ (d1 - 1 + s) = 2 ^ (d1 - 1) * 2 ^ s)%Z)
              by (apply Z.pow_add_r; lia).
            assert (P : (0 < 2 ^ (d1 - 1 + s - d2))%Z)
              by (apply pow2_pos; lia).
            nia. }
          apply (Z.pow_lt_mono_r_iff 2); [lia|lia|lia]. }
      apply (Z.le_trans _ _ _ He'K). apply fexp_mono.
      unfold K, s. lia. }
  destruct (binary_round_aux_spec t q e' (new_location (Z.pos mb) r)
              Hq0 Hloc Hpre) as [E [m1 [l1 [R Hx]]]].
  exists E, m1, l1. split; [|exact Hx].
  apply (ready_ext (t * bpow e')); [|exact R].
  unfold t, mag. rewrite Hm', inject_Z_mult.
  assert (He : (bpow ea == bpow s * bpow e' * bpow eb)%Q).
  { rewrite <- !bpow_add. apply bpow_eq. unfold s. lia. }
  rewrite He, (bpow_Z s) by lia.
  pose proof (bpow_pos eb). field. split; lra.
Qed.

Lemma float_of_cases (r E : Z) :
  float_of prec emax r E = S754_zero false \/
  (exists m e, float_of prec emax r E = S754_finite false m e) \/
  float_of prec emax r E = S754_infinity false.
Proof.
  unfold float_of.
  destruct (r =? 0)%Z; [auto|].
  destruct (r <? 2 ^ prec)%Z.
  - destruct (E <=? emax - prec)%Z; eauto.
  - destruct (E + 1 <=? emax - prec)%Z; eauto.
Qed.

Lemma ready_rne_bounds (u : Q) (E m1 : Z) (l1 : location) :
  ready prec emax u E m1 l1 ->
  (0 <= round_nearest_even m1 l1 <= 2 ^ prec)%Z /\
  (E = emin prec emax \/ (2 ^ (prec - 1) <= round_nearest_even m1 l1)%Z).
Proof.
  intros [_ [_ [H2 H3]]].
  pose proof (rne_ge m1 l1). pose proof (rne_le m1 l1).
  split; [lia|]. destruct H3; [left; assumption|right; lia].
Qed.

(** A float at most 1 that a number rounds to: it is finite, not
    negative, and its value is at most 1. *)
Lemma rounds_to_le_one (u : Q) (x : spec_float) :
  rounds_to prec emax u x -> (u <= 1)%Q ->
  FloatSpec.nonneg x = true /\ SFleb x (ONE prec) = true /\
  Float.is_finite x = true /\ (B2Q x <= 1)%Q.
Proof.
  intros [E [m1 [l1 [R Hx]]]] Hu. subst x.
  destruct (ready_rne_bounds u E m1 l1 R) as [Hb _].
  pose proof (ready_le_one_float u E m1 l1 R Hu) as Hle.
  pose proof (ready_le_one_value u E m1 l1 R Hu) as Hv.
  assert (Hfin : Float.is_finite
                   (float_of prec emax (round_nearest_even m1 l1) E) = true).
  { destruct (float_of_cases (round_nearest_even m1 l1) E)
      as [H|[[m [e H]]|H]]; rewrite H in *; try reflexivity.
    discriminate Hle. }
  split; [apply float_of_nonneg; lia|]. split; [exact Hle|].
  split; [exact Hfin|].
  rewrite (float_of_value _ _ Hb Hfin). exact Hv.
Qed.

Lemma zero_le_one (s : bool) : SFleb (S754_zero s) (ONE prec) = true.
Proof. reflexivity. Qed.

(** The quotient [(x - mn) / (mx - mn)] of numbers of the format with
    [mn <= x <= mx], when [mx - mn] is finite and not zero. *)
Lemma rescale_unit (x mn mx : spec_float) :
  Float.is_finite x = true -> Float.is_finite mn = true ->
  Float.is_finite mx = true ->
  valid_binary prec emax x = true -> valid_binary prec emax mn = true ->
  valid_binary prec emax mx = true ->
  (B2Q mn <= B2Q x)%Q -> (B2Q x <= B2Q mx)%Q ->
  Float.is_finite (SFsub prec emax mx mn) = true ->
  Float.is_zero (SFsub prec emax mx mn) = false ->
  let q := SFdiv prec emax (SFsub prec emax x mn) (SFsub prec emax mx mn) in
  FloatSpec.nonneg q = true /\ SFleb q (ONE prec) = true /\
  Float.is_finite q = true /\ (B2Q q <= 1)%Q.
Proof.
  intros Fx Fmn Fmx Vx Vmn Vmx Hlo Hhi Fb Zb q.
  assert (Hb_pos : (B2Q mn < B2Q mx)%Q).
  { destruct (Qlt_le_dec (B2Q mn) (B2Q mx)) as [H|H]; [exact H|exfalso].
    assert (E : (B2Q mx == B2Q mn)%Q) by lra.
    rewrite (sub_zero_spec mx mn Fmx Fmn E) in Zb. discriminate. }
  destruct (sub_spec mx mn Fmx Fmn Vmx Vmn Hb_pos)
    as [Ev [mv [lv [Rv Hbv]]]].
  destruct (ready_rne_bounds _ _ _ _ Rv) as [Bv Nv].
  assert (Zq : Float.is_zero (SFsub prec emax x mn) = true ->
             FloatSpec.nonneg q = true /\ SFleb q (ONE prec) = true /\
             Float.is_finite q = true /\ (B2Q q <= 1)%Q).
  { intros Hz. unfold q.
    destruct (SFsub prec emax x mn) as [sa| | |]; try discriminate.
    destruct (SFsub prec emax mx mn) as [sb|sb| |sb mb eb]; try discriminate.
    cbn [SFdiv FloatSpec.nonneg Float.is_finite B2Q].
    repeat split; try reflexivity. lra. }
  destruct (Qlt_le_dec (B2Q mn) (B2Q x)) as [Hlt|Hge].
  - destruct (sub_spec x mn Fx Fmn Vx Vmn Hlt) as [Eu [mu [lu [Ru Hau]]]].
    destruct (ready_rne_bounds _ _ _ _ Ru) as [Bu Nu].
    assert (Huv : (B2Q x - B2Q mn <= B2Q mx - B2Q mn)%Q) by lra.
    pose proof (ready_value_mono _ _ _ _ _ _ _ _ Ru Rv Huv) as Hmono.
    rewrite Hbv in Fb.
    pose proof (float_of_finite_bound _ _ Bv Fb) as Hbound.
    assert (Fa : Float.is_finite
                   (float_of prec emax (round_nearest_even mu lu) Eu) = true).
    { apply float_of_finite; [exact Bu|exact Nu|lra]. }
    pose proof (float_of_value _ _ Bu Fa) as Va.
    pose proof (float_of_value _ _ Bv Fb) as Vb.
    rewrite <- Hau in Fa, Va. rewrite <- Hbv in Fb, Vb.
    assert (Hab : (B2Q (SFsub prec emax x mn)
                   <= B2Q (SFsub prec emax mx mn))%Q) by lra.
    pose proof (float_of_cases (round_nearest_even mu lu) Eu) as Ca.
    pose proof (float_of_cases (round_nearest_even mv lv) Ev) as Cb.
    rewrite <- Hau in Ca. rewrite <- Hbv in Cb.
    destruct Ca as [Ca|[[ma [ea Ca]]|Ca]].
    + apply Zq. rewrite Ca. reflexivity.
    + destruct Cb as [Cb|[[mb [eb Cb]]|Cb]].
      * rewrite Cb in Zb. discriminate.
      * unfold q. rewrite Ca, Cb in *.
        apply (rounds_to_le_one (mag ma ea / mag mb eb)).
        -- apply div_spec.
        -- pose proof (B2Q_finite false ma ea) as Ea.
           pose proof (B2Q_finite false mb eb) as Eb.
           pose proof (mag_pos mb eb) as Pb.
           apply Qle_shift_div_r; [exact Pb|]. cbn beta iota in Ea, Eb. lra.
      * rewrite Cb in Fb. discriminate.
    + rewrite Ca in Fa. discriminate.
  - apply Zq. apply sub_zero_spec; [exact Fx|exact Fmn|lra].
Qed.

(** Rounding a non-negative finite number at most 1 into this format. *)
Lemma cast_unit (q : spec_float) :
  FloatSpec.nonneg q = true -> Float.is_finite q = true -> (B2Q q <= 1)%Q ->
  let y := match q with
           | S754_finite s m e => binary_round prec emax s m e
           | _ => q
           end in
  FloatSpec.nonneg y = true /\ SFleb y (ONE prec) = true.
Proof.
  intros Hn Hf Hq y. unfold y.
  destruct q as [s|s| |s m e]; try discriminate.
  - split; reflexivity.
  - destruct s; [discriminate|].
    pose proof (B2Q_finite false m e) as Eq'. cbn beta iota in Eq'.
    destruct (rounds_to_le_one (mag m e) (binary_round prec emax false m e))
      as [H1 [H2 _]].
    + apply binary_round_spec.
    + lra.
    + split; assumption.
Qed.

(** The fold of [np.max]: the result bounds every entry from above. *)
Lemma fold_maximum_ge (l : list spec_float) :
  forall acc,
    Float.is_finite acc = true -> valid_binary prec emax acc = true ->
    Forall (fun x => Float.is_finite x = true /\
                     valid_binary prec emax x = true) l ->
    let m := fold_left Float.maximum l acc in
    (B2Q acc <= B2Q m)%Q /\
    (forall x, In x l -> (B2Q x <= B2Q m)%Q) /\
    Float.is_finite m = true /\ valid_binary prec emax m = true.
Proof.
  induction l as [|y l IH]; intros acc Fa Va Hl; cbn [fold_left].
  - repeat split; auto; try lra. intros x [].
  - inversion Hl as [|? ? [Fy Vy] Hl']; subst.
    assert (Hstep : (B2Q acc <= B2Q (Float.maximum acc y))%Q /\
                    (B2Q y <= B2Q (Float.maximum acc y))%Q /\
                    Float.is_finite (Float.maximum acc y) = true /\
                    valid_binary prec emax (Float.maximum acc y) = true).
    { unfold Float.maximum.
      assert (Float.is_nan acc = false) by (destruct acc; auto; discriminate).
      rewrite H. cbn [orb].
      destruct (SFleb y acc) eqn:Hle.
      - pose proof (SFleb_true_B2Q y acc Fy Fa Vy Va Hle). repeat split; auto; lra.
      - pose proof (SFleb_false_B2Q y acc Fy Fa Vy Va Hle). repeat split; auto; lra. }
    destruct Hstep as [S1 [S2 [S3 S4]]].
    destruct (IH (Float.maximum acc y) S3 S4 Hl') as [I1 [I2 [I3 I4]]].
    repeat split; auto; try lra.
    intros x [Hx|Hx]; [subst; lra|apply I2, Hx].
Qed.

Lemma fold_minimum_le (l : list spec_float) :
  forall acc,
    Float.is_finite acc = true -> valid_binary prec emax acc = true ->
    Forall (fun x => Float.is_finite x = true /\
                     valid_binary prec emax x = true) l ->
    let m := fold_left Float.minimum l acc in
    (B2Q m <= B2Q acc)%Q /\
    (forall x, In x l -> (B2Q m <= B2Q x)%Q) /\
    Float.is_finite m = true /\ valid_binary prec emax m = true.
Proof.
  induction l as [|y l IH]; intros acc Fa Va Hl; cbn [fold_left].
  - repeat split; auto; try lra. intros x [].
  - inversion Hl as [|? ? [Fy Vy] Hl']; subst.
    assert (Hstep : (B2Q (Float.minimum acc y) <= B2Q acc)%Q /\
                    (B2Q (Float.minimum acc y) <= B2Q y)%Q /\
                    Float.is_finite (Float.minimum acc y) = true /\
                    valid_binary prec emax (Float.minimum acc y) = true).
    { unfold Float.minimum.
      assert (Float.is_nan acc = false) by (destruct acc; auto; discriminate).
      rewrite H. cbn [orb].
      destruct (SFleb acc y) eqn:Hle.
      - pose proof (SFleb_true_B2Q acc y Fa Fy Va Vy Hle). repeat split; auto; lra.
      - pose proof (SFleb_false_B2Q acc y Fa Fy Va Vy Hle). repeat split; auto; lra. }
    destruct Hstep as [S1 [S2 [S3 S4]]].
    destruct (IH (Float.minimum acc y) S3 S4 Hl') as [I1 [I2 [I3 I4]]].
    repeat split; auto; try lra.
    intros x [Hx|Hx]; [subst; lra|apply I2, Hx].
Qed.

End Rounding.

End IEEEFacts.

(** ** Rescaled scores lie between 0 and 1 *)

Module UnitInterval.

Import Float FloatSpec FloatFacts RescaleFacts RescaleRows IEEE IEEEFacts.

Lemma prec_pos (f : format) : (0 < prec f)%Z.
Proof. destruct f; reflexivity. Qed.

Lemma prec_lt_emax (f : format) : (prec f < emax f)%Z.
Proof. destruct f; reflexivity. Qed.

Lemma ONE_one (f : format) : ONE (prec f) = one f.
Proof. destruct f; reflexivity. Qed.

Lemma in_unit_interval_intro (y : spec_float) :
  nonneg y = true -> SFleb y (ONE (prec binary32)) = true ->
  in_unit_interval binary32 y = true.
Proof.
  intros Hn Hle. unfold in_unit_interval, Float.zero.
  rewrite (leb_zero_nonneg false y Hn). rewrite <- ONE_one. exact Hle.
Qed.

(** One row: with [mn <= x <= mx] numbers of the format [f], and
    [mx - mn] finite and not zero, the rescaled score stored in the
    [float32] column lies between 0 and 1. *)
Lemma rescaled_row_in_unit (f : format) (x mn mx : spec_float) :
  is_finite x = true -> is_finite mn = true -> is_finite mx = true ->
  valid f x = true -> valid f mn = true -> valid f mx = true ->
  (B2Q mn <= B2Q x)%Q -> (B2Q x <= B2Q mx)%Q ->
  is_finite (sub f mx mn) = true -> is_zero (sub f mx mn) = false ->
  in_unit_interval binary32
    (astype f binary32 (div f (sub f x mn) (sub f mx mn))) = true.
Proof.
  intros Fx Fmn Fmx Vx Vmn Vmx Hlo Hhi Fb Zb.
  destruct (rescale_unit (prec f) (emax f) (prec_pos f) (prec_lt_emax f)
              x mn mx Fx Fmn Fmx Vx Vmn Vmx Hlo Hhi Fb Zb)
    as [Hn [Hle [Hf Hv]]].
  fold (sub f x mn) (sub f mx mn) in Hn, Hle, Hf, Hv.
  fold (div f (sub f x mn) (sub f mx mn)) in Hn, Hle, Hf, Hv.
  set (q := div f (sub f x mn) (sub f mx mn)) in *.
  unfold astype. destruct f; cbn [format_eqb].
  - apply in_unit_interval_intro; assumption.
  - destruct (cast_unit (prec binary32) (emax binary32)
                (prec_pos binary32) (prec_lt_emax binary32) q Hn Hf Hv)
      as [Hn' Hle'].
    apply in_unit_interval_intro; assumption.
Qed.

(** [np.max] and [np.min] of finite scores bound every score. *)
Lemma max_min_bounds (f : format) (scores : list spec_float) :
  scores <> [] -> finite_scores f scores ->
  is_finite (max scores) = true /\ valid f (max scores) = true /\
  is_finite (min scores) = true /\ valid f (min scores) = true /\
  (forall x, In x scores ->
     (B2Q (min scores) <= B2Q x)%Q /\ (B2Q x <= B2Q (max scores))%Q).
Proof.
  intros Hne Hfs. destruct scores as [|x0 l]; [congruence|].
  unfold finite_scores in Hfs.
  inversion Hfs as [|? ? [F0 V0] Hl]; subst.
  destruct (fold_maximum_ge (prec f) (emax f) (prec_pos f)
              l x0 F0 V0 Hl) as [M1 [M2 [M3 M4]]].
  destruct (fold_minimum_le (prec f) (emax f) (prec_pos f)
              l x0 F0 V0 Hl) as [N1 [N2 [N3 N4]]].
  cbn [max min].
  repeat split; auto.
  - destruct H as [H|H]; [subst; exact N1|apply N2, H].
  - destruct H as [H|H]; [subst; exact M1|apply M2, H].
Qed.

End UnitInterval.

(** C4 (as the code has it): on a table with at least one row whose
    scores are finite numbers, when [np.isclose(max, min)] is false and
    [max - min] does not overflow, score-mode normalisation rescales each
    value [x] to [(x - min) / (max - min)], computed in the column's
    floating-point format and stored as [float32]: every output lies in
    [0, 1], a row holding the minimum is mapped to 0 and a row holding the
    maximum to 1.  The result is a new table: same row count, same column
    names in the same order, every other column untouched, and the named
    column replaced by the [float32] column of rescaled values, row by
    row in the original order. *)
Theorem normalize_scores_rescale :
  forall (results : Table) (column_ : string) (f : Float.format)
         (scores : list spec_float),
    table_wf results ->
    num_rows results <> 0%nat ->
    column results column_ = Ok (FloatArray f scores) ->
    finite_scores f scores ->
    Float.isclose f (Float.max scores) (Float.min scores) = false ->
    Float.is_finite (Float.sub f (Float.max scores) (Float.min scores)) = true ->
    let rescale := fun x =>
      astype f Float.binary32
        (Float.div f (Float.sub f x (Float.min scores))
           (Float.sub f (Float.max scores) (Float.min scores))) in
    exists i,
      index (column_names results) column_ = Ok i /\
      _normalize_scores results column_ false
      = Ok (with_scores results i column_ (map rescale scores)) /\
      (forall x, In x scores ->
         in_unit_interval Float.binary32 (rescale x) = true) /\
      (forall x, In x scores -> SFeqb x (Float.min scores) = true ->
         Float.is_zero (rescale x) = true) /\
      (forall x, In x scores -> SFeqb x (Float.max scores) = true ->
         rescale x = Float.one Float.binary32) /\
      num_rows (with_scores results i column_ (map rescale scores))
      = num_rows results /\
      column_names (with_scores results i column_ (map rescale scores))
      = column_names results /\
      (forall j, j <> i ->
         nth_error (columns (with_scores results i column_ (map rescale scores))) j
         = nth_error (columns results) j) /\
      nth_error (columns (with_scores results i column_ (map rescale scores))) i
      = Some (column_, FloatArray Float.binary32 (map rescale scores)).
Proof.
  intros results column_ f scores Hwf Hrows Hcol Hfs Hclose Hfin rescale.
  destruct (normalize_scores_unfold results column_ f scores Hwf Hrows Hcol)
    as [i [Hi [Hn Hrun]]].
  rewrite Hclose in Hrun.
  assert (Hne : scores <> []).
  { intros E. subst scores.
    pose proof (column_length results column_ _ Hwf Hcol) as Hl.
    simpl in Hl. congruence. }
  destruct (UnitInterval.max_min_bounds f scores Hne Hfs)
    as [Fmx [Vmx [Fmn [Vmn Hb]]]].
  pose proof (RescaleFacts.not_close_sub_nonzero f _ _ Fmx Fmn Hclose) as Hnz.
  exists i. split; [exact Hi|]. split; [exact Hrun|].
  split; [|split; [|split]].
  - intros x Hx. unfold finite_scores in Hfs. rewrite Forall_forall in Hfs.
    destruct (Hfs x Hx) as [Fx Vx]. destruct (Hb x Hx) as [Hlo Hhi].
    apply UnitInterval.rescaled_row_in_unit; assumption.
  - intros x Hx He. unfold finite_scores in Hfs. rewrite Forall_forall in Hfs.
    destruct (Hfs x Hx) as [Fx _].
    apply RescaleRows.min_row_zero; assumption.
  - intros x Hx He.
    apply RescaleRows.max_row_one; assumption.
  - apply (with_scores_shape results i column_ (FloatArray f scores)), Hn.
Qed.

Lemma normalize_scores_rescale_witness :
  table_wf unsorted_table /\
  Float.isclose Float.binary32 (f32 4) (f32 1) = false /\
  exists i,
    index (column_names unsorted_table) "_distance" = Ok i /\
    _normalize_scores unsorted_table "_distance" false
    = Ok (with_scores unsorted_table i "_distance"
            [f32 1; S754_zero false; S754_finite false 11184811 (-25)]).
Proof.
  assert (Hwf : table_wf unsorted_table) by (repeat constructor).
  split; [exact Hwf|]. split; [vm_compute; reflexivity|].
  destruct (normalize_scores_rescale unsorted_table "_distance"
              Float.binary32 [f32 4; f32 1; f32 2] Hwf)
    as [i [Hi [Hrun _]]].
  - discriminate.
  - reflexivity.
  - repeat constructor.
  - vm_compute. reflexivity.
  - vm_compute. reflexivity.
  - exists i. split; [exact Hi|]. rewrite Hrun. vm_compute. reflexivity.
Defined.

(** * Further properties of the query layer *)

(** ** The builder factory *)

Lemma query_type_of_cases (s : string) :
  (s = "hybrid" /\ query_type_of s = qt_hybrid) \/
  (s = "fts" /\ query_type_of s = qt_fts) \/
  (s = "vector" /\ query_type_of s = qt_vector) \/
  (s = "auto" /\ query_type_of s = qt_auto) \/
  (s <> "hybrid" /\ s <> "fts" /\ s <> "vector" /\ s <> "auto" /\
   query_type_of s = qt_other s).
Proof.
  unfold query_type_of.
  destruct (String.eqb_spec s "hybrid") as [->|H1]; [left; split; reflexivity|].
  destruct (String.eqb_spec s "fts") as [->|H2];
    [right; left; split; reflexivity|].
  destruct (String.eqb_spec s "vector") as [->|H3];
    [right; right; left; split; reflexivity|].
  destruct (String.eqb_spec s "auto") as [->|H4];
    [right; right; right; left; split; reflexivity|].
  right; right; right; right. repeat split; assumption.
Qed.

(** Where the vector of a vector builder made by [create] comes from. *)
Lemma create_vector_inv (dr : Reranker) (table : LanceTable)
    (query : PyQuery) (query_type col : string)
    (vb : LanceVectorQueryBuilder) :
  create dr table (Some query) query_type col = Ok (VectorBuilder vb) ->
  (query_type = "vector" \/ query_type = "auto") /\
  exists v,
    vb = LanceVectorQueryBuilder_.__init__ table (QNdarray (to_float32 v))
           col (as_str query) /\
    ((query = QList v \/ query = QNdarray v) \/
     (is_list_or_ndarray query = false /\
      exists conf rest emb,
        get (embedding_functions table) col = Some conf /\
        compute_query_embeddings_with_retry conf query = Ok (emb :: rest) /\
        (emb = QList v \/ emb = QNdarray v))).
Proof.
  unfold create.
  destruct (query_type_of_cases query_type)
    as [[-> E]|[[-> E]|[[-> E]|[[-> E]|[_ [_ [_ [_ E]]]]]]]]; rewrite E.
  - destruct (LanceHybridQueryBuilder_.__init__ _ _ _ _); discriminate.
  - destruct query; simpl; discriminate.
  - intros H. split; [left; reflexivity|].
    unfold LanceQueryBuilder_._resolve_query,
      LanceQueryBuilder_._query_to_vector in H.
    destruct query; simpl in H;
      try (inversion H; subst; eexists; (split; [reflexivity|]); left;
           first [left; reflexivity | right; reflexivity]);
      match type of H with
      | context [compute_query_embeddings_with_retry _ ?q] =>
          via_embedding table col q H
      end.
  - intros H. split; [right; reflexivity|].
    unfold LanceQueryBuilder_._resolve_query in H.
    destruct query; simpl in H;
      try (inversion H; subst; eexists; (split; [reflexivity|]); left;
           first [left; reflexivity | right; reflexivity]);
      try (destruct (LanceHybridQueryBuilder_.__init__ _ _ _ _);
           discriminate H);
      match type of H with
      | context [compute_query_embeddings_with_retry _ ?q] =>
          via_embedding table col q H
      end.
  - simpl. discriminate.
Qed.

(** X1: without a query, [create] returns the plain builder whatever the
    query type and the vector column are (nothing is validated and no
    embedding function is consulted); executing it scans the table with
    limit 10, no projection and no filter, and after [select], [where] and
    [limit] the scan gets the projection, the clause, and the limit with
    zero and negative values turned into no limit. *)
Theorem create_without_query_scans :
  forall (dr : Reranker) (table : LanceTable) (query_type col : string),
  exists b,
    create dr table None query_type col = Ok (EmptyBuilder b) /\
    LanceEmptyQueryBuilder_.to_arrow b
    = to_lance_to_table table None None (Some 10%Z) /\
    forall (cols : Columns) (clause : string) (prefilter : bool)
           (l : option Z),
      LanceEmptyQueryBuilder_.to_arrow
        (LanceQueryBuilder_.limit
           (LanceQueryBuilder_.where_
              (LanceQueryBuilder_.select b cols) clause prefilter) l)
      = to_lance_to_table table (Some cols) (Some clause)
          (normalised_limit l).
Proof.
  intros dr table query_type col.
  exists (LanceQueryBuilder_.__init__ table).
  split; [reflexivity|]. split; [reflexivity|].
  intros cols clause prefilter [z|]; [|reflexivity].
  unfold LanceQueryBuilder_.limit, normalised_limit.
  rewrite Z.ltb_antisym.
  destruct (z <=? 0)%Z; reflexivity.
Qed.

(** X2: whenever [create] returns a vector builder, the query type was
    [vector] or [auto]; the builder holds a float32 array, which is the
    caller's list or array rounded to float32 or, for any other query, the
    first embedding the function bound to the vector column computed; it
    remembers the query text exactly when the query was a string; and,
    when the vector has at least one entry, executing it asks the table
    for the 10 nearest rows by L2 distance with 20 probes, no filter, no
    projection and no row ids, and returns the table's answer. *)
Theorem create_vector_builder :
  forall (dr : Reranker) (table : LanceTable) (query : PyQuery)
         (query_type col : string) (vb : LanceVectorQueryBuilder),
    create dr table (Some query) query_type col = Ok (VectorBuilder vb) ->
    (query_type = "vector" \/ query_type = "auto") /\
    exists v,
      vq_query vb = QNdarray (to_float32 v) /\
      vq_str_query vb = as_str query /\
      ((query = QList v \/ query = QNdarray v) \/
       (is_list_or_ndarray query = false /\
        exists conf rest emb,
          get (embedding_functions table) col = Some conf /\
          compute_query_embeddings_with_retry conf query
            = Ok (emb :: rest) /\
          (emb = QList v \/ emb = QNdarray v))) /\
      (nonempty_vector (vq_query vb) = true ->
       LanceVectorQueryBuilder_.make_query vb
       = Ok (mkQuery (Some col) (QNdarray (to_float32 v)) None false 10
               "L2" None 20 None false) /\
       LanceVectorQueryBuilder_.to_arrow vb
       = _execute_query table
           (mkQuery (Some col) (QNdarray (to_float32 v)) None false 10
              "L2" None 20 None false)).
Proof.
  intros dr table query query_type col vb H.
  destruct (create_vector_inv dr table query query_type col vb H)
    as [Hqt [v [-> Hv]]].
  split; [exact Hqt|].
  exists v. split; [reflexivity|]. split; [reflexivity|].
  split; [exact Hv|].
  intros _. split; [reflexivity|].
  unfold LanceVectorQueryBuilder_.to_arrow. cbn.
  destruct (_execute_query table _); reflexivity.
Qed.

Lemma create_vector_builder_witness :
  exists vb,
    create keep_vector_reranker sample_table (Some (QStr "hello")) "auto"
      "vector" = Ok (VectorBuilder vb) /\
    vq_str_query vb = Some "hello" /\
    nonempty_vector (vq_query vb) = true /\
    LanceVectorQueryBuilder_.make_query vb
    = Ok (mkQuery (Some "vector") (QNdarray (to_float32 [f32 1; f32 0]))
            None false 10 "L2" None 20 None false).
Proof.
  eexists. split; [reflexivity|].
  destruct (create_vector_builder keep_vector_reranker sample_table
              (QStr "hello") "auto" "vector" _ eq_refl)
    as [_ [v [Hq [Hs [_ Hm]]]]].
  split; [exact Hs|]. split; [reflexivity|].
  destruct (Hm eq_refl) as [Hm1 _].
  rewrite Hm1. inversion Hq. reflexivity.
Defined.

(** X3: whenever [create] returns a full-text builder, it is a fresh one
    (limit 10, no phrase query, no reranker) for a text [s] that is the
    caller's string, under query type [fts], or under [auto] when no
    embedding function is bound to the vector column; the only other way
    is an embedding function that itself returned the string [s]. *)
Theorem create_fts_builder :
  forall (dr : Reranker) (table : LanceTable) (query : PyQuery)
         (query_type col : string) (fb : LanceFtsQueryBuilder),
    create dr table (Some query) query_type col = Ok (FtsBuilder fb) ->
    exists s,
      fb = LanceFtsQueryBuilder_.__init__ table s /\
      ((query = QStr s /\
        (query_type = "fts" \/
         (query_type = "auto" /\
          get (embedding_functions table) col = None))) \/
       ((query_type = "vector" \/ query_type = "auto") /\
        is_list_or_ndarray query = false /\
        exists conf rest,
          get (embedding_functions table) col = Some conf /\
          compute_query_embeddings_with_retry conf query
            = Ok (QStr s :: rest))).
Proof.
  intros dr table query query_type col fb. unfold create.
  destruct (query_type_of_cases query_type)
    as [[-> E]|[[-> E]|[[-> E]|[[-> E]|[_ [_ [_ [_ E]]]]]]]]; rewrite E.
  - destruct (LanceHybridQueryBuilder_.__init__ _ _ _ _); discriminate.
  - destruct query; simpl; try discriminate.
    intros H; inversion H; subst. exists s. split; [reflexivity|].
    left. split; [reflexivity|]. left; reflexivity.
  - intros H.
    unfold LanceQueryBuilder_._resolve_query,
      LanceQueryBuilder_._query_to_vector in H.
    destruct query; simpl in H; try discriminate H;
      (destruct (get (embedding_functions table) col) as [conf|] eqn:Hg;
         [|discriminate H]);
      match type of H with
      | context [compute_query_embeddings_with_retry _ ?q] =>
          destruct (compute_query_embeddings_with_retry conf q)
            as [[|emb rest]|?] eqn:Hc; try discriminate H
      end;
      simpl in H; destruct emb; try discriminate H;
      inversion H; subst; eexists; (split; [reflexivity|]); right;
      (split; [left; reflexivity|]); (split; [reflexivity|]);
      exists conf, rest; (split; [reflexivity|]); exact Hc.
  - intros H.
    unfold LanceQueryBuilder_._resolve_query in H.
    destruct query; simpl in H; try discriminate H;
      try (destruct (LanceHybridQueryBuilder_.__init__ _ _ _ _);
           discriminate H);
      (destruct (get (embedding_functions table) col) as [conf|] eqn:Hg;
         [|simpl in H; try discriminate H;
           inversion H; subst; eexists; (split; [reflexivity|]); left;
           (split; [reflexivity|]); right; split; reflexivity]);
      match type of H with
      | context [compute_query_embeddings_with_retry _ ?q] =>
          destruct (compute_query_embeddings_with_retry conf q)
            as [[|emb rest]|?] eqn:Hc; try discriminate H
      end;
      simpl in H; destruct emb; try discriminate H;
      inversion H; subst; eexists; (split; [reflexivity|]); right;
      (split; [right; reflexivity|]); (split; [reflexivity|]);
      exists conf, rest; (split; [reflexivity|]); exact Hc.
  - simpl. discriminate.
Qed.

Lemma create_fts_builder_witness :
  exists s,
    LanceFtsQueryBuilder_.__init__ bare_table "hello"
    = LanceFtsQueryBuilder_.__init__ bare_table s /\
    ((QStr "hello" = QStr s /\
      ("auto" = "fts" \/
       ("auto" = "auto" /\
        get (embedding_functions bare_table) "vector" = None))) \/
     (("auto" = "vector" \/ "auto" = "auto") /\
      is_list_or_ndarray (QStr "hello") = false /\
      exists conf rest,
        get (embedding_functions bare_table) "vector" = Some conf /\
        compute_query_embeddings_with_retry conf (QStr "hello")
          = Ok (QStr s :: rest))).
Proof.
  apply (create_fts_builder keep_vector_reranker bare_table (QStr "hello")
           "auto" "vector").
  reflexivity.
Defined.

(** X4: whenever [create] returns a hybrid builder, the query type was
    [hybrid], or it was [auto] and the query a tuple; the builder is the
    one the hybrid constructor makes for the query as given, so the table
    reports a full-text index path. *)
Theorem create_hybrid_builder :
  forall (dr : Reranker) (table : LanceTable) (query : PyQuery)
         (query_type col : string) (hb : LanceHybridQueryBuilder),
    create dr table (Some query) query_type col = Ok (HybridBuilder hb) ->
    (query_type = "hybrid" \/
     (query_type = "auto" /\ exists items, query = QTuple items)) /\
    LanceHybridQueryBuilder_.__init__ dr table query col = Ok hb /\
    exists index_path, _get_fts_index_path table = Some index_path.
Proof.
  intros dr table query query_type col hb. unfold create.
  assert (Hinit : forall q,
            (b <- LanceHybridQueryBuilder_.__init__ dr table q col ;;
             Ok (HybridBuilder b)) = Ok (HybridBuilder hb) ->
            LanceHybridQueryBuilder_.__init__ dr table q col = Ok hb /\
            exists index_path, _get_fts_index_path table = Some index_path).
  { intros q H.
    destruct (LanceHybridQueryBuilder_.__init__ dr table q col) as [b|e]
      eqn:Hb; simpl in H; [|discriminate H].
    inversion H; subst. split; [reflexivity|].
    unfold LanceHybridQueryBuilder_.__init__,
      LanceHybridQueryBuilder_._validate_fts_index in Hb.
    destruct (_get_fts_index_path table) as [p|]; [|discriminate Hb].
    exists p; reflexivity. }
  destruct (query_type_of_cases query_type)
    as [[-> E]|[[-> E]|[[-> E]|[[-> E]|[_ [_ [_ [_ E]]]]]]]]; rewrite E.
  - intros H. split; [left; reflexivity|]. apply Hinit, H.
  - destruct query; simpl; discriminate.
  - intros H.
    unfold LanceQueryBuilder_._resolve_query,
      LanceQueryBuilder_._query_to_vector in H.
    destruct query; simpl in H; try discriminate H;
      (destruct (get (embedding_functions table) col) as [conf|] eqn:Hg;
         [|discriminate H]);
      match type of H with
      | context [compute_query_embeddings_with_retry _ ?q] =>
          destruct (compute_query_embeddings_with_retry conf q)
            as [[|emb rest]|?] eqn:Hc; try discriminate H
      end;
      simpl in H; destruct emb; discriminate H.
  - intros H.
    unfold LanceQueryBuilder_._resolve_query in H.
    destruct query; simpl in H; try discriminate H;
      try (split; [right; split; [reflexivity|eexists; reflexivity]|];
           apply Hinit, H);
      (destruct (get (embedding_functions table) col) as [conf|] eqn:Hg;
         [|simpl in H; discriminate H]);
      match type of H with
      | context [compute_query_embeddings_with_retry _ ?q] =>
          destruct (compute_query_embeddings_with_retry conf q)
            as [[|emb rest]|?] eqn:Hc; try discriminate H
      end;
      simpl in H; destruct emb; discriminate H.
  - simpl. discriminate.
Qed.

Lemma create_hybrid_builder_witness :
  ("auto" = "hybrid" \/
   ("auto" = "auto" /\
    exists items, QTuple [QList [f32 1; f32 0]; QStr "hello"] = QTuple items)) /\
  LanceHybridQueryBuilder_.__init__ keep_vector_reranker sample_table
    (QTuple [QList [f32 1; f32 0]; QStr "hello"]) "vector"
  = Ok sample_hybrid /\
  exists index_path, _get_fts_index_path sample_table = Some index_path.
Proof.
  apply (create_hybrid_builder keep_vector_reranker sample_table
           (QTuple [QList [f32 1; f32 0]; QStr "hello"]) "auto" "vector").
  reflexivity.
Defined.

(** X5: given a query, [create] refuses every query type other than
    [vector], [fts], [hybrid] and [auto] with a [ValueError], before any
    embedding function or index is looked at; the same query type with no
    query is accepted. *)
Theorem create_unknown_query_type :
  forall (dr : Reranker) (table : LanceTable) (query : PyQuery)
         (query_type col : string),
    query_type <> "vector" -> query_type <> "fts" ->
    query_type <> "hybrid" -> query_type <> "auto" ->
    create dr table (Some query) query_type col
    = Raise (ValueError
        "Invalid query_type, must be 'vector', 'fts', or 'auto'") /\
    exists b, create dr table None query_type col = Ok (EmptyBuilder b).
Proof.
  intros dr table query query_type col Hv Hf Hh Ha.
  split; [|eexists; reflexivity].
  unfold create.
  destruct (query_type_of_cases query_type)
    as [[-> E]|[[-> E]|[[-> E]|[[-> E]|[_ [_ [_ [_ E]]]]]]]];
    try congruence.
  rewrite E. reflexivity.
Qed.

Lemma create_unknown_query_type_witness :
  create keep_vector_reranker sample_table (Some (QStr "hello")) "bm25"
    "vector"
  = Raise (ValueError
      "Invalid query_type, must be 'vector', 'fts', or 'auto'") /\
  exists b,
    create keep_vector_reranker sample_table None "bm25" "vector"
    = Ok (EmptyBuilder b).
Proof.
  apply (create_unknown_query_type keep_vector_reranker sample_table
           (QStr "hello") "bm25" "vector"); discriminate.
Defined.

(** ** Reranking a vector search *)

(** X6: [rerank] on a vector builder succeeds exactly when a query text
    is at hand: a string passed as [query_string], or, with none passed,
    the text the builder remembers.  On success the builder holds the
    reranker and the passed text (the remembered one when none was
    passed); nothing else of it changes. *)
Theorem vector_rerank_needs_text :
  forall (self : LanceVectorQueryBuilder) (reranker : Reranker)
         (query_string : option PyQuery),
    let self' := fst (LanceVectorQueryBuilder_.rerank self reranker
                        query_string) in
    let outcome := snd (LanceVectorQueryBuilder_.rerank self reranker
                          query_string) in
    (outcome = Ok tt <->
     (exists s, query_string = Some (QStr s)) \/
     (query_string = None /\ vq_str_query self <> None)) /\
    (outcome = Ok tt ->
     self' = LanceVectorQueryBuilder_.with_str_query
               (LanceVectorQueryBuilder_.with_reranker self (Some reranker))
               (match query_string with
                | Some (QStr s) => Some s
                | _ => vq_str_query self
                end)) /\
    (outcome <> Ok tt -> exists msg, outcome = Raise (ValueError msg)).
Proof.
  intros self reranker query_string self' outcome.
  unfold self', outcome, LanceVectorQueryBuilder_.rerank. clear self' outcome.
  destruct self as [b q m n rf vc pf rr [s0|]];
    destruct query_string as [[s|v|v|v|v|items|r]|]; cbn.
  all: (split; [split|split]);
    first [ intros _; reflexivity
          | intros H; discriminate H
          | intros H; exfalso; apply H; reflexivity
          | intros _; eexists; reflexivity
          | intros _; left; eexists; reflexivity
          | intros _; right; split; [reflexivity|discriminate]
          | intros [[s' H]|[H1 H2]]; try discriminate; congruence ].
Qed.

(** X7: [rerank] stores the reranker before it checks its arguments.  When
    it raises for want of a query text, the builder the caller holds has
    the reranker installed all the same, and a later execution hands the
    reranker the search results with no query text. *)
Theorem vector_rerank_failure_installs_reranker :
  forall (self : LanceVectorQueryBuilder) (reranker : Reranker),
    vq_str_query self = None ->
    nonempty_vector (vq_query self) = true ->
    let self' := fst (LanceVectorQueryBuilder_.rerank self reranker None) in
    (exists msg,
       snd (LanceVectorQueryBuilder_.rerank self reranker None)
       = Raise (ValueError msg)) /\
    vq_reranker self' = Some reranker /\
    LanceVectorQueryBuilder_.to_arrow self'
    = (query <- LanceVectorQueryBuilder_.make_query self ;;
       result_set <- _execute_query (_table (vq_base self)) query ;;
       rerank_vector reranker None result_set).
Proof.
  intros self reranker Hs _ self'. unfold self'. clear self'.
  unfold LanceVectorQueryBuilder_.rerank. cbn. rewrite Hs. cbn.
  split; [eexists; reflexivity|]. split; [reflexivity|].
  unfold LanceVectorQueryBuilder_.to_arrow,
    LanceVectorQueryBuilder_.make_query. cbn. rewrite Hs. reflexivity.
Qed.

Lemma vector_rerank_failure_installs_reranker_witness :
  let self := LanceVectorQueryBuilder_.__init__ sample_table
                (QList [f32 1; f32 0]) "vector" None in
  let self' := fst (LanceVectorQueryBuilder_.rerank self
                      keep_vector_reranker None) in
  (exists msg,
     snd (LanceVectorQueryBuilder_.rerank self keep_vector_reranker None)
     = Raise (ValueError msg)) /\
  vq_reranker self' = Some keep_vector_reranker /\
  LanceVectorQueryBuilder_.to_arrow self'
  = (query <- LanceVectorQueryBuilder_.make_query self ;;
     result_set <- _execute_query (_table (vq_base self)) query ;;
     rerank_vector keep_vector_reranker None result_set).
Proof.
  apply (vector_rerank_failure_installs_reranker
           (LanceVectorQueryBuilder_.__init__ sample_table
              (QList [f32 1; f32 0]) "vector" None)
           keep_vector_reranker); reflexivity.
Defined.

(** X8: a vector search that [create] made from a text query can be
    reranked without naming the text again, and its execution hands the
    reranker the search results together with that text; one made from
    anything else makes [rerank] without a query string raise a
    [ValueError]. *)
Theorem created_search_reranks_with_its_text :
  forall (dr : Reranker) (table : LanceTable) (query : PyQuery)
         (query_type col : string) (vb : LanceVectorQueryBuilder)
         (reranker : Reranker),
    create dr table (Some query) query_type col = Ok (VectorBuilder vb) ->
    nonempty_vector (vq_query vb) = true ->
    match query with
    | QStr s =>
        snd (LanceVectorQueryBuilder_.rerank vb reranker None) = Ok tt /\
        LanceVectorQueryBuilder_.to_arrow
          (fst (LanceVectorQueryBuilder_.rerank vb reranker None))
        = (q <- LanceVectorQueryBuilder_.make_query vb ;;
           result_set <- _execute_query table q ;;
           rerank_vector reranker (Some s) result_set)
    | _ =>
        exists msg,
          snd (LanceVectorQueryBuilder_.rerank vb reranker None)
          = Raise (ValueError msg)
    end.
Proof.
  intros dr table query query_type col vb reranker H _.
  destruct (create_vector_inv dr table query query_type col vb H)
    as [_ [v [-> _]]].
  destruct query; cbn; [split; reflexivity | eexists; reflexivity ..].
Qed.

Lemma created_search_reranks_with_its_text_witness :
  exists vb,
    create keep_vector_reranker sample_table (Some (QStr "hello")) "vector"
      "vector" = Ok (VectorBuilder vb) /\
    snd (LanceVectorQueryBuilder_.rerank vb keep_vector_reranker None)
    = Ok tt /\
    LanceVectorQueryBuilder_.to_arrow
      (fst (LanceVectorQueryBuilder_.rerank vb keep_vector_reranker None))
    = (q <- LanceVectorQueryBuilder_.make_query vb ;;
       result_set <- _execute_query sample_table q ;;
       rerank_vector keep_vector_reranker (Some "hello") result_set).
Proof.
  eexists. split; [reflexivity|].
  apply (created_search_reranks_with_its_text keep_vector_reranker
           sample_table (QStr "hello") "vector" "vector" _
           keep_vector_reranker eq_refl eq_refl).
Defined.

(** X9: a vector builder whose limit was removed ([limit] with [None],
    zero or a negative value) cannot be executed: whatever the table would
    answer, building the [Query] raises first. *)
Theorem vector_limit_removed_raises :
  forall (self : LanceVectorQueryBuilder) (l : option Z),
    normalised_limit l = None ->
    _limit (vq_base (LanceVectorQueryBuilder_.limit self l)) = None /\
    exists e,
      LanceVectorQueryBuilder_.to_arrow
        (LanceVectorQueryBuilder_.limit self l) = Raise e.
Proof.
  intros self l Hl.
  assert (H : _limit (vq_base (LanceVectorQueryBuilder_.limit self l)) = None).
  { unfold LanceVectorQueryBuilder_.limit. cbn.
    rewrite base_limit_normalises.
    destruct l as [z|]; [|reflexivity].
    unfold normalised_limit in Hl. rewrite Z.ltb_antisym in Hl.
    destruct (z <=? 0)%Z; [reflexivity|discriminate Hl]. }
  split; [exact H|].
  unfold LanceVectorQueryBuilder_.to_arrow,
    LanceVectorQueryBuilder_.make_query.
  rewrite H. eexists. reflexivity.
Qed.

Lemma vector_limit_removed_raises_witness :
  _limit (vq_base (LanceVectorQueryBuilder_.limit
                     (_vector_query sample_hybrid) (Some 0%Z))) = None /\
  exists e,
    LanceVectorQueryBuilder_.to_arrow
      (LanceVectorQueryBuilder_.limit (_vector_query sample_hybrid)
         (Some 0%Z)) = Raise e.
Proof.
  apply (vector_limit_removed_raises (_vector_query sample_hybrid)
           (Some 0%Z)).
  reflexivity.
Defined.

(** ** The full-text executor: phrase queries, filters and row ids *)

Lemma replace_char_length (old new : Ascii.ascii) (s : string) :
  String.length (replace_char old new s) = String.length s.
Proof. induction s as [|c s IH]; simpl; [reflexivity|]. rewrite IH. reflexivity. Qed.

Lemma replace_char_get (old new : Ascii.ascii) (s : string) (i : nat) :
  String.get i (replace_char old new s)
  = match String.get i s with
    | Some c => Some (if Ascii.eqb c old then new else c)
    | None => None
    end.
Proof.
  revert i. induction s as [|c s IH]; intros [|i]; simpl; try reflexivity.
  apply IH.
Qed.

(** X10: the text a full-text builder hands to the index.  Without
    [phrase_query] it is the query as given.  With it, it is the query
    between two double quotes, with every double quote of the query itself
    turned into a single quote and every other character kept in place: no
    double quote is left between the enclosing ones.  The text kept for
    the reranker is the query as given in both cases. *)
Theorem phrase_query_text :
  forall (self : LanceFtsQueryBuilder),
    LanceFtsQueryBuilder_.search_text
      (LanceFtsQueryBuilder_.phrase_query self false) = fq_query self /\
    fq_query (LanceFtsQueryBuilder_.phrase_query self true) = fq_query self /\
    exists body,
      LanceFtsQueryBuilder_.search_text
        (LanceFtsQueryBuilder_.phrase_query self true)
      = String double_quote (body ++ String double_quote EmptyString) /\
      String.length body = String.length (fq_query self) /\
      (forall i,
         String.get i body
         = match String.get i (fq_query self) with
           | Some c => Some (if Ascii.eqb c double_quote
                             then single_quote else c)
           | None => None
           end) /\
      (forall i, String.get i body <> Some double_quote).
Proof.
  intros self. split; [reflexivity|]. split; [reflexivity|].
  exists (replace_char double_quote single_quote (fq_query self)).
  split; [reflexivity|]. split; [apply replace_char_length|].
  split; [intros i; apply replace_char_get|].
  intros i. rewrite replace_char_get.
  destruct (String.get i (fq_query self)) as [c|]; [|discriminate].
  destruct (Ascii.eqb c double_quote) eqn:E.
  - intros H. inversion H.
  - intros H. inversion H; subst.
    rewrite Ascii.eqb_refl in E. discriminate E.
Qed.

Lemma take_list_length {A : Type} (l : list A) (indexer : list nat)
    (r : list A) :
  take_list l indexer = Ok r -> length r = length indexer.
Proof.
  revert r. induction indexer as [|i idx IH]; intros r H; simpl in H.
  - inversion H; reflexivity.
  - destruct (nth_error l i); [|discriminate H].
    destruct (take_list l idx) as [r'|e]; [|discriminate H].
    simpl in H. inversion H; subst. simpl. rewrite (IH r' eq_refl).
    reflexivity.
Qed.

Lemma take_list_incl {A : Type} (l : list A) (indexer : list nat)
    (r : list A) :
  take_list l indexer = Ok r -> incl r l.
Proof.
  revert r. induction indexer as [|i idx IH]; intros r H; simpl in H.
  - inversion H. intros x [].
  - destruct (nth_error l i) as [x|] eqn:Hx; [|discriminate H].
    destruct (take_list l idx) as [r'|e]; [|discriminate H].
    simpl in H. inversion H; subst.
    intros y [<-|Hy].
    + apply (nth_error_In _ _ Hx).
    + apply (IH r' eq_refl), Hy.
Qed.

Lemma drop_removes (t t' : Table) (names : list string) (n : string) :
  drop t names = Ok t' -> In n names -> ~ In n (column_names t').
Proof.
  unfold drop. destruct (filter _ names); [|discriminate].
  intros H Hn; inversion H; subst; clear H.
  unfold column_names. simpl. intros Hin.
  apply in_map_iff in Hin. destruct Hin as [c [Hc Hf]].
  apply filter_In in Hf. destruct Hf as [_ Hf].
  apply negb_true_iff in Hf.
  assert (Ht : existsb (String.eqb (fst c)) names = true).
  { apply existsb_exists. exists n. split; [exact Hn|].
    rewrite Hc. apply String.eqb_refl. }
  rewrite Ht in Hf. discriminate Hf.
Qed.

Lemma take_num_rows (t t' : Table) (indexer : list nat) :
  take t indexer = Ok t' -> num_rows t' = length indexer.
Proof.
  unfold take. destruct (take_columns (columns t) indexer); [|discriminate].
  simpl. intros H; inversion H; reflexivity.
Qed.

Lemma as_indexer_length (a : Array) (indexer : list nat) :
  as_indexer a = Ok indexer -> length indexer = array_length a.
Proof.
  destruct a; simpl; try discriminate; intros H; inversion H;
    apply length_map.
Qed.

(** X11: the [where] step of the full-text executor.  Whenever it
    succeeds, the helper column it added is gone from the table, every row
    id it keeps is one it was given, and there is one row id per row of
    the table: through duckdb always, through a temporary lance dataset
    when [to_table] answers with a table whose columns all have the
    table's row count. *)
Theorem fts_where_keeps_row_ids_aligned :
  forall (env : Environment) (clause : string) (output_tbl : Table)
         (row_ids : list N) (t' : Table) (ids' : list N),
    (duckdb_installed env = false ->
     forall t0 t1,
       append_column output_tbl LanceFtsQueryBuilder_.tmp_name
         (Int64Array (map Z.of_nat (seq 0 (len output_tbl)))) = Ok t0 ->
       lance_filter env clause t0 = Ok t1 -> table_wf t1) ->
    LanceFtsQueryBuilder_.apply_where env clause output_tbl row_ids
    = Ok (t', ids') ->
    length ids' = num_rows t' /\
    incl ids' row_ids /\
    ~ In LanceFtsQueryBuilder_.tmp_name (column_names t').
Proof.
  intros env clause output_tbl row_ids t' ids' Hwf H.
  unfold LanceFtsQueryBuilder_.apply_where in H.
  destruct (append_column output_tbl _ _) as [t1|e] eqn:Happ;
    [|discriminate H].
  simpl in H.
  destruct (duckdb_installed env).
  - destruct (duckdb_select_where env _ clause t1) as [indexer|e];
      [|discriminate H]. simpl in H.
    destruct (take t1 indexer) as [t2|e] eqn:Ht; [|discriminate H].
    simpl in H.
    destruct (drop t2 _) as [t3|e] eqn:Hd; [|discriminate H]. simpl in H.
    destruct (take_list row_ids indexer) as [ids|e] eqn:Hi;
      [|discriminate H].
    simpl in H. inversion H; subst.
    split; [|split].
    + rewrite (take_list_length _ _ _ Hi), (drop_num_rows _ _ _ Hd).
      symmetry. apply (take_num_rows _ _ _ Ht).
    + apply (take_list_incl _ _ _ Hi).
    + apply (drop_removes _ _ _ _ Hd). left; reflexivity.
  - destruct (lance_filter env clause t1) as [t2|e] eqn:Hf;
      [|discriminate H]. simpl in H.
    destruct (column t2 _) as [a|e] eqn:Hc; [|discriminate H]. simpl in H.
    destruct (as_indexer a) as [indexer|e] eqn:Ha; [|discriminate H].
    simpl in H.
    destruct (take_list row_ids indexer) as [ids|e] eqn:Hi;
      [|discriminate H].
    simpl in H.
    destruct (drop t2 _) as [t3|e] eqn:Hd; [|discriminate H]. simpl in H.
    inversion H; subst.
    split; [|split].
    + rewrite (take_list_length _ _ _ Hi), (drop_num_rows _ _ _ Hd),
        (as_indexer_length _ _ Ha).
      apply (column_length t2 LanceFtsQueryBuilder_.tmp_name a);
        [|exact Hc].
      apply (Hwf eq_refl t1 t2 eq_refl Hf).
    + apply (take_list_incl _ _ _ Hi).
    + apply (drop_removes _ _ _ _ Hd). left; reflexivity.
Qed.

Lemma fts_where_keeps_row_ids_aligned_witness :
  exists t' ids',
    LanceFtsQueryBuilder_.apply_where sample_env_without_duckdb "price > 1"
      sample_fts_output [2%N; 3%N; 4%N] = Ok (t', ids') /\
    length ids' = num_rows t' /\
    incl ids' [2%N; 3%N; 4%N] /\
    ~ In LanceFtsQueryBuilder_.tmp_name (column_names t').
Proof.
  eexists. eexists. split; [reflexivity|].
  apply (fts_where_keeps_row_ids_aligned sample_env_without_duckdb
           "price > 1" sample_fts_output [2%N; 3%N; 4%N]).
  - intros _ t0 t1 H0 H1. vm_compute in H0. inversion H0; subst.
    vm_compute in H1. inversion H1; subst.
    repeat constructor.
  - reflexivity.
Defined.

Lemma append_column_inv (t t' : Table) (name : string) (a : Array) :
  append_column t name a = Ok t' ->
  columns t' = (columns t ++ [(name, a)])%list /\
  num_rows t' = num_rows t /\
  array_length a = num_rows t.
Proof.
  unfold append_column.
  destruct (array_length a =? num_rows t)%nat eqn:E; simpl; [|discriminate].
  intros H; inversion H; subst. simpl.
  apply Nat.eqb_eq in E. repeat split; assumption.
Qed.

(** X12: a full-text search that asks for row ids, has no reranker and
    finds at least one row.  Whenever it returns a table, the last column
    of the table is the [uint64] column [_rowid]; it holds one id per row
    and only ids the index search returned.  Without a [where] clause
    these are all the ids the index returned, in its order, and the
    columns before [_rowid] are those of the rows taken from the dataset
    followed by the [score] column with the scores of the index. *)
Theorem fts_row_ids_come_from_the_index :
  forall (env : Environment) (self : LanceFtsQueryBuilder)
         (index_path : string) (row_ids : list N)
         (scores : list spec_float) (t : Table),
    tantivy_installed env = true ->
    _get_fts_index_path (_table (fq_base self)) = Some index_path ->
    path_exists env index_path = true ->
    search_index env index_path (LanceFtsQueryBuilder_.search_text self)
      (_limit (fq_base self)) = Ok (row_ids, scores) ->
    row_ids <> [] ->
    _with_row_id (fq_base self) = true ->
    fq_reranker self = None ->
    LanceFtsQueryBuilder_.to_arrow env self = Ok t ->
    exists t0 ids,
      columns t = (columns t0 ++ [("_rowid", UInt64Array ids)])%list /\
      num_rows t = num_rows t0 /\
      length ids = num_rows t /\
      incl ids row_ids /\
      (_where (fq_base self) = None ->
       ids = row_ids /\
       exists taken,
         to_lance_take (_table (fq_base self)) row_ids
           (_columns (fq_base self)) = Ok taken /\
         columns t0
         = (columns taken ++ [("score", FloatArray Float.binary64 scores)])%list).
Proof.
  intros env self index_path row_ids scores t Htan Hpath Hex Hsearch Hne
    Hrow Hrr H.
  unfold LanceFtsQueryBuilder_.to_arrow in H.
  rewrite Htan, Hpath in H. cbn [negb] in H. rewrite Hex in H.
  cbn [negb] in H. rewrite Hsearch in H. cbn [bind] in H.
  destruct row_ids as [|r0 rs]; [contradiction Hne; reflexivity|].
  cbn [length Nat.eqb] in H.
  destruct (to_lance_take _ _ _) as [taken|e] eqn:Htake; [|discriminate H].
  cbn [bind] in H.
  destruct (append_column taken "score" _) as [t1|e] eqn:Hscore;
    [|discriminate H].
  cbn [bind] in H. rewrite Hrow, Hrr in H.
  destruct (_where (fq_base self)) as [w|] eqn:Hw.
  - destruct (LanceFtsQueryBuilder_.apply_where env w t1 (r0 :: rs))
      as [[t2 ids]|e] eqn:Hap; [|discriminate H].
    cbn [bind] in H.
    destruct (append_column t2 "_rowid" _) as [t3|e] eqn:Hid;
      [|discriminate H].
    cbn [bind] in H. inversion H; subst.
    destruct (append_column_inv _ _ _ _ Hid) as [Hc [Hn Hl]].
    exists t2, ids. split; [exact Hc|]. split; [exact Hn|].
    split; [rewrite Hn; exact Hl|]. split; [|intros Hnone; discriminate].
    unfold LanceFtsQueryBuilder_.apply_where in Hap.
    destruct (append_column t1 _ _) as [t1'|e]; [|discriminate Hap].
    cbn [bind] in Hap.
    destruct (duckdb_installed env).
    + destruct (duckdb_select_where env _ w t1') as [indexer|e];
        [|discriminate Hap]. cbn [bind] in Hap.
      destruct (take t1' indexer) as [t2'|e]; [|discriminate Hap].
      cbn [bind] in Hap.
      destruct (drop t2' _) as [t3'|e]; [|discriminate Hap].
      cbn [bind] in Hap.
      destruct (take_list (r0 :: rs) indexer) as [ids0|e] eqn:Hi;
        [|discriminate Hap].
      cbn [bind] in Hap. inversion Hap; subst.
      apply (take_list_incl _ _ _ Hi).
    + destruct (lance_filter env w t1') as [t2'|e]; [|discriminate Hap].
      cbn [bind] in Hap.
      destruct (column t2' _) as [a|e]; [|discriminate Hap].
      cbn [bind] in Hap.
      destruct (as_indexer a) as [indexer|e]; [|discriminate Hap].
      cbn [bind] in Hap.
      destruct (take_list (r0 :: rs) indexer) as [ids0|e] eqn:Hi;
        [|discriminate Hap].
      cbn [bind] in Hap.
      destruct (drop t2' _) as [t3'|e]; [|discriminate Hap].
      cbn [bind] in Hap. inversion Hap; subst.
      apply (take_list_incl _ _ _ Hi).
  - cbn [bind] in H.
    destruct (append_column t1 "_rowid" _) as [t3|e] eqn:Hid;
      [|discriminate H].
    cbn [bind] in H. inversion H; subst.
    destruct (append_column_inv _ _ _ _ Hid) as [Hc [Hn Hl]].
    destruct (append_column_inv _ _ _ _ Hscore) as [Hc1 _].
    exists t1, (r0 :: rs). split; [exact Hc|]. split; [exact Hn|].
    split; [rewrite Hn; exact Hl|]. split; [apply incl_refl|].
    intros _. split; [reflexivity|].
    exists taken. split; [reflexivity|exact Hc1].
Qed.

Lemma fts_row_ids_come_from_the_index_witness :
  exists t t0 ids,
    LanceFtsQueryBuilder_.to_arrow (sample_env true) sample_fts_with_row_id
    = Ok t /\
    columns t = (columns t0 ++ [("_rowid", UInt64Array ids)])%list /\
    num_rows t = 3%nat /\
    ids = [2%N; 3%N; 4%N].
Proof.
  destruct (fts_row_ids_come_from_the_index (sample_env true)
              sample_fts_with_row_id sample_index_path [2%N; 3%N; 4%N]
              [f64 3; f64 1; f64 2] _ eq_refl eq_refl eq_refl eq_refl
              ltac:(discriminate) eq_refl eq_refl eq_refl)
    as [t0 [ids [Hc [Hn [Hl [_ Hw]]]]]].
  eexists. exists t0, ids.
  split; [reflexivity|]. split; [exact Hc|]. split; [reflexivity|].
  apply (Hw eq_refl).
Defined.

(** ** The hybrid executor *)

(** What a successful hybrid execution went through. *)
Lemma hybrid_to_arrow_inv (np_argsort : list spec_float -> list nat)
    (env : Environment) (self : LanceHybridQueryBuilder) (t : Table) :
  LanceHybridQueryBuilder_.to_arrow np_argsort env self = Ok t ->
  exists fts vec fts' vec' reranked,
    LanceFtsQueryBuilder_.to_arrow env
      (LanceFtsQueryBuilder_.with_row_id (_fts_query self) true) = Ok fts /\
    LanceVectorQueryBuilder_.to_arrow
      (LanceVectorQueryBuilder_.with_row_id (_vector_query self) true)
    = Ok vec /\
    rerank_hybrid (_reranker self) (fq_query (_fts_query self)) vec' fts'
    = Ok (PyTable reranked) /\
    (if _with_row_id (hq_base self)
     then t = slice reranked (_limit (hq_base self))
     else drop (slice reranked (_limit (hq_base self))) ["_rowid"] = Ok t).
Proof.
  intros Hrun.
  unfold LanceHybridQueryBuilder_.to_arrow in Hrun.
  apply bind_Ok_inv in Hrun. destruct Hrun as [[fts0 vec0] [Hd Hrun]].
  apply bind_Ok_inv in Hrun. destruct Hrun as [[vec1 fts1] [_ Hrun]].
  apply bind_Ok_inv in Hrun. destruct Hrun as [vec2 [_ Hrun]].
  apply bind_Ok_inv in Hrun. destruct Hrun as [fts2 [_ Hrun]].
  apply bind_Ok_inv in Hrun. destruct Hrun as [res [Hrr Hrun]].
  destruct res as [reranked|r]; [|discriminate].
  unfold LanceHybridQueryBuilder_.dispatch in Hd.
  apply bind_Ok_inv in Hd. destruct Hd as [f [Hf Hd]].
  apply bind_Ok_inv in Hd. destruct Hd as [v [Hv Hd]].
  inversion Hd; subst.
  exists fts0, vec0, fts2, vec2, reranked.
  split; [exact Hf|]. split; [exact Hv|]. split; [exact Hrr|].
  destruct (_with_row_id (hq_base self)); simpl in Hrun.
  - inversion Hrun; reflexivity.
  - exact Hrun.
Qed.

Lemma slice_column_names (t : Table) (l : option Z) :
  column_names (slice t l) = column_names t.
Proof.
  destruct l as [z|]; [|reflexivity].
  unfold column_names, slice. simpl. rewrite map_map. reflexivity.
Qed.

Lemma drop_requires (t t' : Table) (names : list string) (n : string) :
  drop t names = Ok t' -> In n names -> In n (column_names t).
Proof.
  unfold drop.
  destruct (filter _ names) as [|x l] eqn:E; [|discriminate].
  intros _ Hn.
  destruct (existsb (String.eqb n) (column_names t)) eqn:Hex.
  - apply existsb_exists in Hex. destruct Hex as [y [Hy Heq]].
    apply String.eqb_eq in Heq. subst. exact Hy.
  - assert (Hin : In n (filter
        (fun n => negb (existsb (String.eqb n) (column_names t))) names)).
    { apply filter_In. split; [exact Hn|]. rewrite Hex. reflexivity. }
    rewrite E in Hin. destruct Hin.
Qed.

(** X13: a hybrid search that was not asked for row ids never shows them:
    whenever it returns a table, the table has no column [_rowid].  The
    sub-searches are run with row ids all the same, and the table the
    reranker returned did have a [_rowid] column (without one, removing it
    fails and the search raises). *)
Theorem hybrid_hides_row_ids :
  forall (np_argsort : list spec_float -> list nat) (env : Environment)
         (self : LanceHybridQueryBuilder) (t : Table),
    _with_row_id (hq_base self) = false ->
    LanceHybridQueryBuilder_.to_arrow np_argsort env self = Ok t ->
    ~ In "_rowid" (column_names t) /\
    exists vector_results fts_results reranked,
      rerank_hybrid (_reranker self) (fq_query (_fts_query self))
        vector_results fts_results = Ok (PyTable reranked) /\
      In "_rowid" (column_names reranked).
Proof.
  intros np_argsort env self t Hflag Hrun.
  destruct (hybrid_to_arrow_inv np_argsort env self t Hrun)
    as [fts [vec [fts' [vec' [reranked [_ [_ [Hrr Hout]]]]]]]].
  rewrite Hflag in Hout.
  split.
  - apply (drop_removes _ _ _ _ Hout). left; reflexivity.
  - exists vec', fts', reranked. split; [exact Hrr|].
    rewrite <- (slice_column_names reranked (_limit (hq_base self))).
    apply (drop_requires _ _ _ _ Hout). left; reflexivity.
Qed.

Lemma hybrid_hides_row_ids_witness :
  exists t,
    LanceHybridQueryBuilder_.to_arrow identity_argsort (sample_env true)
      sample_hybrid = Ok t /\
    ~ In "_rowid" (column_names t).
Proof.
  eexists. split; [reflexivity|].
  apply (hybrid_hides_row_ids identity_argsort (sample_env true)
           sample_hybrid _ eq_refl eq_refl).
Defined.

(** X14: a hybrid search returns a table only if both sub-searches, each
    run with row ids, returned one.  When the full-text sub-search raises,
    the hybrid search raises that error whatever the vector sub-search
    did; when only the vector sub-search raises, its error is raised.
    Unless the builder normalises by rank, [np.argsort] plays no part in
    the result. *)
Theorem hybrid_needs_both_searches :
  forall (np_argsort : list spec_float -> list nat) (env : Environment)
         (self : LanceHybridQueryBuilder),
    let fts_run :=
      LanceFtsQueryBuilder_.to_arrow env
        (LanceFtsQueryBuilder_.with_row_id (_fts_query self) true) in
    let vector_run :=
      LanceVectorQueryBuilder_.to_arrow
        (LanceVectorQueryBuilder_.with_row_id (_vector_query self) true) in
    (forall t,
       LanceHybridQueryBuilder_.to_arrow np_argsort env self = Ok t ->
       exists fts vec, fts_run = Ok fts /\ vector_run = Ok vec) /\
    (forall e,
       fts_run = Raise e ->
       LanceHybridQueryBuilder_.to_arrow np_argsort env self = Raise e) /\
    (forall fts e,
       fts_run = Ok fts -> vector_run = Raise e ->
       LanceHybridQueryBuilder_.to_arrow np_argsort env self = Raise e) /\
    (forall other_argsort,
       _norm self <> "rank" ->
       LanceHybridQueryBuilder_.to_arrow other_argsort env self
       = LanceHybridQueryBuilder_.to_arrow np_argsort env self).
Proof.
  intros np_argsort env self fts_run vector_run.
  unfold fts_run, vector_run. clear fts_run vector_run.
  split; [|split; [|split]].
  - intros t Hrun.
    destruct (hybrid_to_arrow_inv np_argsort env self t Hrun)
      as [fts [vec [_ [_ [_ [Hf [Hv _]]]]]]].
    exists fts, vec. split; assumption.
  - intros e He.
    unfold LanceHybridQueryBuilder_.to_arrow,
      LanceHybridQueryBuilder_.dispatch.
    rewrite He. reflexivity.
  - intros fts e Hf Hv.
    unfold LanceHybridQueryBuilder_.to_arrow,
      LanceHybridQueryBuilder_.dispatch.
    rewrite Hf, Hv. reflexivity.
  - intros other Hnorm.
    unfold LanceHybridQueryBuilder_.to_arrow.
    destruct (String.eqb_spec (_norm self) "rank") as [E|_];
      [contradiction|reflexivity].
Qed.

(** X15: the setters of a hybrid builder reach both sub-searches.  After
    [select], [where], [limit] with a positive value, [metric], [nprobes]
    and [refine_factor], on a builder whose query vector has at least one
    entry, the [Query] the vector sub-search submits carries the
    projection, the clause with its prefilter flag, the limit, the
    metric, the probes and the refine factor, and asks for row ids; the
    full-text sub-search has the same projection, clause and limit and its
    query text as before.  The hybrid builder's own projection and clause
    stay as they were, and calling the setters in the opposite order
    gives the same builder. *)
Theorem hybrid_setters_reach_both_searches :
  forall (self : LanceHybridQueryBuilder) (cols : Columns) (clause : string)
         (prefilter : bool) (l : Z) (m : string) (n rf : Z),
    (0 < l)%Z ->
    nonempty_vector (vq_query (_vector_query self)) = true ->
    let self' :=
      LanceHybridQueryBuilder_.refine_factor
        (LanceHybridQueryBuilder_.nprobes
           (LanceHybridQueryBuilder_.metric
              (LanceHybridQueryBuilder_.limit
                 (LanceHybridQueryBuilder_.where_
                    (LanceHybridQueryBuilder_.select self cols)
                    clause prefilter)
                 (Some l))
              m)
           n)
        rf in
    LanceVectorQueryBuilder_.make_query
      (LanceVectorQueryBuilder_.with_row_id (_vector_query self') true)
    = Ok (mkQuery (Some (vq_vector_column (_vector_query self)))
            (vq_query (_vector_query self)) (Some clause) prefilter l m
            (Some cols) n (Some rf) true) /\
    (_columns (fq_base (_fts_query self')) = Some cols /\
     _where (fq_base (_fts_query self')) = Some clause /\
     _limit (fq_base (_fts_query self')) = Some l /\
     fq_query (_fts_query self') = fq_query (_fts_query self)) /\
    (_columns (hq_base self') = _columns (hq_base self) /\
     _where (hq_base self') = _where (hq_base self) /\
     _limit (hq_base self') = Some l) /\
    LanceHybridQueryBuilder_.select
      (LanceHybridQueryBuilder_.where_
         (LanceHybridQueryBuilder_.limit
            (LanceHybridQueryBuilder_.metric
               (LanceHybridQueryBuilder_.nprobes
                  (LanceHybridQueryBuilder_.refine_factor self rf) n)
               m)
            (Some l))
         clause prefilter)
      cols
    = self'.
Proof.
  intros self cols clause prefilter l m n rf Hl _ self'.
  unfold self'. clear self'.
  assert (E : (l <=? 0)%Z = false) by (apply Z.leb_gt; exact Hl).
  destruct self as [b [fb fq fp fr] [vb vq vm vn vr vc vp vrr vs] nm rr].
  unfold LanceHybridQueryBuilder_.refine_factor,
    LanceHybridQueryBuilder_.nprobes, LanceHybridQueryBuilder_.metric,
    LanceHybridQueryBuilder_.limit, LanceHybridQueryBuilder_.where_,
    LanceHybridQueryBuilder_.select, LanceHybridQueryBuilder_.with_queries,
    LanceVectorQueryBuilder_.make_query, LanceVectorQueryBuilder_.limit,
    LanceFtsQueryBuilder_.limit, LanceQueryBuilder_.limit.
  cbn. rewrite E. cbn.
  repeat split; reflexivity.
Qed.

Lemma hybrid_setters_reach_both_searches_witness :
  let self' :=
    LanceHybridQueryBuilder_.refine_factor
      (LanceHybridQueryBuilder_.nprobes
         (LanceHybridQueryBuilder_.metric
            (LanceHybridQueryBuilder_.limit
               (LanceHybridQueryBuilder_.where_
                  (LanceHybridQueryBuilder_.select sample_hybrid
                     (ColumnList ["text"]))
                  "price > 1" true)
               (Some 5%Z))
            "cosine")
         40)
      2 in
  LanceVectorQueryBuilder_.make_query
    (LanceVectorQueryBuilder_.with_row_id (_vector_query self') true)
  = Ok (mkQuery (Some "vector") (QList [f32 1; f32 0]) (Some "price > 1")
          true 5 "cosine" (Some (ColumnList ["text"])) 40 (Some 2%Z) true).
Proof.
  apply (hybrid_setters_reach_both_searches sample_hybrid
           (ColumnList ["text"]) "price > 1" true 5 "cosine" 40 2);
    reflexivity.
Defined.

(** ** The score normaliser on arbitrary tables *)

Lemma filter_name_count (cols : list (string * Array)) (name : string) :
  length (filter (fun c => String.eqb (fst c) name) cols)
  = count_occ string_dec (map fst cols) name.
Proof.
  induction cols as [|c cols IH]; simpl; [reflexivity|].
  destruct (String.eqb_spec (fst c) name) as [E|E];
    destruct (string_dec (fst c) name) as [E'|E']; try contradiction;
    simpl; rewrite IH; reflexivity.
Qed.

(** [Table.column] finds a column exactly when one column has the name. *)
Lemma column_raises (t : Table) (name : string) :
  count_occ string_dec (column_names t) name <> 1%nat ->
  column t name = Raise (KeyError name).
Proof.
  unfold column, column_names. rewrite <- filter_name_count.
  destruct (filter _ (columns t)) as [|c [|c' l]]; simpl; intros H;
    try reflexivity.
  contradiction H; reflexivity.
Qed.

(** X16: on a table that has rows, both normalisers raise a [KeyError]
    naming the score column unless exactly one column of the table has
    that name: a missing score column and a score column present twice are
    both refused, whatever the other arguments are. *)
Theorem normaliser_needs_one_score_column :
  forall (np_argsort : list spec_float -> list nat) (results : Table)
         (column_ : string) (invert ascending : bool),
    num_rows results <> 0%nat ->
    count_occ string_dec (column_names results) column_ <> 1%nat ->
    _normalize_scores results column_ invert = Raise (KeyError column_) /\
    _rank np_argsort results column_ ascending = Raise (KeyError column_).
Proof.
  intros np_argsort results column_ invert ascending Hrows Hcount.
  apply Nat.eqb_neq in Hrows.
  unfold _normalize_scores, _rank, len. rewrite Hrows.
  rewrite (column_raises results column_ Hcount). split; reflexivity.
Qed.

Lemma normaliser_needs_one_score_column_witness :
  _normalize_scores sample_vector_results "score" false
  = Raise (KeyError "score") /\
  _rank identity_argsort sample_vector_results "score" true
  = Raise (KeyError "score").
Proof.
  apply (normaliser_needs_one_score_column identity_argsort
           sample_vector_results "score" false true).
  - discriminate.
  - vm_compute. discriminate.
Defined.

Lemma set_column_inv (t t' : Table) (i : nat) (name : string) (a : Array) :
  set_column t i name a = Ok t' ->
  t' = mkTable (replace_nth i (name, a) (columns t)) (num_rows t) /\
  array_length a = num_rows t.
Proof.
  unfold set_column.
  destruct (i <? length (columns t))%nat; simpl; [|discriminate].
  destruct (array_length a =? num_rows t)%nat eqn:E; simpl; [|discriminate].
  intros H; inversion H. apply Nat.eqb_eq in E. split; [reflexivity|exact E].
Qed.

(** Either normaliser, on a table with rows, ends in one [set_column] of a
    [float32] array at the position of the score column. *)
Lemma normaliser_inv (np_argsort : list spec_float -> list nat)
    (results : Table) (column_ : string) (flag : bool) (t : Table) :
  num_rows results <> 0%nat ->
  _normalize_scores results column_ flag = Ok t \/
  _rank np_argsort results column_ flag = Ok t ->
  exists i a d,
    nth_error (columns results) i = Some (column_, a) /\
    column results column_ = Ok a /\
    set_column results i column_ (FloatArray Float.binary32 d) = Ok t.
Proof.
  intros Hrows H. apply Nat.eqb_neq in Hrows.
  unfold _normalize_scores, _rank, len in H. rewrite Hrows in H.
  destruct H as [H|H].
  - apply bind_Ok_inv in H. destruct H as [a [Hc H]].
    apply bind_Ok_inv in H. destruct H as [[f scores] [_ H]].
    apply bind_Ok_inv in H. destruct H as [i [Hi H]].
    destruct (column_index results column_ a Hc) as [i' [Hi' Hn]].
    rewrite Hi in Hi'. inversion Hi'; subst.
    eexists i', a, _. split; [exact Hn|]. split; [exact Hc|exact H].
  - apply bind_Ok_inv in H. destruct H as [a [Hc H]].
    apply bind_Ok_inv in H. destruct H as [[f scores] [_ H]].
    apply bind_Ok_inv in H. destruct H as [ranks [_ H]].
    apply bind_Ok_inv in H. destruct H as [i [Hi H]].
    destruct (column_index results column_ a Hc) as [i' [Hi' Hn]].
    rewrite Hi in Hi'. inversion Hi'; subst.
    eexists i', a, _. split; [exact Hn|]. split; [exact Hc|exact H].
Qed.

Lemma filter_replace_nth_other (l : list (string * Array)) (i : nat)
    (name other : string) (a a' : Array) :
  other <> name ->
  nth_error l i = Some (name, a) ->
  filter (fun c => String.eqb (fst c) other) (replace_nth i (name, a') l)
  = filter (fun c => String.eqb (fst c) other) l.
Proof.
  intros Hne. revert i.
  induction l as [|y l IH]; intros [|i] H; simpl in *; try discriminate.
  - inversion H; subst. simpl.
    destruct (String.eqb_spec name other) as [E|_];
      [symmetry in E; contradiction|reflexivity].
  - rewrite (IH i H). reflexivity.
Qed.

Lemma filter_replace_nth_same (l : list (string * Array)) (i : nat)
    (name : string) (a a' : Array) (c : string * Array) :
  nth_error l i = Some (name, a) ->
  filter (fun c => String.eqb (fst c) name) l = [c] ->
  filter (fun c => String.eqb (fst c) name) (replace_nth i (name, a') l)
  = [(name, a')].
Proof.
  revert i. induction l as [|y l IH]; intros [|i] H Hf; simpl in *;
    try discriminate.
  - inversion H; subst. simpl in *. rewrite String.eqb_refl in *.
    inversion Hf. reflexivity.
  - destruct (String.eqb (fst y) name) eqn:E.
    + exfalso. inversion Hf as [[Hy Hnil]].
      assert (Hin : In (name, a)
                (filter (fun c => String.eqb (fst c) name) l)).
      { apply filter_In. split; [apply (nth_error_In _ _ H)|].
        apply String.eqb_refl. }
      rewrite Hnil in Hin. destruct Hin.
    + apply (IH i H Hf).
Qed.

Lemma Forall_replace_nth {A : Type} (P : A -> Prop) (l : list A) (i : nat)
    (x : A) :
  Forall P l -> P x -> Forall P (replace_nth i x l).
Proof.
  intros Hl Hx. revert i.
  induction Hl as [|y l Hy Hl IH]; intros [|i]; simpl; constructor;
    try assumption.
  apply IH.
Qed.

(** X17: whenever [_normalize_scores] or [_rank] returns a table, that
    table has the row count of the input, the same column names in the
    same order, and every column other than the score column as it was; a
    well-formed input (every column as long as the row count) gives a
    well-formed output; and when the input has rows, the score column of
    the output is a [float32] column, whatever floating type it had. *)
Theorem normaliser_keeps_table_shape :
  forall (np_argsort : list spec_float -> list nat) (results : Table)
         (column_ : string) (flag : bool) (t : Table),
    _normalize_scores results column_ flag = Ok t \/
    _rank np_argsort results column_ flag = Ok t ->
    num_rows t = num_rows results /\
    column_names t = column_names results /\
    (forall name, name <> column_ -> column t name = column results name) /\
    (table_wf results -> table_wf t) /\
    (num_rows results <> 0%nat ->
     exists d, column t column_ = Ok (FloatArray Float.binary32 d) /\
               length d = num_rows results).
Proof.
  intros np_argsort results column_ flag t H.
  destruct (Nat.eq_dec (num_rows results) 0) as [Hz|Hnz].
  - assert (Ht : t = results).
    { apply Nat.eqb_eq in Hz.
      unfold _normalize_scores, _rank, len in H. rewrite Hz in H.
      destruct H as [H|H]; inversion H; reflexivity. }
    subst t. repeat split; try reflexivity; tauto.
  - destruct (normaliser_inv np_argsort results column_ flag t Hnz H)
      as [i [a [d [Hn [Hc Hset]]]]].
    destruct (set_column_inv _ _ _ _ _ Hset) as [-> Hlen].
    split; [reflexivity|]. split; [|split; [|split]].
    + unfold column_names. simpl. apply (map_fst_replace_nth column_ a), Hn.
    + intros name Hne. unfold column. simpl.
      rewrite (filter_replace_nth_other _ _ column_ name a _ Hne Hn).
      reflexivity.
    + intros Hwf. unfold table_wf in *. simpl.
      apply Forall_replace_nth; [exact Hwf|exact Hlen].
    + intros _. exists d. split; [|exact Hlen].
      unfold column in *. simpl.
      destruct (filter _ (columns results)) as [|c [|c' l]] eqn:Hf;
        try discriminate.
      rewrite (filter_replace_nth_same _ _ column_ a _ c Hn Hf).
      reflexivity.
Qed.

Lemma normaliser_keeps_table_shape_witness :
  exists t,
    _rank identity_argsort sample_vector_results "_distance" true = Ok t /\
    num_rows t = 3%nat /\
    column_names t = ["text"; "_distance"; "_rowid"] /\
    column t "text" = Ok (StringArray ["a"; "b"; "c"]).
Proof.
  eexists. split; [reflexivity|].
  destruct (normaliser_keeps_table_shape identity_argsort
              sample_vector_results "_distance" true _
              (or_intror eq_refl))
    as [Hn [Hc [Ho _]]].
  split; [exact Hn|]. split; [exact Hc|].
  rewrite (Ho "text" ltac:(discriminate)). reflexivity.
Defined.

(** ** [to_pandas] and its [flatten] argument *)

Lemma struct_depth (children : list (string * Column)) :
  column_depth (Struct children) = S (table_depth children).
Proof.
  induction children as [|c l IH]; reflexivity.
Qed.

Lemma table_depth_app (a b : StructTable) :
  table_depth (a ++ b)%list = Nat.max (table_depth a) (table_depth b).
Proof.
  induction a as [|c a IH]; simpl; [reflexivity|]. rewrite IH. lia.
Qed.

Lemma table_depth_rename (prefix : string) (children : list (string * Column)) :
  table_depth
    (map (fun child => (prefix ++ "." ++ fst child, snd child)) children)
  = table_depth children.
Proof.
  induction children as [|c l IH]; [reflexivity|].
  cbn [map table_depth snd]. rewrite IH. reflexivity.
Qed.

Lemma flatten_column_depth (c : string * Column) :
  table_depth (flatten_column c) = Nat.pred (column_depth (snd c)).
Proof.
  unfold flatten_column. destruct c as [n [a|children]].
  - simpl. reflexivity.
  - cbn [snd fst]. rewrite struct_depth, table_depth_rename. reflexivity.
Qed.

(** One [flatten] removes one level of nesting. *)
Lemma flatten_depth (tbl : StructTable) :
  table_depth (flatten tbl) = Nat.pred (table_depth tbl).
Proof.
  unfold flatten. induction tbl as [|c tbl IH]; simpl; [reflexivity|].
  rewrite table_depth_app, IH, flatten_column_depth. lia.
Qed.

Lemma has_struct_depth (tbl : StructTable) :
  existsb (fun c => is_struct (snd c)) tbl = negb (table_depth tbl =? 0)%nat.
Proof.
  induction tbl as [|[n [a|children]] tbl IH].
  - reflexivity.
  - cbn [existsb snd is_struct table_depth column_depth orb Nat.max].
    exact IH.
  - cbn [existsb snd is_struct table_depth orb].
    rewrite struct_depth.
    destruct (table_depth tbl); reflexivity.
Qed.

Lemma flatten_flat (tbl : StructTable) :
  table_depth tbl = 0%nat -> flatten tbl = tbl.
Proof.
  unfold flatten. induction tbl as [|[n [a|children]] tbl IH]; intros H.
  - reflexivity.
  - simpl in *. rewrite (IH H). reflexivity.
  - exfalso. cbn [table_depth snd] in H. rewrite struct_depth in H. lia.
Qed.

Lemma iter_flatten_depth (n : nat) (tbl : StructTable) :
  table_depth (Nat.iter n flatten tbl) = (table_depth tbl - n)%nat.
Proof.
  induction n as [|n IH]; simpl; [lia|].
  rewrite flatten_depth, IH. lia.
Qed.

Lemma iter_flatten_succ (n : nat) (tbl : StructTable) :
  Nat.iter n flatten (flatten tbl) = Nat.iter (S n) flatten tbl.
Proof.
  induction n as [|n IH]; simpl; [reflexivity|]. rewrite IH. reflexivity.
Qed.

(** Flattening more often than the table is deep changes nothing more. *)
Lemma iter_flatten_enough (n m : nat) (tbl : StructTable) :
  (table_depth tbl <= n)%nat -> (n <= m)%nat ->
  Nat.iter m flatten tbl = Nat.iter n flatten tbl.
Proof.
  intros Hd Hnm. induction Hnm as [|m Hnm IH]; [reflexivity|].
  simpl. rewrite IH. apply flatten_flat.
  rewrite iter_flatten_depth. lia.
Qed.

(** The loop of [flatten is True] ends once the fuel exceeds the depth. *)
Lemma flatten_while_enough (fuel : nat) (tbl : StructTable) :
  (Nat.max 1 (table_depth tbl) <= fuel)%nat ->
  flatten_while fuel tbl
  = Some (Nat.iter (Nat.max 1 (table_depth tbl)) flatten tbl).
Proof.
  revert tbl. induction fuel as [|fuel IH]; intros tbl H; [lia|].
  cbn [flatten_while]. rewrite has_struct_depth, flatten_depth.
  destruct (Nat.pred (table_depth tbl) =? 0)%nat eqn:E; cbn [negb].
  - apply Nat.eqb_eq in E.
    replace (Nat.max 1 (table_depth tbl)) with 1%nat by lia.
    reflexivity.
  - apply Nat.eqb_neq in E.
    rewrite IH by (rewrite flatten_depth; lia).
    rewrite flatten_depth, iter_flatten_succ.
    f_equal. f_equal. lia.
Qed.

(** X18: [to_pandas] runs the query first, so an error of the query is
    the error of [to_pandas] whatever [flatten] is; when the query returns
    a table, [flatten=False] and every integer that is not positive are
    refused with a [ValueError] ([False] is an integer that is not
    positive), and [flatten=None] returns the table as it is. *)
Theorem to_pandas_refuses_false_and_nonpositive :
  forall (fuel : nat) (tbl : StructTable) (arg : FlattenArg),
    refused_flatten arg = true ->
    (exists msg,
       to_pandas fuel (Ok tbl) arg = Some (Raise (ValueError msg))) /\
    (forall e, to_pandas fuel (Raise e) arg = Some (Raise e)) /\
    to_pandas fuel (Ok tbl) FlattenNone = Some (Ok tbl).
Proof.
  intros fuel tbl [|[|]|n] H; try discriminate H; simpl in *.
  - split; [eexists; reflexivity|]. split; reflexivity.
  - rewrite H. split; [eexists; reflexivity|]. split; reflexivity.
Qed.

Lemma to_pandas_refuses_false_and_nonpositive_witness :
  exists msg,
    to_pandas 0 (Ok sample_struct_table) (FlattenBool false)
    = Some (Raise (ValueError msg)).
Proof.
  apply (to_pandas_refuses_false_and_nonpositive 0 sample_struct_table
           (FlattenBool false)).
  reflexivity.
Defined.

(** X19: [flatten=True] always ends: on a table whose structs nest [d]
    deep the loop stops after [max 1 d] rounds (any fuel from there on
    gives the same answer) and returns the table flattened that many
    times, in which no struct column is left.  A table without struct
    columns, which is what every executor above returns, comes back
    unchanged. *)
Theorem to_pandas_flatten_true :
  forall (tbl : StructTable),
    let rounds := Nat.max 1 (table_depth tbl) in
    let out := Nat.iter rounds flatten tbl in
    (forall fuel,
       (rounds <= fuel)%nat ->
       to_pandas fuel (Ok tbl) (FlattenBool true) = Some (Ok out)) /\
    (forall fuel,
       (fuel < rounds)%nat ->
       to_pandas fuel (Ok tbl) (FlattenBool true) = None) /\
    existsb (fun c => is_struct (snd c)) out = false /\
    (table_depth tbl = 0%nat -> out = tbl) /\
    (forall t, Nat.iter rounds flatten (of_table t) = of_table t).
Proof.
  intros tbl rounds out. unfold out, rounds. clear out rounds.
  split; [|split; [|split; [|split]]].
  - intros fuel H. unfold to_pandas.
    rewrite (flatten_while_enough fuel tbl H). reflexivity.
  - intros fuel. revert tbl.
    induction fuel as [|fuel IH]; intros tbl H; [reflexivity|].
    unfold to_pandas in *. cbn [flatten_while].
    rewrite has_struct_depth, flatten_depth.
    destruct (Nat.pred (table_depth tbl) =? 0)%nat eqn:E; cbn [negb].
    + apply Nat.eqb_eq in E. lia.
    + apply Nat.eqb_neq in E. apply IH. rewrite flatten_depth. lia.
  - rewrite has_struct_depth, iter_flatten_depth.
    replace (table_depth tbl - Nat.max 1 (table_depth tbl))%nat
      with 0%nat by lia.
    reflexivity.
  - intros H. rewrite H. simpl. apply flatten_flat, H.
  - intros t.
    assert (Hd : forall n, Nat.iter n flatten (of_table t) = of_table t).
    { assert (H0 : table_depth (of_table t) = 0%nat).
      { unfold of_table. induction (columns t) as [|c l IH];
          simpl; [reflexivity|exact IH]. }
      induction n as [|n IH]; simpl; [reflexivity|].
      rewrite IH. apply flatten_flat, H0. }
    apply Hd.
Qed.

(** X20: [flatten=n] with a positive [n] returns the table flattened [n]
    times, which removes [n] levels of nesting; as soon as [n] reaches the
    nesting depth of the table the result is the one [flatten=True]
    gives, and below it a struct column is left. *)
Theorem to_pandas_flatten_levels :
  forall (fuel : nat) (tbl : StructTable) (n : Z),
    (0 < n)%Z ->
    exists out,
      to_pandas fuel (Ok tbl) (FlattenInt n) = Some (Ok out) /\
      table_depth out = (table_depth tbl - Z.to_nat n)%nat /\
      ((table_depth tbl <= Z.to_nat n)%nat ->
       to_pandas (S (table_depth tbl)) (Ok tbl) (FlattenBool true)
       = Some (Ok out)) /\
      ((Z.to_nat n < table_depth tbl)%nat ->
       existsb (fun c => is_struct (snd c)) out = true).
Proof.
  intros fuel tbl n Hn.
  exists (Nat.iter (Z.to_nat n) flatten tbl).
  assert (E : (n <=? 0)%Z = false) by (apply Z.leb_gt; exact Hn).
  split; [unfold to_pandas; rewrite E; reflexivity|].
  split; [apply iter_flatten_depth|]. split.
  - intros Hd. unfold to_pandas.
    rewrite flatten_while_enough by lia.
    f_equal. f_equal.
    symmetry. apply iter_flatten_enough; lia.
  - intros Hd. rewrite has_struct_depth, iter_flatten_depth.
    apply negb_true_iff, Nat.eqb_neq. lia.
Qed.

Lemma to_pandas_flatten_levels_witness :
  exists out,
    to_pandas 0 (Ok sample_struct_table) (FlattenInt 2) = Some (Ok out) /\
    table_depth out = 0%nat /\
    to_pandas 3 (Ok sample_struct_table) (FlattenBool true) = Some (Ok out).
Proof.
  destruct (to_pandas_flatten_levels 0 sample_struct_table 2 eq_refl)
    as [out [H1 [H2 [H3 _]]]].
  exists out. split; [exact H1|]. split; [exact H2|].
  apply H3. vm_compute. lia.
Defined.

(** ** The rate-limited embedding service of the tests *)

Lemma embed_in_window (compute : string -> list spec_float)
    (self : MockEmbeddingAPI) (now : spec_float) (texts : list string) :
  rate_limit self <> 0%Z ->
  window_elapsed self now = false ->
  MockEmbeddingAPI_.embed compute self now texts
  = if (request_count self <? rate_limit self)%Z
    then (mkMockEmbeddingAPI (rate_limit self) (time_unit self)
            (request_count self + 1) (window_start_time self),
          Embeddings (map compute texts))
    else (self, Exception "429").
Proof.
  intros HL Hw. unfold MockEmbeddingAPI_.embed.
  apply Z.eqb_neq in HL. rewrite HL.
  unfold window_elapsed in Hw. rewrite Hw. reflexivity.
Qed.

(** X21: calls within one window.  On a rate-limited service, for any
    run of calls none of which finds the window elapsed, the calls are
    served until the quota of the window is used up and every later call
    gets the error 429: of [n] calls, the first
    [max 0 (min (rate_limit - request_count) n)] are served.  The window
    start is left alone, and the request count rises by the number of
    calls served. *)
Theorem embed_quota_within_window :
  forall (compute : string -> list spec_float) (clock : list spec_float)
         (texts : list string) (self : MockEmbeddingAPI),
    rate_limit self <> 0%Z ->
    Forall (fun now => window_elapsed self now = false) clock ->
    let served :=
      served_in_window (rate_limit self) (request_count self)
        (length clock) in
    embed_all compute self clock texts
    = (mkMockEmbeddingAPI (rate_limit self) (time_unit self)
         (request_count self + Z.of_nat served) (window_start_time self),
       (repeat (Embeddings (map compute texts)) served
        ++ repeat (Exception "429") (length clock - served))%list).
Proof.
  intros compute clock texts.
  induction clock as [|now clock IH]; intros self HL Hw served.
  - unfold served, served_in_window. cbn [length embed_all].
    replace (Z.to_nat (Z.max 0 (Z.min (rate_limit self - request_count self)
                                  (Z.of_nat 0)))) with 0%nat by lia.
    destruct self; cbn. rewrite Z.add_0_r. reflexivity.
  - inversion Hw as [|x l Hnow Hrest]; subst.
    cbn [embed_all]. rewrite (embed_in_window compute self now texts HL Hnow).
    destruct (request_count self <? rate_limit self)%Z eqn:E.
    + apply Z.ltb_lt in E.
      set (self1 := mkMockEmbeddingAPI (rate_limit self) (time_unit self)
                      (request_count self + 1) (window_start_time self)).
      specialize (IH self1 HL Hrest). cbv zeta in IH. rewrite IH.
      unfold served, served_in_window. cbn [length].
      cbn [rate_limit time_unit request_count window_start_time self1].
      set (k := Z.to_nat (Z.max 0 (Z.min (rate_limit self
                 - (request_count self + 1)) (Z.of_nat (length clock))))).
      replace (Z.to_nat (Z.max 0 (Z.min (rate_limit self - request_count self)
                 (Z.of_nat (S (length clock)))))) with (S k)
        by (unfold k; lia).
      cbn [repeat app Nat.sub]. f_equal. f_equal. lia.
    + apply Z.ltb_ge in E.
      specialize (IH self HL Hrest). cbv zeta in IH. rewrite IH.
      unfold served, served_in_window. cbn [length].
      replace (Z.to_nat (Z.max 0 (Z.min (rate_limit self - request_count self)
                 (Z.of_nat (length clock))))) with 0%nat by lia.
      replace (Z.to_nat (Z.max 0 (Z.min (rate_limit self - request_count self)
                 (Z.of_nat (S (length clock)))))) with 0%nat by lia.
      cbn [repeat app Nat.sub]. rewrite Nat.sub_0_r. reflexivity.
Qed.

Lemma embed_quota_within_window_witness :
  snd (embed_all constant_embedding
         (MockEmbeddingAPI_.__init__ (f64 100) 2 (f64 60))
         [f64 101; f64 130; f64 160] ["hello"])
  = [Embeddings [[f64 1; f64 0]]; Embeddings [[f64 1; f64 0]];
     Exception "429"].
Proof.
  rewrite (embed_quota_within_window constant_embedding
             [f64 101; f64 130; f64 160] ["hello"]
             (MockEmbeddingAPI_.__init__ (f64 100) 2 (f64 60))).
  - reflexivity.
  - discriminate.
  - repeat constructor.
Defined.

Lemma embed_step (compute : string -> list spec_float)
    (self : MockEmbeddingAPI) (now : spec_float) (texts : list string) :
  (0 <= request_count self)%Z ->
  let self1 := fst (MockEmbeddingAPI_.embed compute self now texts) in
  rate_limit self1 = rate_limit self /\
  time_unit self1 = time_unit self /\
  (0 <= request_count self1)%Z /\
  ((0 < rate_limit self)%Z ->
   (request_count self <= rate_limit self)%Z ->
   (request_count self1 <= rate_limit self)%Z) /\
  (window_start_time self1 = window_start_time self \/
   window_start_time self1 = now).
Proof.
  intros Hc. unfold MockEmbeddingAPI_.embed.
  destruct (rate_limit self =? 0)%Z.
  - cbn. repeat split; try assumption; try reflexivity; auto.
  - destruct (SFltb _ _); cbn [rate_limit time_unit request_count
                               window_start_time].
    + destruct (0 <? rate_limit self)%Z eqn:E; cbn;
        repeat split; try lia; auto.
    + destruct (request_count self <? rate_limit self)%Z eqn:E; cbn;
        [apply Z.ltb_lt in E|]; repeat split; try lia; auto.
Qed.

(** X22: the request count never passes the quota.  On a service with a
    positive rate limit whose count is within the quota, after any run of
    calls, whatever the clock read at each, the count is still between 0
    and the rate limit, the rate limit and the time unit are what they
    were, and the window starts where it did or at one of the clock
    readings.  At that point a call that finds the window elapsed is
    always served, and it opens a new window at its clock reading with a
    count of 1. *)
Theorem embed_respects_quota :
  forall (compute : string -> list spec_float) (clock : list spec_float)
         (texts : list string) (self : MockEmbeddingAPI),
    (0 < rate_limit self)%Z ->
    (0 <= request_count self <= rate_limit self)%Z ->
    let self' := fst (embed_all compute self clock texts) in
    rate_limit self' = rate_limit self /\
    time_unit self' = time_unit self /\
    (0 <= request_count self' <= rate_limit self)%Z /\
    (window_start_time self' = window_start_time self \/
     In (window_start_time self') clock) /\
    (forall now,
       window_elapsed self' now = true ->
       MockEmbeddingAPI_.embed compute self' now texts
       = (mkMockEmbeddingAPI (rate_limit self) (time_unit self) 1 now,
          Embeddings (map compute texts))).
Proof.
  intros compute clock texts.
  induction clock as [|t clock IH]; intros self HL Hc self'.
  - unfold self'. cbn [embed_all fst].
    repeat split; try lia; auto.
    intros now Hw. unfold MockEmbeddingAPI_.embed.
    unfold window_elapsed in Hw. rewrite Hw.
    destruct (Z.eqb_spec (rate_limit self) 0) as [E|_]; [lia|].
    cbn [rate_limit time_unit request_count window_start_time].
    destruct (Z.ltb_spec 0 (rate_limit self)) as [_|E]; [|lia].
    reflexivity.
  - unfold self'. cbn [embed_all].
    pose proof (embed_step compute self t texts (proj1 Hc)) as Hstep.
    destruct (MockEmbeddingAPI_.embed compute self t texts) as [self1 r].
    cbn [fst] in Hstep.
    destruct Hstep as [HL1 [Htu1 [Hc0 [Hc1 Hst]]]].
    specialize (Hc1 HL (proj2 Hc)).
    assert (HL1' : (0 < rate_limit self1)%Z) by (rewrite HL1; exact HL).
    assert (Hc' : (0 <= request_count self1 <= rate_limit self1)%Z)
      by (rewrite HL1; lia).
    specialize (IH self1 HL1' Hc'). cbv zeta in IH.
    destruct (embed_all compute self1 clock texts) as [self2 rs].
    cbn [fst] in *.
    destruct IH as [I1 [I2 [I3 [I4 I5]]]].
    rewrite HL1 in I1, I3, I5. rewrite Htu1 in I2, I5.
    split; [exact I1|]. split; [exact I2|]. split; [exact I3|].
    split; [|exact I5].
    destruct I4 as [I4|I4].
    + rewrite I4. destruct Hst as [Hst|Hst];
        [left; exact Hst|right; left; symmetry; exact Hst].
    + right; right; exact I4.
Qed.

Lemma embed_respects_quota_witness :
  let self' :=
    fst (embed_all constant_embedding
           (MockEmbeddingAPI_.__init__ (f64 100) 1 (f64 60))
           [f64 101; f64 102] ["hello"]) in
  (0 <= request_count self' <= 1)%Z /\
  MockEmbeddingAPI_.embed constant_embedding self' (f64 200) ["hello"]
  = (mkMockEmbeddingAPI 1 (f64 60) 1 (f64 200),
     Embeddings [[f64 1; f64 0]]).
Proof.
  destruct (embed_respects_quota constant_embedding [f64 101; f64 102]
              ["hello"] (MockEmbeddingAPI_.__init__ (f64 100) 1 (f64 60))
              eq_refl)
    as [_ [_ [H3 [_ H5]]]].
  - cbn. lia.
  - split; [exact H3|]. apply H5. reflexivity.
Defined.

(** X23: the two degenerate rate limits, on a service as [__init__]
    makes it.  With a rate limit of 0 nothing is limited: every call of
    any run is served and the object never changes, whatever the clock
    reads.  With a negative rate limit nothing is ever served: every call
    gets the error 429. *)
Theorem embed_degenerate_limits :
  forall (compute : string -> list spec_float) (start : spec_float)
         (limit : Z) (unit_ : spec_float) (clock : list spec_float)
         (texts : list string),
    let api := MockEmbeddingAPI_.__init__ start limit unit_ in
    (limit = 0%Z ->
     embed_all compute api clock texts
     = (api, repeat (Embeddings (map compute texts)) (length clock))) /\
    ((limit < 0)%Z ->
     snd (embed_all compute api clock texts)
     = repeat (Exception "429") (length clock)).
Proof.
  intros compute start limit unit_ clock texts api. unfold api. clear api.
  split.
  - intros ->. unfold MockEmbeddingAPI_.__init__.
    induction clock as [|t clock IH]; [reflexivity|].
    cbn [embed_all length repeat].
    unfold MockEmbeddingAPI_.embed at 1. cbn [rate_limit Z.eqb].
    rewrite IH. reflexivity.
  - intros Hneg. unfold MockEmbeddingAPI_.__init__.
    assert (H : forall c s, (0 <= c)%Z ->
              snd (embed_all compute (mkMockEmbeddingAPI limit unit_ c s)
                     clock texts)
              = repeat (Exception "429") (length clock)).
    { induction clock as [|t clock IH]; intros c s Hc; [reflexivity|].
      cbn [embed_all length repeat].
      unfold MockEmbeddingAPI_.embed at 1.
      cbn [rate_limit time_unit request_count window_start_time].
      destruct (Z.eqb_spec limit 0) as [E|_]; [lia|].
      destruct (SFltb _ _);
        cbn [rate_limit time_unit request_count window_start_time].
      - destruct (Z.ltb_spec 0 limit) as [E|_]; [lia|].
        specialize (IH 0%Z t (Z.le_refl 0)).
        destruct (embed_all _ _ clock texts) as [s2 rs].
        cbn [snd] in *. rewrite IH. reflexivity.
      - destruct (Z.ltb_spec c limit) as [E|_]; [lia|].
        specialize (IH c s Hc).
        destruct (embed_all _ _ clock texts) as [s2 rs].
        cbn [snd] in *. rewrite IH. reflexivity. }
    apply H. lia.
Qed.

(** ** The hybrid constructor and the vector part of its query *)

(** X25: the hybrid constructor on a pair (vector, text), for a table
    that reports a full-text index path.  A list or a numpy array is used
    as the vector query as it is, and no embedding function is needed.  An
    Arrow array or chunked array passes the validation of the pair as
    well, but it is then handed to the embedding function bound to the
    vector column as if it were text: with none bound the constructor
    raises a [ValueError], and with one bound the vector query is the
    first embedding that function returns. *)
Theorem hybrid_init_vector_part :
  forall (dr : Reranker) (table : LanceTable) (index_path : string)
         (v : list spec_float) (s col : string),
    _get_fts_index_path table = Some index_path ->
    let built := fun q =>
      mkLanceHybridQueryBuilder (LanceQueryBuilder_.__init__ table)
        (LanceFtsQueryBuilder_.__init__ table s)
        (LanceVectorQueryBuilder_.__init__ table q col None) "score" dr in
    (forall q,
       q = QList v \/ q = QNdarray v ->
       LanceHybridQueryBuilder_.__init__ dr table (QTuple [q; QStr s]) col
       = Ok (built q)) /\
    (forall q,
       q = QArrowArray v \/ q = QChunkedArray v ->
       LanceHybridQueryBuilder_._validate_query (QTuple [q; QStr s])
       = Ok (q, QStr s) /\
       LanceHybridQueryBuilder_.__init__ dr table (QTuple [q; QStr s]) col
       = match get (embedding_functions table) col with
         | None => Raise (ValueError ("No embedding function for " ++ col))
         | Some conf =>
             embs <- compute_query_embeddings_with_retry conf q ;;
             emb <- first embs ;;
             Ok (built emb)
         end).
Proof.
  intros dr table index_path v s col Hpath built. unfold built. clear built.
  split.
  - intros q [->| ->];
      unfold LanceHybridQueryBuilder_.__init__,
        LanceHybridQueryBuilder_._validate_fts_index;
      rewrite Hpath; reflexivity.
  - intros q [->| ->]; (split; [reflexivity|]);
      unfold LanceHybridQueryBuilder_.__init__,
        LanceHybridQueryBuilder_._validate_fts_index;
      rewrite Hpath; cbn;
      unfold LanceQueryBuilder_._query_to_vector; cbn;
      (destruct (get (embedding_functions table) col) as [conf|];
         [|reflexivity]);
      (destruct (compute_query_embeddings_with_retry conf _)
         as [[|emb rest]|e]; reflexivity).
Qed.

Lemma hybrid_init_vector_part_witness :
  LanceHybridQueryBuilder_._validate_query
    (QTuple [QArrowArray [f32 1; f32 0]; QStr "hello"])
  = Ok (QArrowArray [f32 1; f32 0], QStr "hello") /\
  LanceHybridQueryBuilder_.__init__ keep_vector_reranker indexed_table
    (QTuple [QArrowArray [f32 1; f32 0]; QStr "hello"]) "vector"
  = Raise (ValueError "No embedding function for vector").
Proof.
  destruct (hybrid_init_vector_part keep_vector_reranker indexed_table
              sample_index_path [f32 1; f32 0] "hello" "vector" eq_refl)
    as [_ H].
  destruct (H (QArrowArray [f32 1; f32 0]) (or_introl eq_refl)) as [H1 H2].
  split; [exact H1|exact H2].
Defined.

(** ** Reranking a full-text search *)

(** X26: a reranker set on a full-text builder is applied to exactly the
    table the search returns without it, together with the query as given
    (not the quoted text of a phrase query); it is not called at all when
    the index finds no row. *)
Theorem fts_reranker_sees_search_result :
  forall (env : Environment) (self : LanceFtsQueryBuilder)
         (reranker : Reranker) (index_path : string) (row_ids : list N)
         (scores : list spec_float),
    fq_reranker self = None ->
    tantivy_installed env = true ->
    _get_fts_index_path (_table (fq_base self)) = Some index_path ->
    path_exists env index_path = true ->
    search_index env index_path (LanceFtsQueryBuilder_.search_text self)
      (_limit (fq_base self)) = Ok (row_ids, scores) ->
    LanceFtsQueryBuilder_.to_arrow env
      (LanceFtsQueryBuilder_.rerank self reranker)
    = match row_ids with
      | [] => Ok empty_score_table
      | _ :: _ =>
          t <- LanceFtsQueryBuilder_.to_arrow env self ;;
          rerank_fts reranker (fq_query self) t
      end.
Proof.
  intros env self reranker index_path row_ids scores Hrr Htan Hpath Hex
    Hsearch.
  unfold LanceFtsQueryBuilder_.to_arrow.
  assert (Ht : LanceFtsQueryBuilder_.search_text
                 (LanceFtsQueryBuilder_.rerank self reranker)
               = LanceFtsQueryBuilder_.search_text self) by reflexivity.
  rewrite Ht.
  cbn [LanceFtsQueryBuilder_.rerank fq_base fq_query fq_reranker].
  rewrite Htan, Hpath, Hrr. cbn [negb]. rewrite Hex. cbn [negb].
  rewrite Hsearch. cbn [bind].
  destruct row_ids as [|r0 rs]; [reflexivity|].
  cbn [length Nat.eqb].
  destruct (to_lance_take _ _ _) as [taken|e]; [|reflexivity].
  cbn [bind].
  destruct (append_column taken "score" _) as [t1|e]; [|reflexivity].
  cbn [bind].
  destruct (match _where (fq_base self) with
            | Some w => LanceFtsQueryBuilder_.apply_where env w t1 (r0 :: rs)
            | None => Ok (t1, r0 :: rs)
            end) as [[t2 ids]|e]; [|reflexivity].
  cbn [bind].
  destruct (if _with_row_id (fq_base self)
            then append_column t2 "_rowid" (UInt64Array ids)
            else Ok t2) as [t3|e]; reflexivity.
Qed.

Lemma fts_reranker_sees_search_result_witness :
  LanceFtsQueryBuilder_.to_arrow (sample_env true)
    (LanceFtsQueryBuilder_.rerank sample_fts_with_row_id
       keep_vector_reranker)
  = (t <- LanceFtsQueryBuilder_.to_arrow (sample_env true)
            sample_fts_with_row_id ;;
     rerank_fts keep_vector_reranker "hello" t).
Proof.
  apply (fts_reranker_sees_search_result (sample_env true)
           sample_fts_with_row_id keep_vector_reranker sample_index_path
           [2%N; 3%N; 4%N] [f64 3; f64 1; f64 2]);
    reflexivity.
Defined.

(** ** Inverted scores *)

Module InvertFacts.

Import Float FloatSpec FloatFacts RescaleFacts RescaleRows IEEE IEEEFacts
  UnitInterval.

Section Validity.

Variables prec emax : Z.
Hypothesis Hprec : (0 < prec)%Z.
Hypothesis Hemax : (prec < emax)%Z.

Lemma canonical_normal (p : positive) (E : Z) :
  (emin prec emax <= E)%Z ->
  (2 ^ (prec - 1) <= Z.pos p < 2 ^ prec)%Z ->
  canonical_mantissa prec emax p E = true.
Proof.
  intros HE Hp. unfold canonical_mantissa. apply Z.eqb_eq.
  change (Z.pos (digits2_pos p)) with (Zdigits2 (Z.pos p)).
  rewrite (Zdigits2_unique (Z.pos p) prec ltac:(lia) Hp).
  unfold fexp. lia.
Qed.

Lemma canonical_subnormal (p : positive) :
  (Z.pos p < 2 ^ (prec - 1))%Z ->
  canonical_mantissa prec emax p (emin prec emax) = true.
Proof.
  intros Hp. unfold canonical_mantissa. apply Z.eqb_eq.
  change (Z.pos (digits2_pos p)) with (Zdigits2 (Z.pos p)).
  destruct (Zdigits2_bounds (Z.pos p) ltac:(lia)) as [B1 _].
  assert (Hd : (Zdigits2 (Z.pos p) - 1 < prec - 1)%Z).
  { apply (Z.pow_lt_mono_r_iff 2); lia. }
  unfold fexp. lia.
Qed.

Lemma float_of_valid (r E : Z) :
  (0 <= r <= 2 ^ prec)%Z -> (emin prec emax <= E)%Z ->
  (E = emin prec emax \/ (2 ^ (prec - 1) <= r)%Z) ->
  valid_binary prec emax (float_of prec emax r E) = true.
Proof.
  intros Hr HE Hn. unfold float_of.
  destruct (Z.eqb_spec r 0) as [|Hnz]; [reflexivity|].
  destruct (Z.ltb_spec r (2 ^ prec)) as [Hlt|Hge].
  - destruct (Z.leb_spec E (emax - prec)) as [Hb|]; [|reflexivity].
    cbn [valid_binary]. unfold bounded.
    apply andb_true_intro. split; [|apply Z.leb_le; exact Hb].
    destruct r as [|p|p]; try lia. cbn [Z.to_pos].
    destruct (Z.le_gt_cases (2 ^ (prec - 1)) (Z.pos p)) as [Hnorm|Hsub].
    + apply canonical_normal; [exact HE|lia].
    + destruct Hn as [->|Hn]; [|lia]. apply canonical_subnormal. lia.
  - destruct (Z.leb_spec (E + 1) (emax - prec)) as [Hb|]; [|reflexivity].
    cbn [valid_binary]. unfold bounded.
    apply andb_true_intro. split; [|apply Z.leb_le; exact Hb].
    pose proof (pow2_pos (prec - 1) ltac:(lia)) as Hpos.
    destruct (2 ^ (prec - 1))%Z as [|p|p] eqn:Ep; try lia.
    cbn [Z.to_pos].
    apply canonical_normal; [lia|].
    rewrite <- Ep. rewrite (pow2_prec_split prec Hprec). lia.
Qed.

Lemma rounds_to_valid (u : Q) (x : spec_float) :
  rounds_to prec emax u x -> valid_binary prec emax x = true.
Proof.
  intros [E [m1 [l1 [R ->]]]].
  destruct (ready_rne_bounds prec emax Hprec _ _ _ _ R) as [B N].
  destruct R as [_ [HE _]].
  apply float_of_valid; assumption.
Qed.

(** The quotient of the rescaling is a number of the format. *)
Lemma rescale_valid (x mn mx : spec_float) :
  Float.is_finite x = true -> Float.is_finite mn = true ->
  Float.is_finite mx = true ->
  valid_binary prec emax x = true -> valid_binary prec emax mn = true ->
  valid_binary prec emax mx = true ->
  (B2Q mn <= B2Q x)%Q -> (B2Q x <= B2Q mx)%Q ->
  Float.is_finite (SFsub prec emax mx mn) = true ->
  Float.is_zero (SFsub prec emax mx mn) = false ->
  valid_binary prec emax
    (SFdiv prec emax (SFsub prec emax x mn) (SFsub prec emax mx mn)) = true.
Proof.
  intros Fx Fmn Fmx Vx Vmn Vmx Hlo Hhi Fb Zb.
  assert (Hb_pos : (B2Q mn < B2Q mx)%Q).
  { destruct (Qlt_le_dec (B2Q mn) (B2Q mx)) as [H|H]; [exact H|exfalso].
    assert (E : (B2Q mx == B2Q mn)%Q) by lra.
    rewrite (sub_zero_spec prec emax mx mn Fmx Fmn E) in Zb. discriminate. }
  destruct (sub_spec prec emax Hprec mx mn Fmx Fmn Vmx Vmn Hb_pos)
    as [Ev [mv [lv [Rv Hbv]]]].
  pose proof (float_of_cases prec emax (round_nearest_even mv lv) Ev) as Cb.
  rewrite <- Hbv in Cb.
  destruct Cb as [Cb|[[mb [eb Cb]]|Cb]];
    [rewrite Cb in Zb; discriminate| |rewrite Cb in Fb; discriminate].
  rewrite Cb.
  assert (Zq : Float.is_zero (SFsub prec emax x mn) = true ->
             valid_binary prec emax
               (SFdiv prec emax (SFsub prec emax x mn)
                  (S754_finite false mb eb)) = true).
  { intros Hz. destruct (SFsub prec emax x mn); try discriminate.
    reflexivity. }
  destruct (Qlt_le_dec (B2Q mn) (B2Q x)) as [Hlt|Hge].
  - destruct (sub_spec prec emax Hprec x mn Fx Fmn Vx Vmn Hlt)
      as [Eu [mu [lu [Ru Hau]]]].
    pose proof (float_of_cases prec emax (round_nearest_even mu lu) Eu) as Ca.
    rewrite <- Hau in Ca.
    destruct Ca as [Ca|[[ma [ea Ca]]|Ca]].
    + apply Zq. rewrite Ca. reflexivity.
    + rewrite Ca.
      apply (rounds_to_valid (mag ma ea / mag mb eb)).
      apply div_spec, Hprec.
    + rewrite Ca. reflexivity.
  - apply Zq. apply sub_zero_spec; [exact Fx|exact Fmn|lra].
Qed.

(** [1 - q] for a number [q] of the format between 0 and 1. *)
Lemma invert_unit (q : spec_float) :
  Float.is_finite (ONE prec) = true ->
  valid_binary prec emax (ONE prec) = true ->
  (B2Q (ONE prec) == 1)%Q ->
  FloatSpec.nonneg q = true -> Float.is_finite q = true ->
  valid_binary prec emax q = true -> (B2Q q <= 1)%Q ->
  let y := SFsub prec emax (ONE prec) q in
  FloatSpec.nonneg y = true /\ SFleb y (ONE prec) = true /\
  Float.is_finite y = true /\ (B2Q y <= 1)%Q.
Proof.
  intros F1 V1 E1 Hn Hf Hv Hq y. unfold y. clear y.
  assert (H0 : (0 <= B2Q q)%Q).
  { destruct q as [s|s| |s m e]; try discriminate; cbn [B2Q]; try lra.
    destruct s; [discriminate|]. cbn [cond_Zopp].
    apply Qmult_le_0_compat; [|apply Qlt_le_weak, bpow_pos].
    change 0%Q with (inject_Z 0). rewrite <- Zle_Qle. lia. }
  destruct (Qlt_le_dec (B2Q q) 1) as [Hlt|Hge].
  - assert (Hlt' : (B2Q q < B2Q (ONE prec))%Q) by lra.
    pose proof (sub_spec prec emax Hprec (ONE prec) q F1 Hf V1 Hv Hlt') as R.
    apply (rounds_to_le_one prec emax Hprec Hemax (B2Q (ONE prec) - B2Q q));
      [exact R|lra].
  - assert (E : (B2Q (ONE prec) == B2Q q)%Q) by lra.
    pose proof (sub_zero_spec prec emax (ONE prec) q F1 Hf E) as Hz.
    destruct (SFsub prec emax (ONE prec) q) as [s| | |]; try discriminate.
    split; [reflexivity|]. split; [apply zero_le_one|].
    split; [reflexivity|]. cbn [B2Q]. lra.
Qed.

End Validity.

Lemma ONE_finite (f : format) : is_finite (ONE (prec f)) = true.
Proof. destruct f; reflexivity. Qed.

Lemma ONE_valid (f : format) :
  valid_binary (prec f) (emax f) (ONE (prec f)) = true.
Proof. destruct f; vm_compute; reflexivity. Qed.

Lemma ONE_value (f : format) : (B2Q (ONE (prec f)) == 1)%Q.
Proof. destruct f; vm_compute; reflexivity. Qed.

Lemma sub_one_zero (f : format) (s : bool) :
  sub f (one f) (S754_zero s) = one f.
Proof. destruct f, s; vm_compute; reflexivity. Qed.

Lemma sub_one_one (f : format) : sub f (one f) (one f) = S754_zero false.
Proof. destruct f; vm_compute; reflexivity. Qed.

(** One row of the inverted rescaling, under the conditions of
    [rescaled_row_in_unit]. *)
Lemma inverted_row_in_unit (f : format) (x mn mx : spec_float) :
  is_finite x = true -> is_finite mn = true -> is_finite mx = true ->
  valid f x = true -> valid f mn = true -> valid f mx = true ->
  (B2Q mn <= B2Q x)%Q -> (B2Q x <= B2Q mx)%Q ->
  is_finite (sub f mx mn) = true -> is_zero (sub f mx mn) = false ->
  in_unit_interval binary32
    (astype f binary32
       (sub f (one f) (div f (sub f x mn) (sub f mx mn)))) = true.
Proof.
  intros Fx Fmn Fmx Vx Vmn Vmx Hlo Hhi Fb Zb.
  destruct (rescale_unit (prec f) (emax f) (prec_pos f) (prec_lt_emax f)
              x mn mx Fx Fmn Fmx Vx Vmn Vmx Hlo Hhi Fb Zb)
    as [Hn [_ [Hf Hv]]].
  pose proof (rescale_valid (prec f) (emax f) (prec_pos f)
                x mn mx Fx Fmn Fmx Vx Vmn Vmx Hlo Hhi Fb Zb) as Hval.
  fold (sub f x mn) (sub f mx mn) in Hn, Hf, Hv, Hval.
  fold (div f (sub f x mn) (sub f mx mn)) in Hn, Hf, Hv, Hval.
  set (q := div f (sub f x mn) (sub f mx mn)) in *.
  destruct (invert_unit (prec f) (emax f) (prec_pos f) (prec_lt_emax f) q
              (ONE_finite f) (ONE_valid f) (ONE_value f) Hn Hf Hval Hv)
    as [Hn' [Hle' [Hf' Hv']]].
  rewrite ONE_one in Hn', Hle', Hf', Hv'.
  fold (sub f (one f) q) in Hn', Hle', Hf', Hv'.
  set (y := sub f (one f) q) in *.
  unfold astype. destruct f; cbn [format_eqb].
  - apply in_unit_interval_intro; [exact Hn'|].
    rewrite ONE_one. exact Hle'.
  - destruct (cast_unit (prec binary32) (emax binary32)
                (prec_pos binary32) (prec_lt_emax binary32) y Hn' Hf' Hv')
      as [Hn'' Hle''].
    apply in_unit_interval_intro; assumption.
Qed.

(** The inverted score of a row holding the minimum is 1. *)
Lemma inverted_min_row (f : format) (x mn b : spec_float) :
  is_finite x = true -> SFeqb x mn = true ->
  is_finite b = true -> is_zero b = false ->
  astype f binary32 (sub f (one f) (div f (sub f x mn) b)) = one binary32.
Proof.
  intros Hx He Hb Hz.
  assert (Hs : is_zero (sub f x mn) = true).
  { destruct (SFeqb_cases x mn He) as [E|[E1 E2]].
    - subst mn. rewrite (sub_self f x Hx). reflexivity.
    - apply sub_zero_zero; assumption. }
  destruct b as [s|s| |s m e]; simpl in Hb, Hz; try discriminate.
  pose proof (div_zero_finite f (sub f x mn) s m e Hs) as Hd.
  destruct (div f (sub f x mn) (S754_finite s m e)) as [s'| | |];
    simpl in Hd; try discriminate.
  rewrite sub_one_zero. apply astype_one.
Qed.

(** The inverted score of a row holding the maximum is 0. *)
Lemma inverted_max_row (f : format) (x mx mn : spec_float) :
  is_finite mn = true -> SFeqb x mx = true ->
  is_finite (sub f mx mn) = true -> is_zero (sub f mx mn) = false ->
  astype f binary32
    (sub f (one f) (div f (sub f x mn) (sub f mx mn))) = zero.
Proof.
  intros Hmn He Hb Hz.
  assert (Hs : sub f x mn = sub f mx mn).
  { destruct (SFeqb_cases x mx He) as [E|[E1 E2]]; [subst; reflexivity|].
    destruct x as [sx| | |], mx as [sm| | |]; simpl in *; try discriminate.
    destruct mn as [sn|sn| |sn mn en]; simpl in *; try discriminate.
    - destruct sm, sn; simpl in Hz; discriminate.
    - reflexivity. }
  rewrite Hs.
  destruct (sub f mx mn) as [s|s| |s m e]; simpl in Hb, Hz;
    try discriminate.
  rewrite div_self, sub_one_one. apply astype_zero.
Qed.

End InvertFacts.

Lemma normalize_scores_unfold_inverted (results : Table) (column_ : string)
    (f : Float.format) (scores : list spec_float) :
  table_wf results ->
  num_rows results <> 0%nat ->
  column results column_ = Ok (FloatArray f scores) ->
  exists i,
    index (column_names results) column_ = Ok i /\
    nth_error (columns results) i = Some (column_, FloatArray f scores) /\
    _normalize_scores results column_ true
    = Ok (with_scores results i column_
            (map (fun x =>
                    astype f Float.binary32
                      (Float.sub f (Float.one f)
                         (Float.div f (Float.sub f x (Float.min scores))
                            (if Float.isclose f (Float.max scores)
                                  (Float.min scores)
                             then Float.max scores
                             else Float.sub f (Float.max scores)
                                    (Float.min scores)))))
                 scores)).
Proof.
  intros Hwf Hrows Hcol.
  destruct (column_index results column_ _ Hcol) as [i [Hi Hn]].
  exists i. split; [exact Hi|]. split; [exact Hn|].
  unfold _normalize_scores, len.
  apply Nat.eqb_neq in Hrows. rewrite Hrows.
  rewrite Hcol. simpl. rewrite Hi. simpl.
  rewrite !map_map.
  apply (set_column_scores results i column_ (FloatArray f scores)); [exact Hn|].
  rewrite length_map.
  apply (column_length results column_ _ Hwf Hcol).
Qed.

(** X27: [_normalize_scores] with [invert=True], under the conditions of
    the rescaling (at least one row, finite scores, [max] and [min] not
    close, [max - min] finite): each value [x] becomes
    [1 - (x - min) / (max - min)], computed in the column's format and
    stored as [float32]; every output lies in [0, 1], a row holding the
    minimum gets exactly 1 and a row holding the maximum gets 0. *)
Theorem normalize_scores_inverted :
  forall (results : Table) (column_ : string) (f : Float.format)
         (scores : list spec_float),
    table_wf results ->
    num_rows results <> 0%nat ->
    column results column_ = Ok (FloatArray f scores) ->
    finite_scores f scores ->
    Float.isclose f (Float.max scores) (Float.min scores) = false ->
    Float.is_finite (Float.sub f (Float.max scores) (Float.min scores)) = true ->
    let inverted := fun x =>
      astype f Float.binary32
        (Float.sub f (Float.one f)
           (Float.div f (Float.sub f x (Float.min scores))
              (Float.sub f (Float.max scores) (Float.min scores)))) in
    exists i,
      index (column_names results) column_ = Ok i /\
      _normalize_scores results column_ true
      = Ok (with_scores results i column_ (map inverted scores)) /\
      (forall x, In x scores ->
         in_unit_interval Float.binary32 (inverted x) = true) /\
      (forall x, In x scores -> SFeqb x (Float.min scores) = true ->
         inverted x = Float.one Float.binary32) /\
      (forall x, In x scores -> SFeqb x (Float.max scores) = true ->
         inverted x = Float.zero).
Proof.
  intros results column_ f scores Hwf Hrows Hcol Hfs Hclose Hfin inverted.
  destruct (normalize_scores_unfold_inverted results column_ f scores
              Hwf Hrows Hcol) as [i [Hi [Hn Hrun]]].
  rewrite Hclose in Hrun.
  assert (Hne : scores <> []).
  { intros E. subst scores.
    pose proof (column_length results column_ _ Hwf Hcol) as Hl.
    simpl in Hl. congruence. }
  destruct (UnitInterval.max_min_bounds f scores Hne Hfs)
    as [Fmx [Vmx [Fmn [Vmn Hb]]]].
  pose proof (RescaleFacts.not_close_sub_nonzero f _ _ Fmx Fmn Hclose) as Hnz.
  exists i. split; [exact Hi|]. split; [exact Hrun|].
  split; [|split].
  - intros x Hx. unfold finite_scores in Hfs. rewrite Forall_forall in Hfs.
    destruct (Hfs x Hx) as [Fx Vx]. destruct (Hb x Hx) as [Hlo Hhi].
    apply InvertFacts.inverted_row_in_unit; assumption.
  - intros x Hx He. unfold finite_scores in Hfs. rewrite Forall_forall in Hfs.
    destruct (Hfs x Hx) as [Fx _].
    apply InvertFacts.inverted_min_row; assumption.
  - intros x Hx He.
    apply InvertFacts.inverted_max_row; assumption.
Qed.

Lemma normalize_scores_inverted_witness :
  exists i,
    index (column_names unsorted_table) "_distance" = Ok i /\
    _normalize_scores unsorted_table "_distance" true
    = Ok (with_scores unsorted_table i "_distance"
            [S754_zero false; f32 1; S754_finite false 11184810 (-24)]).
Proof.
  destruct (normalize_scores_inverted unsorted_table "_distance"
              Float.binary32 [f32 4; f32 1; f32 2])
    as [i [Hi [Hrun _]]].
  - repeat constructor.
  - discriminate.
  - reflexivity.
  - repeat constructor.
  - vm_compute. reflexivity.
  - vm_compute. reflexivity.
  - exists i. split; [exact Hi|]. rewrite Hrun. vm_compute. reflexivity.
Defined.

(** ** Rank-mode normalisation end to end *)

Module ExactFacts.

Import Float FloatSpec FloatFacts RescaleFacts RescaleRows IEEE IEEEFacts
  UnitInterval InvertFacts.

Section Exact.

Variables prec emax : Z.
Hypothesis Hprec : (0 < prec)%Z.
Hypothesis Hemax : (prec < emax)%Z.

(** An integer sits exactly on an integer. *)
Lemma located_integer (k m : Z) (l : location) :
  located (inject_Z k) m l -> m = k /\ round_nearest_even m l = m.
Proof.
  destruct l as [|[| |]]; cbn [located]; intros H.
  - assert (E : k = m) by (apply inject_Z_injective; exact H).
    subst. split; reflexivity.
  - exfalso.
    assert (H1 : (m < k)%Z).
    { apply inject_Z_lt. rewrite H. lra. }
    assert (H2 : (inject_Z (m + 1) <= inject_Z k)%Q)
      by (apply Z_le_inject; lia).
    rewrite inject_Z_succ in H2. lra.
  - exfalso. destruct H as [H1 H2].
    apply inject_Z_lt in H1.
    assert (H3 : (inject_Z (m + 1) <= inject_Z k)%Q)
      by (apply Z_le_inject; lia).
    rewrite inject_Z_succ in H3. lra.
  - exfalso. destruct H as [H1 H2].
    assert (H3 : (inject_Z m < inject_Z k)%Q) by lra.
    apply inject_Z_lt in H3.
    assert (H4 : (inject_Z (m + 1) <= inject_Z k)%Q)
      by (apply Z_le_inject; lia).
    rewrite inject_Z_succ in H4. lra.
Qed.

Lemma emin_nonpos : (emin prec emax <= 0)%Z.
Proof. unfold emin. lia. Qed.

(** A positive integer below [2 ^ prec] rounds to itself. *)
Lemma rounds_to_exact (z : Z) (x : spec_float) :
  (0 < z < 2 ^ prec)%Z ->
  rounds_to prec emax (inject_Z z) x ->
  is_finite x = true /\ (B2Q x == inject_Z z)%Q.
Proof.
  intros Hz [E [m1 [l1 [R ->]]]].
  pose proof R as [Hloc [HE [Hm Hn]]].
  assert (HE0 : (E <= 0)%Z).
  { destruct Hn as [->|Hn]; [apply emin_nonpos|].
    destruct (Z.le_gt_cases E 0) as [H|H]; [exact H|exfalso].
    destruct (located_bounds _ _ _ Hloc) as [B1 _].
    assert (Hb : (bpow (- E) <= bpow (-1))%Q) by (apply bpow_le; lia).
    rewrite bpow_neg1 in Hb.
    assert (Hz' : (inject_Z z < inject_Z (2 ^ prec))%Q)
      by (apply Z_lt_inject; lia).
    rewrite (pow2_prec_split prec Hprec) in Hz'.
    rewrite inject_Z_mult in Hz'.
    assert (Hm' : (inject_Z (2 ^ (prec - 1)) <= inject_Z m1)%Q)
      by (apply Z_le_inject; exact Hn).
    assert (Hzp : (0 < inject_Z z)%Q).
    { change 0%Q with (inject_Z 0). apply Z_lt_inject. lia. }
    assert (Hp : (inject_Z z * bpow (- E) <= inject_Z z * (1 # 2))%Q).
    { rewrite !(Qmult_comm (inject_Z z)).
      apply Qmult_le_compat_r; [exact Hb|lra]. }
    change (inject_Z 2) with 2%Q in Hz'. lra. }
  assert (Hk : (inject_Z z * bpow (- E) == inject_Z (z * 2 ^ (- E)))%Q).
  { rewrite (bpow_Z (- E)) by lia. rewrite inject_Z_mult. reflexivity. }
  assert (Hloc' : located (inject_Z (z * 2 ^ (- E))) m1 l1).
  { apply (located_ext (inject_Z z * bpow (- E))); [exact Hk|exact Hloc]. }
  destruct (located_integer _ _ _ Hloc') as [Hm1 Hr].
  rewrite Hr.
  assert (Hval : (inject_Z m1 * bpow E == inject_Z z)%Q).
  { rewrite Hm1, <- Hk. apply unscale. }
  assert (Hfin : is_finite (float_of prec emax m1 E) = true).
  { apply (float_of_finite prec emax Hprec Hemax); [lia|exact Hn|].
    rewrite Hval.
    assert (H1 : (inject_Z z < inject_Z (2 ^ prec))%Q)
      by (apply Z_lt_inject; lia).
    rewrite <- (bpow_Z prec) in H1 by lia.
    pose proof (bpow_lt prec emax Hemax). lra. }
  split; [exact Hfin|].
  rewrite (float_of_value prec emax Hprec m1 E ltac:(lia) Hfin).
  exact Hval.
Qed.

End Exact.

(** Small positive integers are numbers of the format. *)
Lemma of_Z_exact (f : format) (z : Z) :
  (0 < z < 2 ^ prec f)%Z ->
  is_finite (of_Z f z) = true /\ valid f (of_Z f z) = true /\
  (B2Q (of_Z f z) == inject_Z z)%Q.
Proof.
  intros Hz. unfold of_Z, valid.
  destruct z as [|p|p]; try lia. cbn [binary_normalize].
  pose proof (binary_round_spec (prec f) (emax f) (prec_pos f) p 0) as R.
  apply (rounds_to_ext _ _ _ (inject_Z (Z.pos p))) in R;
    [|rewrite bpow_0; ring].
  destruct (rounds_to_exact (prec f) (emax f) (prec_pos f) (prec_lt_emax f)
              (Z.pos p) _ Hz R) as [Hf Hv].
  split; [exact Hf|]. split; [|exact Hv].
  apply (rounds_to_valid (prec f) (emax f) (prec_pos f) _ _ R).
Qed.

(** The difference of two of them is exact, too. *)
Lemma sub_of_Z_exact (f : format) (a b : Z) :
  (0 < b)%Z -> (b < a)%Z -> (a < 2 ^ prec f)%Z ->
  let y := sub f (of_Z f a) (of_Z f b) in
  is_finite y = true /\ valid f y = true /\
  (B2Q y == inject_Z (a - b))%Q /\ SFabs y = y.
Proof.
  intros Hb Hab Ha y. unfold y. clear y.
  destruct (of_Z_exact f a ltac:(lia)) as [Fa [Va Ea]].
  destruct (of_Z_exact f b ltac:(lia)) as [Fb [Vb Eb]].
  assert (Hlt : (B2Q (of_Z f b) < B2Q (of_Z f a))%Q).
  { rewrite Ea, Eb. apply Z_lt_inject. exact Hab. }
  pose proof (sub_spec (prec f) (emax f) (prec_pos f) _ _ Fa Fb Va Vb Hlt)
    as R.
  apply (rounds_to_ext _ _ _ (inject_Z (a - b))) in R.
  2:{ rewrite Ea, Eb. unfold Z.sub. rewrite inject_Z_plus, inject_Z_opp.
      ring. }
  fold (sub f (of_Z f a) (of_Z f b)) in R.
  destruct (rounds_to_exact (prec f) (emax f) (prec_pos f) (prec_lt_emax f)
              (a - b) _ ltac:(lia) R) as [Hf Hv].
  split; [exact Hf|]. split; [|split; [exact Hv|]].
  - apply (rounds_to_valid (prec f) (emax f) (prec_pos f) _ _ R).
  - destruct R as [E [m1 [l1 [_ Hx]]]]. rewrite Hx.
    destruct (float_of_cases (prec f) (emax f) (round_nearest_even m1 l1) E)
      as [C|[[m [e C]]|C]]; rewrite C; reflexivity.
Qed.

(** Ranks 1 and [n] are never close, from two rows on. *)
Lemma ranks_not_close (n : Z) :
  (2 <= n < 2 ^ 24)%Z ->
  isclose binary32 (of_Z binary32 n) (of_Z binary32 1) = false.
Proof.
  intros Hn.
  destruct (of_Z_exact binary32 n ltac:(cbn; lia)) as [Fn _].
  destruct (sub_of_Z_exact binary32 n 1 ltac:(lia) ltac:(lia)
              ltac:(cbn; lia)) as [Fy [Vy [Ey Hy]]].
  unfold isclose. rewrite Fn. cbn [andb is_finite of_Z].
  change (is_finite (binary_normalize (prec binary32) (emax binary32) 1 0 false))
    with true.
  cbv iota. fold (of_Z binary32 1). rewrite Hy.
  set (c := add binary32 (atol binary32)
              (mul binary32 (rtol binary32) (SFabs (of_Z binary32 1)))).
  destruct (SFleb (sub binary32 (of_Z binary32 n) (of_Z binary32 1)) c)
    eqn:Hle; [exfalso|reflexivity].
  assert (Fc : is_finite c = true) by (vm_compute; reflexivity).
  assert (Vc : valid_binary (prec binary32) (emax binary32) c = true)
    by (vm_compute; reflexivity).
  pose proof (SFleb_true_B2Q (prec binary32) (emax binary32)
                (prec_pos binary32) _ _ Fy Fc Vy Vc Hle) as H.
  assert (Hc : (B2Q c < 1)%Q) by (vm_compute; reflexivity).
  rewrite Ey in H.
  assert (H1 : (inject_Z 1 <= inject_Z (n - 1))%Q)
    by (apply Z_le_inject; lia).
  change (inject_Z 1) with 1%Q in H1. lra.
Qed.

End ExactFacts.


Lemma replace_nth_twice {A : Type} (i : nat) (x y : A) (l : list A) :
  replace_nth i x (replace_nth i y l) = replace_nth i x l.
Proof.
  revert i. induction l as [|z l IH]; intros [|i]; simpl; try reflexivity.
  rewrite IH. reflexivity.
Qed.

Lemma SFeqb_refl_finite (x : spec_float) :
  Float.is_finite x = true -> SFeqb x x = true.
Proof.
  destruct x as [s|s| |s m e]; try discriminate; intros _.
  - reflexivity.
  - unfold SFeqb, SFcompare. destruct s; rewrite Z.compare_refl.
    + rewrite Pos.compare_cont_refl. reflexivity.
    + rewrite Pos.compare_cont_refl. reflexivity.
Qed.

Lemma nth_map_in_range {A B : Type} (g : A -> B) (l : list A) (p : nat)
    (da : A) (db : B) :
  (p < length l)%nat -> nth p (map g l) db = g (nth p l da).
Proof.
  intros Hp. rewrite (nth_indep _ db (g da)) by (rewrite length_map; exact Hp).
  apply map_nth.
Qed.

(** X28: rank-mode normalisation as [to_arrow] runs it, [_rank] followed
    by [_normalize_scores].  On a table with at least 2 and fewer than
    2^24 rows, when [np.argsort] returns indices that sort the scores, the
    two steps succeed and leave every score in [0, 1]; the row that comes
    first in the sorted order gets 0 and the row that comes last gets
    exactly 1. *)
Theorem rank_then_normalize :
  forall (np_argsort : list spec_float -> list nat) (results : Table)
         (column_ : string) (f : Float.format) (scores : list spec_float),
    table_wf results ->
    (2 <= num_rows results)%nat ->
    (Z.of_nat (num_rows results) < 2 ^ 24)%Z ->
    column results column_ = Ok (FloatArray f scores) ->
    argsort_ok scores (np_argsort scores) = true ->
    exists i ranked out,
      index (column_names results) column_ = Ok i /\
      _rank np_argsort results column_ true = Ok ranked /\
      _normalize_scores ranked column_ false
      = Ok (with_scores results i column_ out) /\
      length out = num_rows results /\
      (forall x, In x out ->
         in_unit_interval Float.binary32 x = true) /\
      Float.is_zero (nth (nth 0 (np_argsort scores) 0%nat) out S754_nan)
      = true /\
      nth (nth (num_rows results - 1) (np_argsort scores) 0%nat) out
        S754_nan
      = Float.one Float.binary32.
Proof.
  intros np_argsort results column_ f scores Hwf Hrows Hbig Hcol Hok.
  pose proof (argsort_ok_facts _ _ Hok) as Hf.
  assert (Hnz : num_rows results <> 0%nat) by lia.
  destruct (rank_unfold np_argsort results column_ f scores Hwf Hnz Hcol Hf)
    as [i [ranks [Hi [_ [Hrun [Hl Hw]]]]]].
  destruct Hf as [Hlen Hb Hnd Hperm _].
  pose proof (column_length results column_ _ Hwf Hcol) as Hn.
  cbn [array_length] in Hn.
  destruct (column_index results column_ _ Hcol) as [i' [Hi' Hnth]].
  rewrite Hi in Hi'. inversion Hi'; subst i'. clear Hi'.
  set (idx := np_argsort scores) in *.
  set (n := length scores) in *.
  set (rf := map (Float.of_Z Float.binary32) ranks) in *.
  set (ranked := with_scores results i column_ rf) in *.
  (* the ranked table *)
  assert (Hlrf : length rf = num_rows results)
    by (unfold rf; rewrite length_map, Hl; exact Hn).
  assert (Hwf' : table_wf ranked).
  { unfold table_wf, ranked, with_scores in *. cbn [columns num_rows].
    apply Forall_replace_nth; [exact Hwf|exact Hlrf]. }
  assert (Hcol' : column ranked column_ = Ok (FloatArray Float.binary32 rf)).
  { unfold column in *. unfold ranked, with_scores. cbn [columns].
    destruct (filter _ (columns results)) as [|c [|c' l]] eqn:Hfl;
      try discriminate.
    rewrite (filter_replace_nth_same _ _ column_ _ _ c Hnth Hfl).
    reflexivity. }
  destruct (normalize_scores_unfold ranked column_ Float.binary32 rf
              Hwf' Hnz Hcol') as [i2 [Hi2 [_ Hrun2]]].
  assert (Hnames : column_names ranked = column_names results).
  { unfold column_names, ranked, with_scores. cbn [columns].
    apply (map_fst_replace_nth column_ (FloatArray f scores)), Hnth. }
  rewrite Hnames, Hi in Hi2. inversion Hi2; subst i2. clear Hi2.
  (* every rank lies between 1 and n *)
  assert (Hin : forall p, (p < n)%nat ->
            exists j, (j < n)%nat /\ nth j idx 0%nat = p).
  { intros p Hp.
    assert (Hin' : In p idx).
    { apply (Permutation_in p (Permutation_sym Hperm)). apply in_seq. lia. }
    destruct (In_nth idx p 0%nat Hin') as [j [Hj Hnj]].
    exists j. split; [lia|exact Hnj]. }
  assert (Hrange : forall r, In r ranks -> (1 <= r <= Z.of_nat n)%Z).
  { intros r Hr. destruct (In_nth ranks r 0%Z Hr) as [p [Hp Hrp]].
    rewrite Hl in Hp. destruct (Hin p Hp) as [j [Hj Ej]].
    rewrite <- Hrp, <- Ej, Hw by exact Hj. lia. }
  assert (Hidx : forall j, (j < n)%nat -> (nth j idx 0%nat < n)%nat).
  { intros j Hj. rewrite Forall_forall in Hb. apply Hb.
    apply nth_In. rewrite Hlen. exact Hj. }
  assert (Hfs : finite_scores Float.binary32 rf).
  { unfold finite_scores, rf. rewrite Forall_map, Forall_forall.
    intros r Hr. destruct (Hrange r Hr) as [H1 H2].
    destruct (ExactFacts.of_Z_exact Float.binary32 r) as [Fr [Vr _]];
      [cbn; lia|].
    split; assumption. }
  assert (Hval : forall r, In r ranks ->
            (IEEE.B2Q (Float.of_Z Float.binary32 r) == inject_Z r)%Q).
  { intros r Hr. destruct (Hrange r Hr) as [H1 H2].
    apply (ExactFacts.of_Z_exact Float.binary32 r). cbn. lia. }
  assert (Hfirst : nth (nth 0 idx 0%nat) ranks 0%Z = 1%Z)
    by (rewrite Hw by lia; reflexivity).
  assert (Hlast : nth (nth (n - 1) idx 0%nat) ranks 0%Z = Z.of_nat n)
    by (rewrite Hw by lia; lia).
  assert (Hin1 : In 1%Z ranks).
  { rewrite <- Hfirst. apply nth_In. rewrite Hl. apply Hidx. lia. }
  assert (Hinn : In (Z.of_nat n) ranks).
  { rewrite <- Hlast. apply nth_In. rewrite Hl. apply Hidx. lia. }
  assert (Hne : rf <> []).
  { intros E. rewrite E in Hlrf. simpl in Hlrf. lia. }
  destruct (UnitInterval.max_min_bounds Float.binary32 rf Hne Hfs)
    as [Fmx [Vmx [Fmn [Vmn Hbd]]]].
  assert (Hmax : Float.max rf = Float.of_Z Float.binary32 (Z.of_nat n)).
  { pose proof (RescaleFacts.max_In rf Hne) as Hm.
    unfold rf in Hm at 2. apply in_map_iff in Hm.
    destruct Hm as [r [Er Hr]].
    destruct (Hbd (Float.of_Z Float.binary32 (Z.of_nat n))) as [_ Hhi].
    { unfold rf. apply in_map. exact Hinn. }
    rewrite <- Er in Hhi. rewrite (Hval _ Hinn), (Hval _ Hr) in Hhi.
    apply IEEEFacts.inject_Z_le in Hhi.
    destruct (Hrange r Hr) as [_ H2].
    rewrite <- Er. f_equal. lia. }
  assert (Hmin : Float.min rf = Float.of_Z Float.binary32 1).
  { pose proof (RescaleFacts.min_In rf Hne) as Hm.
    unfold rf in Hm at 2. apply in_map_iff in Hm.
    destruct Hm as [r [Er Hr]].
    destruct (Hbd (Float.of_Z Float.binary32 1)) as [Hlo _].
    { unfold rf. apply in_map. exact Hin1. }
    rewrite <- Er in Hlo. rewrite (Hval _ Hin1), (Hval _ Hr) in Hlo.
    apply IEEEFacts.inject_Z_le in Hlo.
    destruct (Hrange r Hr) as [H1 _].
    rewrite <- Er. f_equal. lia. }
  assert (Hn2 : (2 <= Z.of_nat n < 2 ^ 24)%Z) by lia.
  pose proof (ExactFacts.ranks_not_close (Z.of_nat n) Hn2) as Hclose.
  destruct (ExactFacts.sub_of_Z_exact Float.binary32 (Z.of_nat n) 1
              ltac:(lia) ltac:(lia) ltac:(cbn; lia)) as [Fsub _].
  rewrite <- Hmax, <- Hmin in Hclose, Fsub.
  pose proof (RescaleFacts.not_close_sub_nonzero Float.binary32 _ _
                Fmx Fmn Hclose) as Hsubnz.
  rewrite Hclose in Hrun2.
  set (rescale := fun x =>
         astype Float.binary32 Float.binary32
           (Float.div Float.binary32
              (Float.sub Float.binary32 x (Float.min rf))
              (Float.sub Float.binary32 (Float.max rf) (Float.min rf))))
    in *.
  exists i, ranked, (map rescale rf).
  split; [exact Hi|]. split; [exact Hrun|]. split.
  { rewrite Hrun2. unfold ranked, with_scores. cbn [columns num_rows].
    rewrite replace_nth_twice. reflexivity. }
  split; [rewrite length_map; exact Hlrf|]. split; [|split].
  - intros x Hx. apply in_map_iff in Hx. destruct Hx as [y [<- Hy]].
    unfold finite_scores in Hfs. rewrite Forall_forall in Hfs.
    destruct (Hfs y Hy) as [Fy Vy]. destruct (Hbd y Hy) as [Hlo Hhi].
    apply UnitInterval.rescaled_row_in_unit; assumption.
  - rewrite (nth_map_in_range rescale rf _ S754_nan)
      by (rewrite Hlrf, <- Hn; apply Hidx; lia).
    unfold rf at 1.
    rewrite (nth_map_in_range (Float.of_Z Float.binary32) ranks _ 0%Z)
      by (rewrite Hl; apply Hidx; lia).
    rewrite Hfirst. unfold rescale.
    apply RescaleRows.min_row_zero.
    + reflexivity.
    + rewrite Hmin. reflexivity.
    + exact Fsub.
    + exact Hsubnz.
  - rewrite <- Hn.
    rewrite (nth_map_in_range rescale rf _ S754_nan)
      by (rewrite Hlrf, <- Hn; apply Hidx; lia).
    unfold rf at 1.
    rewrite (nth_map_in_range (Float.of_Z Float.binary32) ranks _ 0%Z)
      by (rewrite Hl; apply Hidx; lia).
    rewrite Hlast. unfold rescale.
    apply RescaleRows.max_row_one.
    + exact Fmn.
    + rewrite Hmax. apply SFeqb_refl_finite. rewrite <- Hmax. exact Fmx.
    + exact Fsub.
    + exact Hsubnz.
Qed.

Lemma rank_then_normalize_witness :
  exists ranked i,
    _rank TiesLastFirst.argsort unsorted_table "_distance" true = Ok ranked /\
    index (column_names unsorted_table) "_distance" = Ok i /\
    _normalize_scores ranked "_distance" false
    = Ok (with_scores unsorted_table i "_distance"
            [f32 1; S754_zero false; S754_finite false 8388608 (-24)]).
Proof.
  destruct (rank_then_normalize TiesLastFirst.argsort unsorted_table
              "_distance" Float.binary32 [f32 4; f32 1; f32 2])
    as [i [ranked [out [Hi [Hrun [Hnorm _]]]]]].
  - repeat constructor.
  - cbn. lia.
  - cbn. lia.
  - reflexivity.
  - vm_compute. reflexivity.
  - exists ranked, i. split; [exact Hrun|]. split; [exact Hi|].
    vm_compute in Hrun. inversion Hrun; subst ranked.
    vm_compute in Hi. inversion Hi; subst i.
    vm_compute. reflexivity.
Defined.

(** ** Ranks as the float32 column holds them *)

(** Ranks between 1 and fewer than 2^24 are stored exactly. *)
Lemma stored_ranks_exact (ranks : list Z) (n : Z) :
  (n < 2 ^ 24)%Z ->
  (forall p, (p < length ranks)%nat -> (1 <= nth p ranks 0 <= n)%Z) ->
  forall p, (p < length ranks)%nat ->
    Float.is_finite
      (nth p (map (Float.of_Z Float.binary32) ranks) S754_nan) = true /\
    (IEEE.B2Q (nth p (map (Float.of_Z Float.binary32) ranks) S754_nan)
     == inject_Z (nth p ranks 0%Z))%Q.
Proof.
  intros Hn Hr p Hp.
  rewrite (nth_map_in_range (Float.of_Z Float.binary32) ranks p 0%Z)
    by exact Hp.
  destruct (Hr p Hp) as [H1 H2].
  destruct (ExactFacts.of_Z_exact Float.binary32 (nth p ranks 0%Z))
    as [Hf [_ Hv]]; [cbn; lia|].
  split; assumption.
Qed.

(** C3 (as the code has it): on a table with at least one row and fewer
    than 2^24 rows, rank-mode normalisation replaces each value of the
    named score column by its 1-based position in the ascending order
    [np.argsort] returns: the ranks are a permutation of 1..N, the row at
    sorted position [j] gets rank [j + 1], and a strictly smaller score
    always gets a smaller rank (rank 1 goes to a smallest value).  The
    [float32] column that is stored holds these ranks exactly.  Equal
    scores get distinct ranks in the order [np.argsort] lists them. *)
Theorem rank_ascending_positions :
  forall (np_argsort : list spec_float -> list nat) (results : Table)
         (column_ : string) (f : Float.format) (scores : list spec_float),
    table_wf results ->
    num_rows results <> 0%nat ->
    (Z.of_nat (num_rows results) < 2 ^ 24)%Z ->
    column results column_ = Ok (FloatArray f scores) ->
    argsort_ok scores (np_argsort scores) = true ->
    exists i ranks,
      index (column_names results) column_ = Ok i /\
      _rank np_argsort results column_ true
      = Ok (with_scores results i column_
              (map (Float.of_Z Float.binary32) ranks)) /\
      length ranks = length scores /\
      (forall j, (j < length scores)%nat ->
         nth (nth j (np_argsort scores) 0%nat) ranks 0%Z
         = (Z.of_nat j + 1)%Z) /\
      Permutation ranks (arange_plus_1 (length scores)) /\
      (forall a b, (a < length scores)%nat -> (b < length scores)%nat ->
         Float.less (score_at scores a) (score_at scores b) = true ->
         (nth a ranks 0 < nth b ranks 0)%Z) /\
      (forall p, (p < length scores)%nat ->
         Float.is_finite
           (nth p (map (Float.of_Z Float.binary32) ranks) S754_nan) = true /\
         (IEEE.B2Q (nth p (map (Float.of_Z Float.binary32) ranks) S754_nan)
          == inject_Z (nth p ranks 0%Z))%Q).
Proof.
  intros np_argsort results column_ f scores Hwf Hrows Hbig Hcol Hok.
  pose proof (argsort_ok_facts _ _ Hok) as Hf.
  destruct (rank_unfold np_argsort results column_ f scores Hwf Hrows Hcol Hf)
    as [i [ranks [Hi [_ [Hrun [Hl Hw]]]]]].
  destruct Hf as [Hlen Hb Hnd Hperm Hasc].
  pose proof (column_length results column_ _ Hwf Hcol) as Hn.
  cbn [array_length] in Hn.
  set (idx := np_argsort scores) in *.
  assert (Hin : forall p, (p < length scores)%nat ->
            exists j, (j < length scores)%nat /\ nth j idx 0%nat = p).
  { intros p Hp.
    assert (Hi' : In p idx).
    { apply (Permutation_in p (Permutation_sym Hperm)).
      apply in_seq. lia. }
    destruct (In_nth idx p 0%nat Hi') as [j [Hj Hnj]].
    exists j. split; [lia|exact Hnj]. }
  exists i, ranks.
  split; [exact Hi|]. split; [exact Hrun|]. split; [exact Hl|].
  split; [exact Hw|]. split; [|split].
  - assert (Hm : map (fun p => nth p ranks 0%Z) idx
                 = arange_plus_1 (length scores)).
    { apply (nth_ext _ _ 0%Z 0%Z).
      - unfold arange_plus_1. rewrite !length_map, length_seq. exact Hlen.
      - intros j Hj. rewrite length_map, Hlen in Hj.
        rewrite (nth_indep _ 0%Z (nth 0 ranks 0%Z))
          by (rewrite length_map, Hlen; exact Hj).
        rewrite (map_nth (fun p => nth p ranks 0%Z)).
        rewrite Hw by exact Hj. symmetry. apply nth_arange_plus_1, Hj. }
    rewrite <- Hm. rewrite <- (map_nth_seq ranks) at 1. rewrite Hl.
    apply Permutation_map. symmetry. exact Hperm.
  - intros a b Ha Hb' Hlt.
    destruct (Hin a Ha) as [ja [Hja Ea]], (Hin b Hb') as [jb [Hjb Eb]].
    rewrite <- Ea, <- Eb. rewrite !Hw by assumption.
    destruct (lt_eq_lt_dec ja jb) as [[Hlt'|Heq]|Hgt].
    + lia.
    + subst jb. rewrite Ea in Eb. subst b.
      rewrite less_irrefl in Hlt. discriminate.
    + pose proof (Hasc jb ja Hgt ltac:(lia)) as Hno.
      rewrite Ea, Eb in Hno. congruence.
  - intros p Hp.
    apply (stored_ranks_exact ranks (Z.of_nat (length scores)));
      [lia| |rewrite Hl; exact Hp].
    intros q Hq. rewrite Hl in Hq.
    destruct (Hin q Hq) as [j [Hj <-]]. rewrite Hw by exact Hj. lia.
Qed.

Lemma rank_ascending_positions_witness :
  table_wf unsorted_table /\
  argsort_ok [f32 4; f32 1; f32 2]
    (TiesLastFirst.argsort [f32 4; f32 1; f32 2]) = true /\
  exists i ranks,
    index (column_names unsorted_table) "_distance" = Ok i /\
    _rank TiesLastFirst.argsort unsorted_table "_distance" true
    = Ok (with_scores unsorted_table i "_distance"
            (map (Float.of_Z Float.binary32) ranks)) /\
    length ranks = 3%nat /\
    (forall j, (j < 3)%nat ->
       nth (nth j (TiesLastFirst.argsort [f32 4; f32 1; f32 2]) 0%nat)
         ranks 0%Z
       = (Z.of_nat j + 1)%Z) /\
    Permutation ranks (arange_plus_1 3) /\
    (forall a b, (a < 3)%nat -> (b < 3)%nat ->
       Float.less (score_at [f32 4; f32 1; f32 2] a)
                  (score_at [f32 4; f32 1; f32 2] b) = true ->
       (nth a ranks 0 < nth b ranks 0)%Z) /\
    (forall p, (p < 3)%nat ->
       Float.is_finite
         (nth p (map (Float.of_Z Float.binary32) ranks) S754_nan) = true /\
       (IEEE.B2Q (nth p (map (Float.of_Z Float.binary32) ranks) S754_nan)
        == inject_Z (nth p ranks 0%Z))%Q).
Proof.
  assert (Hwf : table_wf unsorted_table) by (repeat constructor).
  split; [exact Hwf|]. split; [reflexivity|].
  apply (rank_ascending_positions TiesLastFirst.argsort unsorted_table
           "_distance" Float.binary32 [f32 4; f32 1; f32 2] Hwf).
  - discriminate.
  - reflexivity.
  - reflexivity.
  - reflexivity.
Defined.

(** Whatever [np.argsort] does elsewhere, once it lists the tied scores
    1, 2, 0, 0 in the order 3, 2, 0, 1, [_rank] gives the two tied rows
    the ranks 2 and 1. *)
Lemma rank_on_tied_scores (np_argsort : list spec_float -> list nat) :
  np_argsort tied_scores = numpy_order_on_tied_scores ->
  _rank np_argsort tied_table "_distance" true
  = Ok (with_scores tied_table 0 "_distance" (map f32 [3; 4; 2; 1]%Z)).
Proof.
  intros H. unfold _rank.
  replace (len tied_table =? 0)%nat with false by reflexivity.
  replace (column tied_table "_distance")
    with (Ok (FloatArray Float.binary32 tied_scores)) by reflexivity.
  unfold bind at 1. unfold to_numpy. unfold bind at 1.
  rewrite H. vm_compute. reflexivity.
Qed.

(** C3, the tie-breaking part, fails: [np.argsort]'s default kind is not
    stable, and on the four scores 1, 2, 0, 0 it lists the rows in the
    order 3, 2, 0, 1, the tied rows last row first.  That order sorts the
    scores, and it is the order of the argsort used here; the ranks
    [_rank] then writes are 3, 4, 2, 1, not the ranks 3, 4, 1, 2 by
    original row order: row 2 gets rank 2 and row 3 gets rank 1. *)
Lemma rank_ties_not_stable :
  argsort_ok tied_scores numpy_order_on_tied_scores = true /\
  TiesLastFirst.argsort tied_scores = numpy_order_on_tied_scores /\
  column tied_table "_distance"
  = Ok (FloatArray Float.binary32 tied_scores) /\
  stable_ranks tied_scores = [3; 4; 1; 2]%Z /\
  _rank TiesLastFirst.argsort tied_table "_distance" true
  = Ok (with_scores tied_table 0 "_distance" (map f32 [3; 4; 2; 1]%Z)) /\
  _rank TiesLastFirst.argsort tied_table "_distance" true
  <> Ok (with_scores tied_table 0 "_distance"
           (map (Float.of_Z Float.binary32) (stable_ranks tied_scores))).
Proof.
  split; [vm_compute; reflexivity|]. split; [vm_compute; reflexivity|].
  split; [reflexivity|]. split; [vm_compute; reflexivity|].
  split; [apply rank_on_tied_scores; vm_compute; reflexivity|].
  rewrite (rank_on_tied_scores TiesLastFirst.argsort)
    by (vm_compute; reflexivity).
  vm_compute. intros H. discriminate H.
Qed.

(** ** Descending ranks *)

(** X24: [_rank] with [ascending=False].  On a table with at least one
    row and fewer than 2^24 rows, when [np.argsort] returns indices that
    sort the scores, the row at sorted position [j] gets rank [N - j]: a
    row with a largest score gets rank 1, a strictly smaller score always
    gets a larger rank, and every row's descending rank and ascending rank
    add up to [N + 1].  The [float32] column that is stored holds these
    ranks exactly. *)
Theorem rank_descending_positions :
  forall (np_argsort : list spec_float -> list nat) (results : Table)
         (column_ : string) (f : Float.format) (scores : list spec_float),
    table_wf results ->
    num_rows results <> 0%nat ->
    (Z.of_nat (num_rows results) < 2 ^ 24)%Z ->
    column results column_ = Ok (FloatArray f scores) ->
    argsort_ok scores (np_argsort scores) = true ->
    exists i ranks ascending_ranks,
      index (column_names results) column_ = Ok i /\
      _rank np_argsort results column_ false
      = Ok (with_scores results i column_
              (map (Float.of_Z Float.binary32) ranks)) /\
      _rank np_argsort results column_ true
      = Ok (with_scores results i column_
              (map (Float.of_Z Float.binary32) ascending_ranks)) /\
      length ranks = length scores /\
      (forall j, (j < length scores)%nat ->
         nth (nth j (np_argsort scores) 0%nat) ranks 0%Z
         = (Z.of_nat (length scores) - Z.of_nat j)%Z) /\
      (forall p, (p < length scores)%nat ->
         (nth p ranks 0 + nth p ascending_ranks 0
          = Z.of_nat (length scores) + 1)%Z) /\
      (forall a b, (a < length scores)%nat -> (b < length scores)%nat ->
         Float.less (score_at scores a) (score_at scores b) = true ->
         (nth b ranks 0 < nth a ranks 0)%Z) /\
      (forall p, (p < length scores)%nat ->
         Float.is_finite
           (nth p (map (Float.of_Z Float.binary32) ranks) S754_nan) = true /\
         (IEEE.B2Q (nth p (map (Float.of_Z Float.binary32) ranks) S754_nan)
          == inject_Z (nth p ranks 0%Z))%Q).
Proof.
  intros np_argsort results column_ f scores Hwf Hrows Hbig Hcol Hok.
  pose proof (column_length results column_ _ Hwf Hcol) as Hrows_n.
  cbn [array_length] in Hrows_n.
  pose proof (argsort_ok_facts _ _ Hok) as Hf.
  destruct (rank_unfold np_argsort results column_ f scores Hwf Hrows Hcol Hf)
    as [i [asc [Hi [_ [Hasc_run [Hla Hwa]]]]]].
  destruct Hf as [Hlen Hb Hnd Hperm Hasc].
  destruct (column_index results column_ _ Hcol) as [i' [Hi' Hn]].
  rewrite Hi in Hi'. inversion Hi'; subst i'. clear Hi'.
  set (idx := np_argsort scores) in *.
  set (n := length scores) in *.
  destruct (scatter_spec (rev idx) (arange_plus_1 n)
              (repeat 0%Z (length (rev idx))))
    as [ranks [Hs [Hl [Hw _]]]].
  - unfold arange_plus_1. rewrite length_rev, length_map, length_seq.
    exact Hlen.
  - apply NoDup_rev, Hnd.
  - rewrite repeat_length, length_rev, Hlen.
    apply Forall_rev, Hb.
  - rewrite repeat_length, length_rev, Hlen in Hl.
    rewrite length_rev, Hlen in Hw.
    assert (Hpos : forall j, (j < n)%nat ->
              nth (nth j idx 0%nat) ranks 0%Z
              = (Z.of_nat n - Z.of_nat j)%Z).
    { intros j Hj.
      assert (E : nth j idx 0%nat = nth (n - S j) (rev idx) 0%nat).
      { rewrite rev_nth by (rewrite Hlen; lia).
        rewrite Hlen. f_equal. lia. }
      rewrite E, Hw by lia.
      rewrite nth_arange_plus_1 by lia. lia. }
    assert (Hin : forall p, (p < n)%nat ->
              exists j, (j < n)%nat /\ nth j idx 0%nat = p).
    { intros p Hp.
      assert (Hin' : In p idx).
      { apply (Permutation_in p (Permutation_sym Hperm)).
        apply in_seq. lia. }
      destruct (In_nth idx p 0%nat Hin') as [j [Hj Hnj]].
      exists j. split; [lia|exact Hnj]. }
    exists i, ranks, asc.
    split; [exact Hi|]. split; [|split; [exact Hasc_run|]].
    + unfold _rank, len.
      apply Nat.eqb_neq in Hrows. rewrite Hrows.
      rewrite Hcol. simpl. fold idx. fold n. rewrite Hs. simpl.
      rewrite Hi. simpl.
      apply (set_column_scores results i column_ (FloatArray f scores));
        [exact Hn|].
      rewrite length_map, Hl.
      apply (column_length results column_ _ Hwf Hcol).
    + split; [exact Hl|]. split; [exact Hpos|]. split; [|split].
      * intros p Hp. destruct (Hin p Hp) as [j [Hj <-]].
        rewrite Hpos, Hwa by assumption. lia.
      * intros a b Ha Hb' Hlt.
        destruct (Hin a Ha) as [ja [Hja Ea]], (Hin b Hb') as [jb [Hjb Eb]].
        rewrite <- Ea, <- Eb. rewrite !Hpos by assumption.
        destruct (lt_eq_lt_dec ja jb) as [[Hlt'|Heq]|Hgt].
        -- lia.
        -- subst jb. rewrite Ea in Eb. subst b.
           rewrite less_irrefl in Hlt. discriminate.
        -- pose proof (Hasc jb ja Hgt ltac:(fold idx; lia)) as Hno.
           fold idx in Hno. rewrite Ea, Eb in Hno. congruence.
      * intros p Hp.
        apply (stored_ranks_exact ranks (Z.of_nat n));
          [unfold n; lia| |rewrite Hl; exact Hp].
        intros q Hq. rewrite Hl in Hq.
        destruct (Hin q Hq) as [j [Hj <-]]. rewrite Hpos by exact Hj. lia.
Qed.

Lemma rank_descending_positions_witness :
  exists i,
    index (column_names sample_vector_results) "_distance" = Ok i /\
    _rank identity_argsort sample_vector_results "_distance" false
    = Ok (with_scores sample_vector_results i "_distance"
            [f32 3; f32 2; f32 1]).
Proof.
  destruct (rank_descending_positions identity_argsort
              sample_vector_results "_distance" Float.binary32
              [f32 1; f32 2; f32 4])
    as [i [ranks [asc [Hi [Hrun _]]]]].
  - repeat constructor.
  - discriminate.
  - reflexivity.
  - reflexivity.
  - vm_compute. reflexivity.
  - exists i. split; [exact Hi|].
    vm_compute in Hi. inversion Hi; subst i. vm_compute. reflexivity.
Defined.
